(** * NotebookLM Assistant: protocol / extraction adapter

    A shallow embedding of the text splitter, the RPC add-source
    operations, the notebook-detail parser, the upload queue, the token
    refresh, the DOM extractor's failure paths and the Anki exporter,
    then of the other operations of the service (notebooks, deletion,
    status), the file processor, the store's queue actions, file names
    and the CSV generators, followed by the properties established
    about them.

    Conventions.  JavaScript strings are [string]s (sequences of code
    units below 256); string positions and sizes are integers in [Z], so
    that the clamping done by [String.prototype.substring] and the [-1]
    returned by [lastIndexOf] are written out.  Network and browser
    calls are inputs of the model: an oracle gives the outcome of every
    call, and the theorems quantify over all oracles.  A timer
    ([setTimeout]) has no effect on the state of the sequential models;
    the DOM extractor, whose polling loops read the clock, keeps a
    clock that the timers advance. *)

From Stdlib Require Import ZArith NArith List String Ascii Bool Lia Sorted.
From Stdlib Require Import DecimalString QArith.
Import ListNotations.
Local Open Scope string_scope.
Local Open Scope Z_scope.

(** ** JavaScript string primitives *)

Module Js.

Definition len (s : string) : Z := Z.of_nat (String.length s).

(** Clamp an index into [0, len s], as [substring] does with its arguments. *)
Definition clamp (s : string) (i : Z) : Z := Z.max 0 (Z.min i (len s)).

(** [s.substring(a, b)]: both indices are clamped, and swapped when a > b. *)
Definition substring (s : string) (a b : Z) : string :=
  let a' := clamp s a in
  let b' := clamp s b in
  let lo := Z.min a' b' in
  let hi := Z.max a' b' in
  String.substring (Z.to_nat lo) (Z.to_nat (hi - lo)) s.

(** [s.charAt(i)] as an option: [None] outside the string. *)
Definition charAt (s : string) (i : Z) : option ascii :=
  if i <? 0 then None else String.get (Z.to_nat i) s.

(** The suffix of [s] from position [k]. *)
Fixpoint skip (k : nat) (s : string) : string :=
  match k, s with
  | O, _ => s
  | S k', String _ s' => skip k' s'
  | S _, EmptyString => EmptyString
  end.

(** Scan [s] left to right, remembering the last position at which
    [pat] starts. *)
Fixpoint lastIndexOf_from (pat s : string) (i acc : Z) : Z :=
  let acc' := if String.prefix pat s then i else acc in
  match s with
  | EmptyString => acc'
  | String _ s' => lastIndexOf_from pat s' (i + 1) acc'
  end.

(** [s.lastIndexOf(pat)]: the last position of [pat], or [-1]. *)
Definition lastIndexOf (s pat : string) : Z := lastIndexOf_from pat s 0 (-1).

(** [s.includes(pat)] *)
Fixpoint includes (s pat : string) : bool :=
  String.prefix pat s ||
  match s with
  | EmptyString => false
  | String _ s' => includes s' pat
  end.

(** [s.startsWith(pat)] *)
Definition startsWith (s pat : string) : bool := String.prefix pat s.

Definition newline : ascii := "010"%char.
Definition tab : ascii := "009"%char.
Definition space : ascii := " "%char.
Definition dquote : ascii := "034"%char.

(** The two-character paragraph break. *)
Definition paragraph_break : string := String newline (String newline "").

(** [s] is truthy: it is not the empty string. *)
Definition nonempty (s : string) : bool :=
  match s with EmptyString => false | _ => true end.

(** [s.endsWith(pat)] *)
Fixpoint endsWith (s pat : string) : bool :=
  String.eqb s pat ||
  match s with
  | EmptyString => false
  | String _ s' => endsWith s' pat
  end.

Fixpoint map_chars (f : ascii -> ascii) (s : string) : string :=
  match s with
  | EmptyString => EmptyString
  | String c s' => String (f c) (map_chars f s')
  end.

(** Lower-casing of one code unit below 256: A-Z, and the Latin-1
    capitals other than the multiplication sign. *)
Definition lower_char (c : ascii) : ascii :=
  let n := N_of_ascii c in
  if ((65 <=? n) && (n <=? 90))%N
     || ((192 <=? n) && (n <=? 222) && negb (n =? 215))%N
  then ascii_of_N (n + 32) else c.

(** [s.toLowerCase()], for the strings of this file (code units
    below 256); JavaScript lower-cases the letters beyond them as
    well. *)
Definition toLowerCase (s : string) : string := map_chars lower_char s.

(** White space removed by [trim]: tab, line feed, vertical tab, form
    feed, carriage return, space, no-break space. *)
Definition is_white_space (c : ascii) : bool :=
  let n := N_of_ascii c in
  (((9 <=? n) && (n <=? 13)) || (n =? 32) || (n =? 160))%N.

Fixpoint trimStart (s : string) : string :=
  match s with
  | EmptyString => EmptyString
  | String c s' => if is_white_space c then trimStart s' else s
  end.

(** Drop trailing white space: a character is kept when something
    non-blank follows it or it is itself non-blank. *)
Fixpoint trimEnd (s : string) : string :=
  match s with
  | EmptyString => EmptyString
  | String c s' =>
      match trimEnd s' with
      | EmptyString => if is_white_space c then EmptyString else String c EmptyString
      | r => String c r
      end
  end.

(** [s.trim()] *)
Definition trim (s : string) : string := trimEnd (trimStart s).

(** [s.replace(/c/g, d)] for single characters. *)
Definition replace_char (c d : ascii) (s : string) : string :=
  map_chars (fun x => if Ascii.eqb x c then d else x) s.

(** [s.split(c)] for a one-character separator: the pieces between
    the occurrences of [c]; never empty. *)
Fixpoint split_char (c : ascii) (s : string) : list string :=
  match s with
  | EmptyString => [EmptyString]
  | String x s' =>
      if Ascii.eqb x c then EmptyString :: split_char c s'
      else match split_char c s' with
           | piece :: rest => String x piece :: rest
           | [] => [String x EmptyString]
           end
  end.

(** [arr.join(sep)] *)
Fixpoint join (sep : string) (l : list string) : string :=
  match l with
  | [] => EmptyString
  | [x] => x
  | x :: rest => (x ++ sep ++ join sep rest)%string
  end.

(** [s.split(pat)[0]]: the part of [s] before the first occurrence
    of the non-empty pattern [pat]; all of [s] when there is none. *)
Fixpoint before_first (pat s : string) : string :=
  if String.prefix pat s then EmptyString
  else match s with
       | EmptyString => EmptyString
       | String c s' => String c (before_first pat s')
       end.

Definition is_digit (c : ascii) : bool :=
  let n := N_of_ascii c in ((48 <=? n) && (n <=? 57))%N.

(** The longest run of digits at the head of [s], and what follows. *)
Fixpoint span_digits (s : string) : string * string :=
  match s with
  | EmptyString => (EmptyString, EmptyString)
  | String c s' =>
      if is_digit c then
        let (d, r) := span_digits s' in (String c d, r)
      else (EmptyString, s)
  end.

(** The regular expressions of the sources that consist of a literal
    [pre], a group of one or more digits, and a literal [post] that
    does not start with a digit: the group of the leftmost match, if
    any.  At a position where [pre] matches, the greedy group takes the
    whole run of digits, and giving digits back cannot make [post]
    match. *)
Fixpoint match_digits (pre post : string) (s : string) : option string :=
  let here :=
    if String.prefix pre s then
      let (d, r) := span_digits (skip (String.length pre) s) in
      if nonempty d && String.prefix post r then Some d else None
    else None in
  match here with
  | Some d => Some d
  | None =>
      match s with
      | EmptyString => None
      | String _ s' => match_digits pre post s'
      end
  end.

(** The test that a string consists of one or more digits. *)
Definition all_digits (s : string) : bool :=
  let (d, r) := span_digits s in nonempty d && negb (nonempty r).

(** Decimal notation of a non-negative integer, as in a template string. *)
Definition decimal (n : Z) : string :=
  NilZero.string_of_uint (N.to_uint (Z.to_N n)).

End Js.

(** ** Text splitter (lib/text-splitter) *)

Module TextSplitter.

Record Chunk := mkChunk {
  text : string;
  index : Z;
  start : Z;
  end_ : Z
}.

(** The break point searched in the window: paragraph break first,
    then sentence end, then a plain space; [-1] when none is there. *)
Definition breakPoint (searchText : string) : Z :=
  let bp := Js.lastIndexOf searchText Js.paragraph_break in
  if bp =? -1 then
    let bp := Js.lastIndexOf searchText ". " in
    if bp =? -1 then Js.lastIndexOf searchText " " else bp
  else bp.

(** The value of [end] at the moment the chunk is pushed, for a loop
    iteration entered with [start]. *)
Definition chunkEnd (text : string) (chunkSize start : Z) : Z :=
  let end0 := start + chunkSize in
  if end0 <? Js.len text then
    let searchStart := Z.max start (end0 - 200) in
    let searchEnd := Z.min (Js.len text) (end0 + 200) in
    let searchText := Js.substring text searchStart searchEnd in
    let bp := breakPoint searchText in
    if negb (bp =? -1) then
      searchStart + bp +
      (if bp =? Js.lastIndexOf searchText Js.paragraph_break then 2 else 1)
    else end0
  else Js.len text.

(** [start] for the next iteration. *)
Definition nextStart (start end' chunkOverlap : Z) : Z :=
  Z.max (start + 1) (end' - chunkOverlap).

(** The while loop; [fuel] bounds the number of iterations and [None]
    means the bound was reached with the loop still running. *)
Fixpoint splitLoop (fuel : nat) (text : string) (chunkSize chunkOverlap : Z)
         (start index : Z) : option (list Chunk) :=
  if start <? Js.len text then
    match fuel with
    | O => None
    | S fuel' =>
        let end' := chunkEnd text chunkSize start in
        let chunk := mkChunk (Js.substring text start end') index start end' in
        option_map (cons chunk)
          (splitLoop fuel' text chunkSize chunkOverlap
             (nextStart start end' chunkOverlap) (index + 1))
    end
  else Some [].

(** [splitText] with an explicit iteration bound. *)
Definition splitTextFuel (fuel : nat) (chunkSize chunkOverlap : Z)
           (text : string) : option (list Chunk) :=
  if Js.len text <=? chunkSize then
    Some [mkChunk text 0 0 (Js.len text)]
  else splitLoop fuel text chunkSize chunkOverlap 0 0.

(** [new TextSplitter(chunkSize, chunkOverlap).splitText(text)].  One
    iteration per character is always enough (theorem
    [splitText_runs]). *)
Definition splitText (chunkSize chunkOverlap : Z) (text : string) : list Chunk :=
  match splitTextFuel (String.length text) chunkSize chunkOverlap text with
  | Some chunks => chunks
  | None => []
  end.

(** Constructor defaults. *)
Definition default_chunkSize : Z := 500000.
Definition default_chunkOverlap : Z := 1000.

(** *** Vocabulary for the properties of the splitter *)

(** The window in which [chunkEnd] searches for a break, for an
    iteration entered with [start]: 200 characters on either side of
    the raw cut [start + chunkSize], clipped to the chunk's own start
    and to the end of the text. *)
Definition searchWindow (text : string) (chunkSize start : Z) : string :=
  Js.substring text (Z.max start (start + chunkSize - 200))
                    (Z.min (Js.len text) (start + chunkSize + 200)).

(** A chunk that the loop pushes for [text]: its end is the one
    computed for its start and its text is that span of [text]. *)
Definition chunk_of (T : string) (sz : Z) (c : Chunk) : Prop :=
  0 <= start c < Js.len T /\
  end_ c = chunkEnd T sz (start c) /\
  text c = Js.substring T (start c) (end_ c).

(** Concatenating the chunks' spans while ignoring the overlap: of
    each chunk, keep the part that lies beyond the position [pos]
    reached so far. *)
Fixpoint reassemble (pos : Z) (chunks : list Chunk) : string :=
  match chunks with
  | [] => ""
  | c :: rest =>
      (Js.substring (text c) (pos - start c) (end_ c - start c)
       ++ reassemble (Z.max pos (end_ c)) rest)%string
  end.

(** Characters that end a word. *)
Definition is_blank (c : ascii) : bool :=
  Ascii.eqb c Js.space || Ascii.eqb c Js.newline.

(** A cut at position [p] splits a word when the characters on both
    sides of it exist and neither is blank. *)
Definition splits_word (T : string) (p : Z) : Prop :=
  exists a b,
    Js.charAt T (p - 1) = Some a /\ Js.charAt T p = Some b /\
    is_blank a = false /\ is_blank b = false.

End TextSplitter.

(** ** JSON values and JavaScript exceptions *)

Module Json.

(** A JSON number: an integer, or a number that is not an integer
    (identified by its literal). *)
Inductive number :=
| Int (z : Z)
| Frac (literal : string).

#[local] Set Warnings "-register-all".
Inductive json :=
| JNull
| JBool (b : bool)
| JNum (n : number)
| JStr (s : string)
| JArr (items : list json)
| JObj (fields : list (string * json)).

(** A JavaScript value read out of parsed JSON: [None] is [undefined]. *)
Definition jsval := option json.

(** Something thrown: an [Error] with its message, or any other value. *)
Inductive exn :=
| Error (message : string)
| NonError (description : string).

(** The outcome of a computation or of an awaited promise. *)
Inductive outcome (A : Type) :=
| Resolved (a : A)
| Rejected (e : exn).
Arguments Resolved {A} a.
Arguments Rejected {A} e.

Definition int (z : Z) : json := JNum (Int z).

(** Truthiness of a value. *)
Definition truthy (v : jsval) : bool :=
  match v with
  | None | Some JNull => false
  | Some (JBool b) => b
  | Some (JNum (Int z)) => negb (z =? 0)
  | Some (JNum (Frac _)) => true
  | Some (JStr s) => Js.nonempty s
  | Some (JArr _) | Some (JObj _) => true
  end.

Fixpoint lookup (key : string) (fields : list (string * json)) : jsval :=
  match fields with
  | [] => None
  | (k, v) :: rest => if String.eqb k key then Some v else lookup key rest
  end.

Definition nth_item (l : list json) (i : Z) : jsval :=
  if i <? 0 then None else nth_error l (Z.to_nat i).

(** [v[i]] for an integer [i >= 0]: a [TypeError] on [null] and
    [undefined], the element of an array, the character of a string,
    the property named by the digits of [i] of an object, and
    [undefined] otherwise. *)
Definition get (v : jsval) (i : Z) : outcome jsval :=
  match v with
  | None | Some JNull =>
      Rejected (Error "Cannot read properties of null or undefined")
  | Some (JArr l) => Resolved (nth_item l i)
  | Some (JStr s) =>
      Resolved (match Js.charAt s i with
                | Some c => Some (JStr (String c EmptyString))
                | None => None
                end)
  | Some (JObj fields) => Resolved (lookup (Js.decimal i) fields)
  | Some (JBool _) | Some (JNum _) => Resolved None
  end.

Definition isArray (v : jsval) : bool :=
  match v with Some (JArr _) => true | _ => false end.

(** *** Computations that may throw, over a state [St] *)

Definition M (St A : Type) := St -> outcome A * St.

Definition ret {St A} (a : A) : M St A := fun s => (Resolved a, s).
Definition throw {St A} (e : exn) : M St A := fun s => (Rejected e, s).
Definition bind {St A B} (m : M St A) (k : A -> M St B) : M St B :=
  fun s => match m s with
           | (Resolved a, s') => k a s'
           | (Rejected e, s') => (Rejected e, s')
           end.

(** [try { m } catch (e) { h e }] *)
Definition try_catch {St A} (m : M St A) (h : exn -> M St A) : M St A :=
  fun s => match m s with
           | (Resolved a, s') => (Resolved a, s')
           | (Rejected e, s') => h e s'
           end.

(** [try { m } finally { f }], for an [f] that does not throw. *)
Definition try_finally {St A} (m : M St A) (f : St -> St) : M St A :=
  fun s => match m s with
           | (r, s') => (r, f s')
           end.

Definition modify {St} (f : St -> St) : M St unit := fun s => (Resolved tt, f s).
Definition gets {St A} (f : St -> A) : M St A := fun s => (Resolved (f s), s).
Definition lift_outcome {St A} (o : outcome A) : M St A := fun s => (o, s).

Declare Scope js_scope.
Delimit Scope js_scope with js.
Notation "x <- m ;; k" := (bind m (fun x => k))
  (at level 61, m at next level, right associativity) : js_scope.
Notation "m ;;; k" := (bind m (fun _ => k))
  (at level 61, right associativity) : js_scope.

End Json.

Import Json.

(** ** Notebook API service: parsing of notebook details *)

Module NotebookParser.

(** Built-ins of the platform that the parser calls.  [JSON_parse]
    is [JSON.parse] applied to any value (a non-string argument is
    first converted to a string); [None] stands for the [SyntaxError]
    it throws.  [titleFromUrl] is the title derived from a URL with
    [new URL] and [decodeURIComponent], including its own fallback
    [sourceUrl.substring(0, 80)] when these throw. *)
Record Platform := {
  JSON_parse : jsval -> option json;
  titleFromUrl : string -> string
}.

Record Source := mkSource {
  id : string;
  title : string;
  type : string;
  typeCode : Z;
  url : option string;
  status : number
}.

Record NotebookDetails := mkDetails {
  notebook_id : json;
  notebook_title : json;
  sources : list Source
}.

(** [API_TYPE_MAP] *)
Definition API_TYPE_MAP : list (Z * string) :=
  [ (1, "gdrive"); (2, "text"); (3, "pdf"); (4, "text"); (5, "url");
    (6, "slides"); (7, "pdf"); (8, "note"); (9, "youtube"); (10, "video");
    (13, "image"); (14, "pdf"); (15, "mindmap") ].

Fixpoint API_TYPE_MAP_get (m : list (Z * string)) (code : Z) : option string :=
  match m with
  | [] => None
  | (k, v) :: rest => if k =? code then Some v else API_TYPE_MAP_get rest code
  end.

(** [code in this.API_TYPE_MAP] *)
Definition in_API_TYPE_MAP (code : Z) : bool :=
  match API_TYPE_MAP_get API_TYPE_MAP code with Some _ => true | None => false end.

Definition is_hex (c : ascii) : bool :=
  let n := N_of_ascii c in
  (((48 <=? n) && (n <=? 57)) || ((97 <=? n) && (n <=? 102))
   || ((65 <=? n) && (n <=? 70)))%N.

(** [n] hexadecimal digits at the head of [s]; what follows them. *)
Fixpoint hex_run (n : nat) (s : string) : option string :=
  match n with
  | O => Some s
  | S n' => match s with
            | String c s' => if is_hex c then hex_run n' s' else None
            | EmptyString => None
            end
  end.

Definition dash (s : string) : option string :=
  match s with
  | String "-" s' => Some s'
  | _ => None
  end.

(** A group of [n] hexadecimal digits followed by a dash. *)
Definition hex_group (n : nat) (s : string) : option string :=
  match hex_run n s with
  | Some r => dash r
  | None => None
  end.

Definition and_then {A B} (o : option A) (f : A -> option B) : option B :=
  match o with Some a => f a | None => None end.

(** [isUUID]: 8-4-4-4-12 hexadecimal digits, in either case, and
    nothing else. *)
Definition isUUID (str : string) : bool :=
  match and_then (and_then (and_then (and_then (hex_group 8 str)
                   (hex_group 4)) (hex_group 4)) (hex_group 4)) (hex_run 12) with
  | Some EmptyString => true
  | _ => false
  end.

(** [isURL] *)
Definition isURL (str : string) : bool :=
  Js.startsWith str "http://" || Js.startsWith str "https://".

(** [findURLInStructure(data, depth)], with [fuel = 6 - depth]: the
    search gives up below depth 5. *)
Fixpoint findURLInStructure (fuel : nat) (data : json) : option string :=
  match fuel with
  | O => None
  | S fuel' =>
      match data with
      | JStr s => if isURL s then Some s else None
      | JArr items =>
          (fix scan (l : list json) : option string :=
             match l with
             | [] => None
             | item :: rest =>
                 match findURLInStructure fuel' item with
                 | Some found => Some found
                 | None => scan rest
                 end
             end) items
      | _ => None
      end
  end.

(** The test of [sourceUrl] against the pattern for a PDF: [.pdf],
    in either case, followed by a question mark or by the end. *)
Definition matches_pdf (sourceUrl : string) : bool :=
  let low := Js.toLowerCase sourceUrl in
  Js.includes low ".pdf?" || Js.endsWith low ".pdf".

(** The first integer of [items] that is a key of [API_TYPE_MAP]. *)
Fixpoint first_type_code (items : list json) : option Z :=
  match items with
  | [] => None
  | JNum (Int z) :: rest =>
      if in_API_TYPE_MAP z then Some z else first_type_code rest
  | _ :: rest => first_type_code rest
  end.

(** The fallback search over [source[2]] .. [source[4]]: visits the
    elements that are arrays in order, takes the first mapped integer
    of an array, and stops after the first array once [apiTypeCode]
    is not 0. *)
Fixpoint search_type_code (fields : list json) (apiTypeCode : Z) : Z :=
  match fields with
  | [] => apiTypeCode
  | JArr items :: rest =>
      let code := match first_type_code items with
                  | Some z => z
                  | None => apiTypeCode
                  end in
      if negb (code =? 0) then code else search_type_code rest code
  | _ :: rest => search_type_code rest apiTypeCode
  end.

(** [source[2] .. source[min(source.length, 5) - 1]] *)
Definition fields_2_to_4 (source : list json) : list json :=
  firstn 3 (skipn 2 source).

Definition infer_from_url (sourceUrl : string) : Z :=
  if Js.includes sourceUrl "youtube.com" || Js.includes sourceUrl "youtu.be" then 9
  else if matches_pdf sourceUrl then 3
  else if Js.includes sourceUrl "docs.google.com"
          || Js.includes sourceUrl "drive.google.com" then 1
  else 5.

(** The backwards scan for a replacement title. *)
Definition title_candidate (sourceId : string) (item : json) : option string :=
  match item with
  | JStr s =>
      if (1 <? Js.len s) && negb (isUUID s) && negb (isURL s)
         && negb (Js.all_digits s) && negb (String.eqb s sourceId)
      then Some s else None
  | _ => None
  end.

Fixpoint last_title_candidate (sourceId : string) (rev_items : list json)
  : option string :=
  match rev_items with
  | [] => None
  | item :: rest =>
      match title_candidate sourceId item with
      | Some s => Some s
      | None => last_title_candidate sourceId rest
      end
  end.

Definition typeCode_at_fixed_index (source : list json) : Z :=
  match nth_item source 2 with
  | Some (JArr meta) =>
      match nth_item meta 4 with
      | Some (JNum (Int z)) => z
      | _ => 0
      end
  | _ => 0
  end.

Definition url_at_fixed_index (source : list json) : option string :=
  match nth_item source 2 with
  | Some (JArr meta) =>
      match nth_item meta 7 with
      | Some (JArr (JStr u :: _)) => Some u
      | _ => None
      end
  | _ => None
  end.

Definition status_at_fixed_index (source : list json) : option number :=
  match nth_item source 3 with
  | Some (JArr st) =>
      match nth_item st 1 with
      | Some (JNum n) => Some n
      | _ => None
      end
  | _ => None
  end.

(** A [sourceUrl] that is truthy. *)
Definition truthy_url (u : option string) : option string :=
  match u with
  | Some s => if Js.nonempty s then Some s else None
  | None => None
  end.

(** [sourceUrl] after the fallback search: the URL at the fixed
    index when it is truthy, else the first URL found in the row. *)
Definition resolved_url (source : list json) : option string :=
  match truthy_url (url_at_fixed_index source) with
  | Some u => Some u
  | None => findURLInStructure 6 (JArr source)
  end.

(** The callback of [sourcesArray.map]: one row of the response. *)
Definition parseSource (P : Platform) (source : list json) : Source :=
  let sourceId :=
    match nth_item source 0 with
    | Some (JArr (JStr s :: _)) => s
    | Some (JStr s) => if isUUID s then s else ""
    | _ => ""
    end in
  let sourceTitle :=
    match nth_item source 1 with
    | Some (JStr s) => if Js.nonempty s then s else "Untitled"
    | _ => "Untitled"
    end in
  let apiTypeCode := typeCode_at_fixed_index source in
  let sourceStatus :=
    match status_at_fixed_index source with
    | Some n => n
    | None => Int 2
    end in
  let apiTypeCode :=
    if (apiTypeCode =? 0) || negb (in_API_TYPE_MAP apiTypeCode)
    then search_type_code (fields_2_to_4 source) apiTypeCode
    else apiTypeCode in
  let sourceUrl := resolved_url source in
  let apiTypeCode :=
    match apiTypeCode =? 0, sourceUrl with
    | true, Some u => infer_from_url u
    | _, _ => apiTypeCode
    end in
  let apiTypeCode := if apiTypeCode =? 0 then 2 else apiTypeCode in
  let sourceTitle :=
    if String.eqb sourceTitle "Untitled" then
      match last_title_candidate sourceId (rev source) with
      | Some s => s
      | None => sourceTitle
      end
    else sourceTitle in
  let sourceTitle :=
    match String.eqb sourceTitle "Untitled", sourceUrl with
    | true, Some u => titleFromUrl P u
    | _, _ => sourceTitle
    end in
  let typeName :=
    match API_TYPE_MAP_get API_TYPE_MAP apiTypeCode with
    | Some name => name
    | None => "unknown"
    end in
  mkSource sourceId sourceTitle typeName apiTypeCode sourceUrl sourceStatus.

Definition empty_details : NotebookDetails :=
  mkDetails (JStr "") (JStr "") [].

(** The rows kept by [sourcesArray.filter]: non-empty arrays. *)
Fixpoint source_rows (sourcesArray : list json) : list (list json) :=
  match sourcesArray with
  | [] => []
  | JArr (x :: r) :: rest => (x :: r) :: source_rows rest
  | _ :: rest => source_rows rest
  end.

(** [v || ''] *)
Definition or_empty_string (v : jsval) : json :=
  match v with
  | Some j => if truthy v then j else JStr ""
  | None => JStr ""
  end.

(** The body of the [try] block once the inner data is decoded. *)
Definition parseInnerData (P : Platform) (innerData : json) : outcome NotebookDetails :=
  if negb (truthy (Some innerData)) then Resolved empty_details
  else
    match get (Some innerData) 0 with
    | Rejected e => Rejected e
    | Resolved notebookData =>
        if negb (truthy notebookData) then Resolved empty_details
        else
          match get notebookData 0, get notebookData 2, get notebookData 1 with
          | Resolved t, Resolved i, Resolved srcs =>
              let sourcesArray :=
                match srcs with Some (JArr l) => l | _ => [] end in
              Resolved (mkDetails (or_empty_string i) (or_empty_string t)
                          (map (parseSource P) (source_rows sourcesArray)))
          | Rejected e, _, _ | _, Rejected e, _ | _, _, Rejected e => Rejected e
          end
    end.

(** The [try] block of [parseNotebookDetails]. *)
Definition parseNotebookDetails_try (P : Platform) (responseText : string)
  : outcome NotebookDetails :=
  let lines := Js.split_char Js.newline responseText in
  match find (fun line => Js.includes line "wrb.fr") lines with
  | None => Resolved empty_details
  | Some dataLine =>
      match JSON_parse P (Some (JStr dataLine)) with
      | None => Rejected (Error "SyntaxError")
      | Some parsed =>
          match get (Some parsed) 0 with
          | Rejected e => Rejected e
          | Resolved p0 =>
              match get p0 2 with
              | Rejected e => Rejected e
              | Resolved p02 =>
                  match JSON_parse P p02 with
                  | None => Rejected (Error "SyntaxError")
                  | Some innerData => parseInnerData P innerData
                  end
              end
          end
      end
  end.

(** [parseNotebookDetails]: the [catch] turns every exception into
    the empty result. *)
Definition parseNotebookDetails (P : Platform) (responseText : string)
  : NotebookDetails :=
  match parseNotebookDetails_try P responseText with
  | Resolved d => d
  | Rejected _ => empty_details
  end.

End NotebookParser.

(** ** Notebook API service: tokens, RPC and the add-source operations *)

Module Service.

Import NotebookParser.
Local Open Scope js_scope.

(** The two requests the service sends: the page that carries the
    tokens, and a batched RPC call. *)
Inductive Call :=
| FetchPage (authuser : Z)
| FetchRpc (rpcId : string) (params : json) (sourcePath : string).

(** What [fetch] resolves with.  [body] is the outcome of
    [response.text()]. *)
Record Response := mkResponse {
  ok : bool;
  http_status : Z;
  opaqueredirect : bool;
  body : outcome string
}.

(** The network: the outcome of the [n]-th request, given the
    request.  [fetchWithTimeout] rejects when the network fails or
    the 30 s timer aborts the request. *)
Definition Network := nat -> Call -> outcome Response.

Record Tokens := mkTokens { bl : string; at_ : string; authuser : Z }.

(** The mutable state of the service, and the requests sent so far. *)
Record State := mkState {
  tokens : option Tokens;
  isRefreshingTokens : bool;
  sent : list Call
}.

Section WithNetwork.

Variable net : Network.
Variable P : Platform.

(** [await this.fetchWithTimeout(...)]: the request is recorded
    and the network decides. *)
Definition fetch (c : Call) : M State Response :=
  fun s =>
    (net (List.length (sent s)) c,
     mkState (tokens s) (isRefreshingTokens s) (sent s ++ [c])).

(** The characters up to the next double quote, and whether a
    double quote ends them. *)
Fixpoint until_quote (s : string) : string * bool :=
  match s with
  | EmptyString => (EmptyString, false)
  | String c s' =>
      if Ascii.eqb c Js.dquote then (EmptyString, true)
      else let (v, closed) := until_quote s' in (String c v, closed)
  end.

(** The leftmost match of the token pattern: [pre], then one or
    more characters other than a double quote, then a double quote;
    the result is the characters in between. *)
Fixpoint match_token (pre : string) (html : string) : option string :=
  let here :=
    if String.prefix pre html then
      let (v, closed) := until_quote (Js.skip (String.length pre) html) in
      if Js.nonempty v && closed then Some v else None
    else None in
  match here with
  | Some v => Some v
  | None => match html with
            | EmptyString => None
            | String _ html' => match_token pre html'
            end
  end.

Definition quote : string := String Js.dquote EmptyString.

(** [extractToken(key, html)] *)
Definition extractToken (key : string) (html : string) : option string :=
  match_token (quote ++ key ++ quote ++ ":" ++ quote)%string html.

(** [getTokens(authuser)] run from start to end without another
    caller in between (the interleavings are the subject of the
    module [Refresh] below). *)
Definition getTokens (authuser : Z) : M State Tokens :=
  waiting <- gets isRefreshingTokens ;;
  cached <- gets tokens ;;
  match waiting, cached with
  | true, Some t => ret t
  | _, _ =>
      modify (fun s => mkState (tokens s) true (sent s)) ;;;
      try_finally
        (try_catch
           (response <- fetch (FetchPage authuser) ;;
            if negb (ok response) && negb (opaqueredirect response)
            then throw (Error "Failed to fetch NotebookLM page")
            else
              html <- lift_outcome (body response) ;;
              match extractToken "cfb2h" html, extractToken "SNlM0e" html with
              | Some b, Some a =>
                  let t := mkTokens b a authuser in
                  modify (fun s => mkState (Some t) (isRefreshingTokens s) (sent s)) ;;;
                  ret t
              | _, _ =>
                  throw (Error "Not authorized. Please login to NotebookLM first.")
              end)
           (fun _ => throw (Error "Please login to NotebookLM first")))
        (fun s => mkState (tokens s) false (sent s))
  end.

(** [rpc(rpcId, params, sourcePath)] *)
Definition rpc (rpcId : string) (params : json) (sourcePath : string)
  : M State string :=
  cached <- gets tokens ;;
  (match cached with
   | None => _ <- getTokens 0 ;; ret tt
   | Some _ => ret tt
   end) ;;;
  response <- fetch (FetchRpc rpcId params sourcePath) ;;
  if negb (ok response)
  then throw (Error ("RPC call failed: " ++ Js.decimal (http_status response)))
  else lift_outcome (body response).

(** The text that [response.includes] looks for: an opening
    bracket, the letter e in double quotes, a comma and 4. *)
Definition error_marker : string :=
  ("[" ++ quote ++ "e" ++ quote ++ ",4")%string.

(** The first group of the leftmost match of the error-marker
    pattern in the response: the marker, [,null,null,], digits, a
    closing bracket. *)
Definition errorMatch (response : string) : option string :=
  Js.match_digits (error_marker ++ ",null,null,")%string "]" response.

(** The list in [addSource] (and in the upload queue). *)
Definition normalErrorCodes : list string :=
  ["139"; "140"; "141"; "412"; "466"; "496"; "497"; "536"; "537"; "552"; "553"].

(** The list in [addTextSource]. *)
Definition normalErrorCodes_text : list string :=
  ["139"; "140"; "141"; "412"; "466"; "536"; "537"; "552"; "553"].

(** [codes.includes(code)] *)
Definition includes_code (codes : list string) (code : string) : bool :=
  existsb (String.eqb code) codes.

Inductive ContentType := text_type | url_type | file_type.

Record Content := mkContent {
  content_type : ContentType;
  content_title : string;
  content_content : option string;
  content_url : option string;
  content_fileName : option string
}.

Definition nulls (n : nat) : list json := repeat JNull n.

(** [[null, [title, text], null, 2, null, null, null, null, null, null, 1]] *)
Definition text_source (title text : string) : json :=
  JArr ([JNull; JArr [JStr title; JStr text]; JNull; int 2] ++ nulls 6 ++ [int 1]).

Definition opt_string (u : option string) : json :=
  match u with Some s => JStr s | None => JNull end.

(** [o || d] for an optional string. *)
Definition or_default (o : option string) (d : string) : string :=
  match o with
  | Some s => if Js.nonempty s then s else d
  | None => d
  end.

Definition notebook_path (notebookId : string) : string :=
  ("/notebook/" ++ notebookId)%string.

(** [addFileSource(notebookId, file)] *)
Definition addFileSource (notebookId fileName : string) : M State unit :=
  _ <- rpc "o4cbdc"
         (JArr [ JArr [JArr [JStr fileName; int 13]];
                 JStr notebookId;
                 JArr [int 2];
                 JArr ([int 1] ++ nulls 9 ++ [JArr [int 1]]) ])
         (notebook_path notebookId) ;;
  ret tt.

Definition is_youtube (u : option string) : bool :=
  match u with
  | Some s => Js.includes s "youtube.com" || Js.includes s "youtu.be"
  | None => false
  end.

(** The part of [addSource] after the call: what is done with the
    raw response. *)
Definition check_addSource_response (response : string) : M State unit :=
  if Js.includes response error_marker then
    match errorMatch response with
    | Some errorCode =>
        if negb (includes_code normalErrorCodes errorCode)
        then throw (Error ("RPC returned error code: " ++ errorCode))
        else ret tt
    | None => ret tt
    end
  else ret tt.

(** [addSource(notebookId, content)] *)
Definition addSource (notebookId : string) (content : Content) : M State unit :=
  match content_type content with
  | file_type =>
      addFileSource notebookId
        (or_default (content_fileName content) (content_title content))
  | text_type =>
      let textContent := or_default (content_content content) "" in
      let textTitle := or_default (Some (content_title content)) "Untitled" in
      if negb (Js.nonempty (Js.trim textContent))
      then throw (Error "Text content cannot be empty")
      else
        response <- rpc "izAoDd"
                      (JArr [JArr [text_source textTitle textContent]; JStr notebookId])
                      (notebook_path notebookId) ;;
        check_addSource_response response
  | url_type =>
      let sources :=
        if is_youtube (content_url content)
        then JArr [JArr (nulls 7 ++ [JArr [opt_string (content_url content)]])]
        else JArr [JArr [JNull; JNull; JArr [opt_string (content_url content)]]] in
      response <- rpc "izAoDd" (JArr [sources; JStr notebookId])
                    (notebook_path notebookId) ;;
      check_addSource_response response
  end.

(** [addTextSource(notebookId, text, title)]: an error code outside
    its list is logged with [console.warn] and nothing else happens. *)
Definition addTextSource (notebookId text title : string) : M State unit :=
  response <- rpc "izAoDd"
                (JArr [JArr [text_source title text]; JStr notebookId])
                (notebook_path notebookId) ;;
  if Js.includes response error_marker then
    match errorMatch response with
    | Some errorCode =>
        if negb (includes_code normalErrorCodes_text errorCode)
        then ret tt
        else ret tt
    | None => ret tt
    end
  else ret tt.

(** [getNotebook(notebookId)] *)
Definition getNotebook (notebookId : string) : M State NotebookDetails :=
  response <- rpc "rLM1Ne"
                (JArr [JStr notebookId; JNull; JArr [int 2]; JNull; int 1])
                (notebook_path notebookId) ;;
  ret (parseNotebookDetails P response).

End WithNetwork.

(** A request that adds a source. *)
Definition is_add_source (c : Call) : bool :=
  match c with
  | FetchRpc rpcId _ _ => String.eqb rpcId "izAoDd" || String.eqb rpcId "o4cbdc"
  | FetchPage _ => false
  end.

(** [m] sends no request that adds a source. *)
Definition adds_nothing {A} (m : M State A) : Prop :=
  forall s, filter is_add_source (sent (snd (m s)))
            = filter is_add_source (sent s).

(** The request of [getNotebook]. *)
Definition notebook_request (notebookId : string) : Call :=
  FetchRpc "rLM1Ne"
    (JArr [JStr notebookId; JNull; JArr [int 2]; JNull; int 1])
    (notebook_path notebookId).

(** The request of [addTextSource]. *)
Definition add_request (notebookId title text : string) : Call :=
  FetchRpc "izAoDd"
    (JArr [JArr [text_source title text]; JStr notebookId])
    (notebook_path notebookId).

End Service.

(** ** Upload queue (services/upload-queue) and the store it updates *)

Module UploadQueue.

Import NotebookParser Service.
Local Open Scope js_scope.

Inductive ItemType := Page | Selection | FileItem | Youtube | Note.
Inductive Status := pending | processing | done | error.

Record File := mkFile { name : string }.

Record UploadItem := mkItem {
  id : string;
  type : ItemType;
  title : string;
  content : option string;
  url : option string;
  file : option File;
  status : Status;
  progress : option Q;
  error_message : option string;
  notebookId : option string;
  chunks : option Z;
  currentChunk : option Z
}.

(** A [Partial<UploadItem>] as the queue passes it to [updateQueueItem]. *)
Record Updates := mkUpdates {
  set_status : option Status;
  set_progress : option Q;
  set_error : option string;
  set_chunks : option Z;
  set_currentChunk : option Z
}.

Definition override {A} (new old : option A) : option A :=
  match new with Some a => Some a | None => old end.

(** [{ ...item, ...updates }] *)
Definition merge (item : UploadItem) (u : Updates) : UploadItem :=
  mkItem (id item) (type item) (title item) (content item) (url item) (file item)
         (match set_status u with Some st => st | None => status item end)
         (override (set_progress u) (progress item))
         (override (set_error u) (error_message item))
         (notebookId item)
         (override (set_chunks u) (chunks item))
         (override (set_currentChunk u) (currentChunk item)).

(** The store's [updateQueueItem(id, updates)] on the queue. *)
Definition updateQueue (queue : list UploadItem) (i : string) (u : Updates)
  : list UploadItem :=
  map (fun item => if String.eqb (id item) i then merge item u else item) queue.

(** What [FileProcessor.processFile] resolves with. *)
Record Processed := mkProcessed {
  processed_content : string;
  needsChunking : bool;
  processed_chunks : option (list (string * Z))
}.

(** The collaborators of the queue: the network, the platform
    built-ins, the selection parser, the file processor, and the URL
    normalisation of [checkDuplicate] (built on the [URL] class).
    The selection and the file are read at a moment given by the
    number of requests sent so far. *)
Record Env := mkEnv {
  net : Network;
  platform : Platform;
  parseSelection : nat -> outcome (string * string);
  processFile : File -> nat -> outcome Processed;
  normalizeUrl : string -> string
}.

Record World := mkWorld {
  uploadQueue : list UploadItem;
  selectedNotebookId : option string;
  isProcessing : bool;
  service : State
}.

Definition CHUNK_SIZE : Z := 225000.
Definition QUEUE_DELAY_MS : Z := 1000.

(** [useStore.getState().updateQueueItem(id, updates)] *)
Definition updateQueueItem (i : string) (u : Updates) : M World unit :=
  modify (fun w => mkWorld (updateQueue (uploadQueue w) i u)
                           (selectedNotebookId w) (isProcessing w) (service w)).

(** Run a service operation inside the world. *)
Definition call {A} (m : M State A) : M World A :=
  fun w => match m (service w) with
           | (r, s') => (r, mkWorld (uploadQueue w) (selectedNotebookId w)
                                    (isProcessing w) s')
           end.

(** [await new Promise((resolve) => setTimeout(resolve, ms))] *)
Definition sleep (ms : Z) : M World unit := ret tt.

(** [s.toLowerCase().trim()] *)
Definition normalized (s : string) : string := Js.trim (Js.toLowerCase s).

(** [arr.some(f)] *)
Definition some {A} (f : A -> bool) (l : list A) : bool := existsb f l.

(** An optional string that is truthy. *)
Definition truthy_string (o : option string) : option string :=
  match o with
  | Some s => if Js.nonempty s then Some s else None
  | None => None
  end.

Section WithEnv.

Variable env : Env.

(** The first test of [checkDuplicate]: the title is truthy and
    some source has it, exactly or after lower-casing and trimming. *)
Definition titleMatch (notebook : NotebookDetails) (title : string) : bool :=
  Js.nonempty title &&
  some (fun source =>
          String.eqb (NotebookParser.title source) title
          || String.eqb (normalized (NotebookParser.title source))
                        (normalized title))
       (sources notebook).

(** The decision of [checkDuplicate] once the notebook is fetched. *)
Definition isDuplicateIn (notebook : NotebookDetails) (item : UploadItem) : bool :=
  let title := title item in
  if titleMatch notebook title then true
  else
    match type item with
    | Youtube | Page =>
        match truthy_string (url item) with
        | None => false
        | Some u =>
            let normalizedUrl := normalizeUrl env u in
            some (fun source =>
                    match truthy_string (NotebookParser.url source) with
                    | None => false
                    | Some sourceUrl =>
                        String.eqb (normalizeUrl env sourceUrl) normalizedUrl
                    end)
                 (sources notebook)
        end
    | Note | FileItem | Selection =>
        if negb (Js.nonempty title) then false
        else
          some (fun source =>
                  String.eqb (NotebookParser.title source) title
                  || (Js.includes title "(Part"
                      && Js.startsWith (NotebookParser.title source)
                           (Js.trim (Js.before_first "(Part" title))))
               (sources notebook)
    end.

(** [checkDuplicate(notebookId, item)]: a failed fetch allows the upload. *)
Definition checkDuplicate (nb : string) (item : UploadItem) : M World bool :=
  try_catch
    (notebook <- call (getNotebook (net env) (platform env) nb) ;;
     ret (isDuplicateIn notebook item))
    (fun _ => ret false).

(** [waitForTextSource(notebookId, expectedTitle)]: the result of
    the look-up is only logged. *)
Definition waitForTextSource (nb expectedTitle : string) : M World unit :=
  sleep 2000 ;;;
  try_catch
    (_ <- call (getNotebook (net env) (platform env) nb) ;; ret tt)
    (fun _ => ret tt).

(** The title of part [i + 1] of [n]. *)
Definition partTitle (title : string) (i n : Z) : string :=
  (title ++ " (Part " ++ Js.decimal (i + 1) ++ "/" ++ Js.decimal n ++ ")")%string.

(** [((i + 1) / chunks.length) * 100], as the exact rational; the
    code stores the nearest double (66.66666666666666 where this is
    200/3). *)
Definition chunkProgress (i n : Z) : Q :=
  (inject_Z (i + 1) / inject_Z n * inject_Z 100)%Q.

Definition update_chunk (item : UploadItem) (i n : Z) : M World unit :=
  updateQueueItem (id item)
    (mkUpdates None (Some (chunkProgress i n)) None None (Some (i + 1))).

(** The chunk loop of the page case: no look-up between chunks. *)
Fixpoint upload_page_chunks (nb : string) (item : UploadItem)
         (texts : list string) (i n : Z) : M World unit :=
  match texts with
  | [] => ret tt
  | t :: rest =>
      call (addTextSource (net env) nb t (partTitle (title item) i n)) ;;;
      update_chunk item i n ;;;
      (if i <? n - 1 then sleep 2000 else ret tt) ;;;
      upload_page_chunks nb item rest (i + 1) n
  end.

(** The chunk loop of the file and note cases. *)
Fixpoint upload_chunks (nb : string) (item : UploadItem)
         (texts : list string) (i n : Z) : M World unit :=
  match texts with
  | [] => ret tt
  | t :: rest =>
      let chunkTitle := partTitle (title item) i n in
      call (addTextSource (net env) nb t chunkTitle) ;;;
      update_chunk item i n ;;;
      (if i <? n - 1
       then waitForTextSource nb chunkTitle ;;; sleep 2000
       else ret tt) ;;;
      upload_chunks nb item rest (i + 1) n
  end.

Definition start_chunks (item : UploadItem) (n : Z) : M World unit :=
  updateQueueItem (id item) (mkUpdates None None None (Some n) (Some 0)).

(** [new TextSplitter(CHUNK_SIZE).splitText(text)], the texts of the chunks. *)
Definition chunk_texts (text : string) : list string :=
  map TextSplitter.text
      (TextSplitter.splitText CHUNK_SIZE TextSplitter.default_chunkOverlap text).

Definition count (l : list string) : Z := Z.of_nat (List.length l).

Definition url_content (item : UploadItem) (u : option string) : Content :=
  mkContent url_type (title item) None u None.

Definition binaryExtensions : list string :=
  ["png"; "jpg"; "jpeg"; "gif"; "webp"; "svg"].

(** The extension of a file name: the lower-cased part after its
    last dot. *)
Definition extension (f : File) : string :=
  Js.toLowerCase (last (Js.split_char "." (name f)) "").

(** The test of the inner and outer [catch] blocks: the message
    names an error code of the queue's list. *)
Definition is_normal_rpc_error (e : exn) : bool :=
  match e with
  | Error message =>
      if Js.includes message "RPC returned error code:" then
        match Js.match_digits "RPC returned error code: " "" message with
        | Some errorCode => includes_code normalErrorCodes errorCode
        | None => false
        end
      else false
  | NonError _ => false
  end.

(** The text upload shared by the page, file and note cases when no
    chunking is needed. *)
Definition upload_whole (nb text title : string) : M World unit :=
  call (addTextSource (net env) nb text title) ;;;
  waitForTextSource nb title.

(** The [switch] of [processItem]. *)
Definition processByType (nb : string) (item : UploadItem) : M World unit :=
  match type item with
  | Page =>
      let from_content :=
        match truthy_string (content item) with
        | Some c =>
            if Js.nonempty (Js.trim c) then
              if CHUNK_SIZE <? Js.len c then
                let texts := chunk_texts c in
                start_chunks item (count texts) ;;;
                upload_page_chunks nb item texts 0 (count texts)
              else upload_whole nb c (title item)
            else throw (Error "Page URL or content not found")
        | None => throw (Error "Page URL or content not found")
        end in
      match truthy_string (url item) with
      | Some u =>
          if negb (Js.startsWith u "chrome://")
             && negb (Js.startsWith u "chrome-extension://")
          then call (addSource (net env) nb (url_content item (Some u)))
          else from_content
      | None => from_content
      end
  | Selection =>
      sel <- (fun w => (parseSelection env (List.length (sent (service w))), w)) ;;
      upload_whole nb (fst sel) (snd sel)
  | Youtube =>
      try_catch
        (call (addSource (net env) nb (url_content item (url item))))
        (fun e => if is_normal_rpc_error e then ret tt else throw e)
  | FileItem =>
      match file item with
      | None => throw (Error "File not found")
      | Some f =>
          if includes_code binaryExtensions (extension f)
          then call (addFileSource (net env) nb (name f))
          else
            processed <- (fun w =>
                (processFile env f (List.length (sent (service w))), w)) ;;
            match needsChunking processed, processed_chunks processed with
            | true, Some cs =>
                let texts := map fst cs in
                start_chunks item (count texts) ;;;
                upload_chunks nb item texts 0 (count texts) ;;;
                waitForTextSource nb
                  (partTitle (title item) (count texts - 1) (count texts))
            | _, _ => upload_whole nb (processed_content processed) (title item)
            end
      end
  | Note =>
      let noteContent := match content item with Some c => c | None => "" end in
      if CHUNK_SIZE <? Js.len noteContent then
        let texts := chunk_texts noteContent in
        start_chunks item (count texts) ;;;
        upload_chunks nb item texts 0 (count texts) ;;;
        waitForTextSource nb
          (partTitle (title item) (count texts - 1) (count texts))
      else upload_whole nb noteContent (title item)
  end.

Definition mark_done (item : UploadItem) : M World unit :=
  updateQueueItem (id item)
    (mkUpdates (Some done) (Some (inject_Z 100)) None None None).

Definition already_exists : string := "Source already exists in notebook".

(** [item.notebookId || useStore.getState().selectedNotebookId] *)
Definition target_notebook (item : UploadItem) (selected : option string)
  : option string :=
  override (truthy_string (notebookId item)) (truthy_string selected).

(** [processItem(item)] *)
Definition processItem (item : UploadItem) : M World unit :=
  selected <- gets selectedNotebookId ;;
  match target_notebook item selected with
  | None => throw (Error "No notebook selected")
  | Some nb =>
      isDuplicate <- checkDuplicate nb item ;;
      if isDuplicate : bool then
        updateQueueItem (id item)
          (mkUpdates (Some error) (Some (inject_Z 0)) (Some already_exists)
                     None None)
      else
        updateQueueItem (id item)
          (mkUpdates (Some processing) (Some (inject_Z 0)) None None None) ;;;
        try_catch
          (processByType nb item ;;; mark_done item)
          (fun e => if is_normal_rpc_error e then mark_done item else throw e)
  end.

(** [error instanceof Error ? error.message : 'Unknown error'] *)
Definition message_of (e : exn) : string :=
  match e with
  | Error message => message
  | NonError _ => "Unknown error"
  end.

(** The body of the [for] loop of [processQueue]. *)
Definition processGuarded (item : UploadItem) : M World unit :=
  try_catch
    (processItem item ;;; sleep QUEUE_DELAY_MS)
    (fun e =>
       updateQueueItem (id item)
         (mkUpdates (Some error) None (Some (message_of e)) None None)).

Fixpoint forEach (items : list UploadItem) : M World unit :=
  match items with
  | [] => ret tt
  | item :: rest => processGuarded item ;;; forEach rest
  end.

Definition is_pending (item : UploadItem) : bool :=
  match status item with pending => true | _ => false end.

Definition set_processing (b : bool) : M World unit :=
  modify (fun w => mkWorld (uploadQueue w) (selectedNotebookId w) b (service w)).

(** [processQueue()] *)
Definition processQueue : M World unit :=
  busy <- gets isProcessing ;;
  if busy : bool then ret tt
  else
    set_processing true ;;;
    queue <- gets uploadQueue ;;
    forEach (filter is_pending queue) ;;;
    set_processing false.

End WithEnv.

(** *** Vocabulary for the properties of the queue *)

(** A status in which an item stays. *)
Definition terminal (st : Status) : Prop := st = done \/ st = error.

(** Every entry of the queue with id [i] is in a terminal status. *)
Definition settled (i : string) (w : World) : Prop :=
  Forall (fun x => id x = i -> terminal (status x)) (uploadQueue w).

(** From [w] to [w'] only the entries with id [i] were changed, the
    ids and the order of the entries are as before, and the selected
    notebook and the busy flag are untouched. *)
Definition touches (i : string) (w w' : World) : Prop :=
  Forall2 (fun x x' => id x' = id x /\ (id x <> i -> x' = x))
          (uploadQueue w) (uploadQueue w') /\
  selectedNotebookId w' = selectedNotebookId w /\
  isProcessing w' = isProcessing w.

(** [m] changes only the entries with id [i]. *)
Definition frames {A} (i : string) (m : M World A) : Prop :=
  forall w, touches i w (snd (m w)).

(** When [m] returns normally, the entries with id [i] are settled. *)
Definition settles {A} (i : string) (m : M World A) : Prop :=
  forall w, (exists a, fst (m w) = Resolved a) -> settled i (snd (m w)).

(** The add-source requests of the chunk loop: part [i + 1] of [n]
    for each text, in order. *)
Fixpoint add_requests (nb title : string) (texts : list string) (i n : Z)
  : list Call :=
  match texts with
  | [] => []
  | t :: rest =>
      add_request nb (partTitle title i n) t
      :: add_requests nb title rest (i + 1) n
  end.

(** All the requests of the chunk loop of the file and note cases:
    each part but the last is followed by the look-up of
    [waitForTextSource]. *)
Fixpoint chunk_log (nb title : string) (texts : list string) (i n : Z)
  : list Call :=
  match texts with
  | [] => []
  | t :: rest =>
      (add_request nb (partTitle title i n) t
       :: (if i <? n - 1 then [notebook_request nb] else []))
      ++ chunk_log nb title rest (i + 1) n
  end.

(** The service has its tokens. *)
Definition signed_in (w : World) : Prop := tokens (service w) <> None.

(** From a world whose service has its tokens, [m] returns normally
    a value that satisfies [Q], the service still has its tokens, and
    the requests sent meanwhile are exactly [cs]. *)
Definition logs {A} (m : M World A) (cs : list Call) (Q : A -> Prop) : Prop :=
  forall w, signed_in w ->
    exists a w',
      m w = (Resolved a, w') /\ Q a /\ signed_in w' /\
      sent (service w') = (sent (service w) ++ cs)%list.

(** The add-source requests among the requests sent. *)
Definition add_source_requests (w : World) : list Call :=
  filter is_add_source (sent (service w)).

End UploadQueue.

(** ** Token refresh under interleaving (getTokens) *)

Module Refresh.

(** Where a caller of [getTokens] is suspended.  The code between
    two [await]s runs without interruption, so a caller is only ever
    observed at one of its [await]s or after it has finished. *)
Inductive Caller :=
| Sleeping        (* awaiting the 100 ms timer *)
| Fetching        (* awaiting fetchWithTimeout: the page fetch is in flight *)
| ReadingBody     (* awaiting response.text() *)
| Returned        (* resolved with tokens *)
| Failed.         (* rejected: Please login to NotebookLM first *)

Record Sys := mkSys {
  tokens : bool;               (* this.tokens is not null *)
  isRefreshingTokens : bool;
  callers : list Caller
}.

Definition init : Sys := mkSys false false [].

(** The code from the entry of [getTokens] to its first [await]. *)
Definition enter (s : Sys) : Sys :=
  if isRefreshingTokens s
  then mkSys (tokens s) (isRefreshingTokens s) (callers s ++ [Sleeping])
  else mkSys (tokens s) true (callers s ++ [Fetching]).

Fixpoint set_nth (l : list Caller) (i : nat) (c : Caller) : list Caller :=
  match l, i with
  | [], _ => []
  | _ :: rest, O => c :: rest
  | x :: rest, S i' => x :: set_nth rest i' c
  end.

(** What the environment delivers to a suspended caller. *)
Inductive Event :=
| Call
    (* somebody calls getTokens *)
| TimerFires (i : nat)
    (* the 100 ms of caller i are over *)
| FetchSettles (i : nat) (reachable : bool)
    (* the fetch of caller i resolves with an ok or redirect response,
       or else it fails, is not ok, or is aborted by the timeout *)
| BodyArrives (i : nat) (has_tokens : bool).
    (* response.text() of caller i settles; both tokens are in it or not *)

(** One uninterrupted run of code, from an event to the next [await]. *)
Definition step (s : Sys) (e : Event) : option Sys :=
  match e with
  | Call => Some (enter s)
  | TimerFires i =>
      match nth_error (callers s) i with
      | Some Sleeping =>
          if tokens s
          then Some (mkSys (tokens s) (isRefreshingTokens s)
                           (set_nth (callers s) i Returned))
          else Some (mkSys (tokens s) true (set_nth (callers s) i Fetching))
      | _ => None
      end
  | FetchSettles i reachable =>
      match nth_error (callers s) i with
      | Some Fetching =>
          if reachable
          then Some (mkSys (tokens s) (isRefreshingTokens s)
                           (set_nth (callers s) i ReadingBody))
          else Some (mkSys (tokens s) false (set_nth (callers s) i Failed))
      | _ => None
      end
  | BodyArrives i has_tokens =>
      match nth_error (callers s) i with
      | Some ReadingBody =>
          if has_tokens
          then Some (mkSys true false (set_nth (callers s) i Returned))
          else Some (mkSys (tokens s) false (set_nth (callers s) i Failed))
      | _ => None
      end
  end.

Fixpoint run (s : Sys) (events : list Event) : option Sys :=
  match events with
  | [] => Some s
  | e :: rest => match step s e with
                 | Some s' => run s' rest
                 | None => None
                 end
  end.

Definition reachable (s : Sys) : Prop := exists events, run init events = Some s.

Definition is_fetching (c : Caller) : bool :=
  match c with Fetching => true | _ => false end.

(** The number of page fetches in flight. *)
Definition in_flight (s : Sys) : nat :=
  List.length (filter is_fetching (callers s)).

End Refresh.

(** ** DOM extractor: tab acquisition and script injection *)

Module DOMExtractor.

Local Open Scope js_scope.

Record Tab := mkTab { tab_id : option Z; tab_url : option string }.

(** The browser: the outcome of the [n]-th extension API call.
    [executeScript] resolves with the results of the injected
    function, one per frame.  [load_time] is the time after which a
    tab reports that it is complete, if it ever does. *)
Record Browser := mkBrowser {
  tabs_query : nat -> outcome (list Tab);
  tabs_create : nat -> string -> outcome Tab;
  tabs_update : nat -> Z -> string -> outcome unit;
  tabs_remove : nat -> Z -> outcome unit;
  load_time : nat -> option Z;
  executeScript : nat -> Z -> string -> list json -> outcome (list jsval)
}.

(** The extractor's state: the notebook it targets, the number of API
    calls made so far, and the clock in milliseconds. *)
Record State := mkState {
  _notebookId : option string;
  api_calls : nat;
  now : Z
}.

Definition tick (s : State) : State :=
  mkState (_notebookId s) (S (api_calls s)) (now s).

Definition advance (ms : Z) (s : State) : State :=
  mkState (_notebookId s) (api_calls s) (now s + Z.max 0 ms).

Section WithBrowser.

Variable browser : Browser.

(** [await chrome.tabs.query({ url: ... })] *)
Definition query : M State (list Tab) :=
  fun s => (tabs_query browser (api_calls s), tick s).

(** [await chrome.tabs.create({ url, active: false, pinned: true })] *)
Definition create (url : string) : M State Tab :=
  fun s => (tabs_create browser (api_calls s) url, tick s).

(** [await chrome.tabs.update(tabId, { url })] *)
Definition update (tabId : Z) (url : string) : M State unit :=
  fun s => (tabs_update browser (api_calls s) tabId url, tick s).

(** [await chrome.tabs.remove(tabId)] *)
Definition remove (tabId : Z) : M State unit :=
  fun s => (tabs_remove browser (api_calls s) tabId, tick s).

(** [await chrome.scripting.executeScript({ target, func, args })];
    the injected function is named by [script]. *)
Definition inject (tabId : Z) (script : string) (args : list json)
  : M State (list jsval) :=
  fun s => (executeScript browser (api_calls s) tabId script args, tick s).

(** [await new Promise((r) => setTimeout(r, ms))] *)
Definition sleep (ms : Z) : M State unit := modify (advance ms).

(** The promise that waits for a tab to load: it resolves [settle]
    ms after the tab is complete, or after [limit] ms; it never
    rejects. *)
Definition wait_for_load (limit settle : Z) : M State unit :=
  fun s =>
    let duration :=
      match load_time browser (api_calls s) with
      | Some t => if (0 <=? t) && (t <? limit) then t + settle else limit
      | None => limit
      end in
    (Resolved tt, advance duration s).

Definition url_includes (t : Tab) (part : string) : bool :=
  match tab_url t with
  | Some u => Js.includes u part
  | None => false
  end.

(** [findNotebookLMTab()] *)
Definition findNotebookLMTab : M State (option Tab) :=
  tabs <- query ;;
  match tabs with
  | [] => ret None
  | first :: _ =>
      nb <- gets _notebookId ;;
      match nb with
      | Some i =>
          if Js.nonempty i then
            match find (fun t => url_includes t ("/notebook/" ++ i)%string) tabs with
            | Some matchingTab => ret (Some matchingTab)
            | None => ret (Some first)
            end
          else ret (Some first)
      | None => ret (Some first)
      end
  end.

(** [tab?.id] when it is truthy. *)
Definition usable_id (tab : option Tab) : option Z :=
  match tab with
  | Some t => match tab_id t with
              | Some i => if i =? 0 then None else Some i
              | None => None
              end
  | None => None
  end.

(** [results?.[0]?.result] *)
Definition first_result (results : list jsval) : jsval :=
  match results with
  | r :: _ => r
  | [] => None
  end.

(** [v || d] *)
Definition or_else (v : jsval) (d : json) : json :=
  match v with
  | Some j => if truthy v then j else d
  | None => d
  end.

(** [v ?? d] *)
Definition nullish_or (v : jsval) (d : json) : json :=
  match v with
  | Some JNull | None => d
  | Some j => j
  end.

(** A value when it is truthy. *)
Definition if_truthy (v : jsval) : option json :=
  match v with
  | Some j => if truthy v then Some j else None
  | None => None
  end.

(** [extractChatHistory()] *)
Definition extractChatHistory : M State json :=
  tab <- findNotebookLMTab ;;
  match usable_id tab with
  | None => ret (JArr [])
  | Some tabId =>
      try_catch
        (_ <- inject tabId "activate chat tab" [] ;;
         sleep 1500 ;;;
         results <- inject tabId "collect chat messages" [] ;;
         ret (or_else (first_result results) (JArr [])))
        (fun _ => ret (JArr []))
  end.

(** The shape shared by the extractors that inject one function. *)
Definition extract_with (script : string) (args : list json)
           (empty : json) (finish : jsval -> M State json) : M State json :=
  tab <- findNotebookLMTab ;;
  match usable_id tab with
  | None => ret empty
  | Some tabId =>
      try_catch
        (results <- inject tabId script args ;; finish (first_result results))
        (fun _ => ret empty)
  end.

(** [extractArtifactsList()] *)
Definition extractArtifactsList : M State json :=
  extract_with "list artifacts" [] (JArr [])
    (fun r => ret (or_else r (JArr []))).

(** [extractSlideImages()] *)
Definition extractSlideImages : M State json :=
  extract_with "slide images" [] (JArr [])
    (fun r => ret (or_else r (JArr []))).

(** [extractInfographicImage()] *)
Definition extractInfographicImage : M State json :=
  extract_with "infographic image" [] JNull
    (fun r => ret (or_else r JNull)).

(** [extractArtifactsWithIds()] *)
Definition extractArtifactsWithIds : M State json :=
  extract_with "artifacts with ids" [] (JArr [])
    (fun r => ret (or_else r (JArr []))).

(** [openArtifactByIndex(index)] *)
Definition openArtifactByIndex (index : Z) : M State json :=
  extract_with "click artifact by index" [int index] (JBool false)
    (fun r => if truthy r
              then sleep 3000 ;;; ret (JBool true)
              else ret (JBool false)).

(** [fetchImageInNotebookTabContext(imageUrl)]: here the tab
    look-up is inside the [try] block as well. *)
Definition fetchImageInNotebookTabContext (imageUrl : string) : M State json :=
  try_catch
    (tab <- findNotebookLMTab ;;
     match usable_id tab with
     | None => ret JNull
     | Some tabId =>
         results <- inject tabId "fetch image in page" [JStr imageUrl] ;;
         ret (nullish_or (first_result results) JNull)
     end)
    (fun _ => ret JNull).

(** [openArtifactById(artifactId)]: the tabs are counted before
    the [try] block is entered. *)
Definition openArtifactById (artifactId : string) : M State json :=
  tab <- findNotebookLMTab ;;
  match usable_id tab with
  | None => ret (JBool false)
  | Some tabId =>
      tabsBefore <- query ;;
      try_catch
        (results <- inject tabId "click artifact by id" [JStr artifactId] ;;
         if truthy (first_result results) then
           sleep 2000 ;;;
           tabsAfter <- query ;;
           (if (List.length tabsBefore <? List.length tabsAfter)%nat
            then sleep 3000 else ret tt) ;;;
           ret (JBool true)
         else ret (JBool false))
        (fun _ => ret (JBool false))
  end.

(** A polling loop: while less than [limit] ms have passed since
    [startTime], make an attempt, and sleep [interval] ms when it
    gave nothing.  [fuel] bounds the number of iterations; one unit
    per millisecond of [limit] is enough (lemma [poll_fuel]). *)
Fixpoint poll (fuel : nat) (startTime limit interval : Z)
         (attempt : M State (option json)) : M State (option json) :=
  t <- gets now ;;
  if t - startTime <? limit then
    match fuel with
    | O => ret None
    | S fuel' =>
        r <- attempt ;;
        match r with
        | Some data => ret (Some data)
        | None =>
            sleep interval ;;;
            poll fuel' startTime limit interval attempt
        end
    end
  else ret None.

(** One script injection inside its own [try] block: the first
    result when it is truthy. *)
Definition try_script (tabId : Z) (script : string) (args : list json)
  : M State (option json) :=
  try_catch
    (results <- inject tabId script args ;;
     ret (if_truthy (first_result results)))
    (fun _ => ret None).

(** The attempt of the first strategy: the script runs in all
    frames and the first result that is not null is taken, if it is
    truthy. *)
Definition try_all_frames (tabId : Z) : M State (option json) :=
  try_catch
    (results <- inject tabId "parse app data in all frames" [] ;;
     ret (match find (fun r => match r with
                               | Some JNull | None => false
                               | Some _ => true
                               end) results with
          | Some r => if_truthy r
          | None => None
          end))
    (fun _ => ret None).

(** [openState?.clicked] *)
Definition clicked (openState : jsval) : bool :=
  match openState with
  | Some (JObj fields) => truthy (lookup "clicked" fields)
  | _ => false
  end.

(** The second strategy: find the source of the viewer's iframe,
    navigate the tab to it and poll its main frame. *)
Definition try_iframe (newTabId : Z) : M State (option json) :=
  try_catch
    (iframeResults <- inject newTabId "find iframe src" [] ;;
     match first_result iframeResults with
     | Some (JStr iframeSrc) =>
         if Js.nonempty iframeSrc then
           update newTabId iframeSrc ;;;
           wait_for_load 12000 2000 ;;;
           poll2Start <- gets now ;;
           poll (Z.to_nat 8000) poll2Start 8000 1000
                (try_script newTabId "parse app data" [])
         else ret None
     | other =>
         if truthy other
         then throw (Error "iframeSrc.substring is not a function")
         else ret None
     end)
    (fun _ => ret None).

(** The [try] block of [extractDataFromBackgroundTab] once the
    background tab exists. *)
Definition extract_from_tab (newTabId : Z) (artifactId : string) (maxWaitMs : Z)
  : M State json :=
  wait_for_load maxWaitMs 3000 ;;;
  try_catch
    (openResults <- inject newTabId "open artifact viewer" [JStr artifactId] ;;
     if clicked (first_result openResults) then sleep 2500 else ret tt)
    (fun _ => ret tt) ;;;
  pollStart <- gets now ;;
  found <- poll (Z.to_nat 15000) pollStart 15000 1500 (try_all_frames newTabId) ;;
  match found with
  | Some data => ret data
  | None =>
      found <- try_iframe newTabId ;;
      match found with
      | Some data => ret data
      | None =>
          found <- try_script newTabId "read table, report or infographic" [] ;;
          match found with
          | Some domData => ret domData
          | None => ret JNull
          end
      end
  end.

(** [extractDataFromBackgroundTab(notebookId, artifactId, maxWaitMs)]:
    the tab that was created is removed on every path. *)
Definition extractDataFromBackgroundTab (notebookId artifactId : string)
           (maxWaitMs : Z) : M State json :=
  created <- try_catch
               (newTab <- create ("https://notebooklm.google.com/notebook/"
                                  ++ notebookId)%string ;;
                ret (usable_id (Some newTab)))
               (fun _ => ret None) ;;
  match created with
  | None => ret JNull
  | Some newTabId =>
      result <- try_catch (extract_from_tab newTabId artifactId maxWaitMs)
                          (fun _ => ret JNull) ;;
      try_catch (remove newTabId) (fun _ => ret tt) ;;;
      ret result
  end.

(** The [for] loop of [extractArtifactAppData] over the tabs. *)
Fixpoint scan_tabs (tabs : list Tab) : M State (option json) :=
  match tabs with
  | [] => ret None
  | tab :: rest =>
      match usable_id (Some tab) with
      | None => scan_tabs rest
      | Some tabId =>
          r <- try_script tabId "read app data" [] ;;
          match r with
          | Some data => ret (Some data)
          | None => scan_tabs rest
          end
      end
  end.

(** [extractArtifactAppData(maxWaitMs)]: the tab query is outside
    the [try] block. *)
Definition extractArtifactAppData (maxWaitMs : Z) : M State json :=
  startTime <- gets now ;;
  found <- poll (Z.to_nat maxWaitMs) startTime maxWaitMs 1000
             (allTabs <- query ;; scan_tabs allTabs) ;;
  match found with
  | Some data => ret data
  | None => ret JNull
  end.

(** The extraction functions that look for an open NotebookLM tab,
    with the value each declares for the case that nothing could be
    extracted. *)
Definition query_extractors (index : Z) (artifactId imageUrl : string)
           (maxWaitMs : Z) : list (string * M State json * json) :=
  [ ("extractChatHistory", extractChatHistory, JArr []);
    ("extractArtifactsList", extractArtifactsList, JArr []);
    ("extractSlideImages", extractSlideImages, JArr []);
    ("extractInfographicImage", extractInfographicImage, JNull);
    ("extractArtifactsWithIds", extractArtifactsWithIds, JArr []);
    ("openArtifactByIndex", openArtifactByIndex index, JBool false);
    ("openArtifactById", openArtifactById artifactId, JBool false);
    ("fetchImageInNotebookTabContext",
     fetchImageInNotebookTabContext imageUrl, JNull);
    ("extractArtifactAppData", extractArtifactAppData maxWaitMs, JNull) ].

(** All the extraction functions: those above and the one that
    works in a background tab of its own. *)
Definition extractors (index : Z) (notebookId artifactId imageUrl : string)
           (maxWaitMs : Z) : list (string * M State json * json) :=
  (query_extractors index artifactId imageUrl maxWaitMs
   ++ [ ("extractDataFromBackgroundTab",
         extractDataFromBackgroundTab notebookId artifactId maxWaitMs, JNull) ])%list.

(** No NotebookLM tab exists: every query for the tabs gives none. *)
Definition no_notebook_tab : Prop :=
  forall n, tabs_query browser n = Resolved [].

(** No background tab can be had: the creation rejects or gives a
    tab without an id. *)
Definition no_background_tab : Prop :=
  forall n url,
    (exists e, tabs_create browser n url = Rejected e) \/
    (exists t, tabs_create browser n url = Resolved t /\ usable_id (Some t) = None).

(** Tab acquisition fails for every function. *)
Definition no_tab : Prop := no_notebook_tab /\ no_background_tab.

(** Script injection rejects (the tab queries themselves resolve). *)
Definition injection_rejects : Prop :=
  (forall n, exists tabs, tabs_query browser n = Resolved tabs) /\
  (forall n tabId script args,
      exists e, executeScript browser n tabId script args = Rejected e).

End WithBrowser.

(** *** Vocabulary for the properties of the extractor *)

(** [m] returns [a] from every state. *)
Definition returns {A} (m : M State A) (a : A) : Prop :=
  forall s, fst (m s) = Resolved a.

(** [m] returns some value from every state. *)
Definition resolves {A} (m : M State A) : Prop :=
  forall s, exists a, fst (m s) = Resolved a.

(** [m] throws from every state. *)
Definition rejects {A} (m : M State A) : Prop :=
  forall s, exists e, fst (m s) = Rejected e.

(** [m] leaves the clock as it is. *)
Definition steady {A} (m : M State A) : Prop :=
  forall s, now (snd (m s)) = now s.

End DOMExtractor.

(** ** Export formats: Anki *)

Module ExportFormats.

Record Flashcard := mkFlashcard {
  id : string;
  front : string;
  back : string;
  tags : option (list string)
}.

Definition tab_string : string := String Js.tab EmptyString.
Definition newline_string : string := String Js.newline EmptyString.

(** The template string of one row. *)
Definition ankiRow (fc : Flashcard) : string :=
  (Js.replace_char Js.tab Js.space (front fc) ++ tab_string
   ++ Js.replace_char Js.tab Js.space (back fc) ++ tab_string
   ++ Js.join " " (match tags fc with Some t => t | None => [] end))%string.

(** [flashcardsToAnki(flashcards)] *)
Definition flashcardsToAnki (flashcards : list Flashcard) : string :=
  Js.join newline_string (map ankiRow flashcards).

(** The lines of a text, as [text.split] at the line feeds gives them. *)
Definition lines (text : string) : list string := Js.split_char Js.newline text.

Fixpoint count_char (c : ascii) (s : string) : nat :=
  match s with
  | EmptyString => O
  | String x s' => ((if Ascii.eqb x c then 1 else 0) + count_char c s')%nat
  end.

Fixpoint has_char (c : ascii) (s : string) : bool :=
  match s with
  | EmptyString => false
  | String x s' => Ascii.eqb x c || has_char c s'
  end.

(** A card is clean when its fields cannot break the row: no line
    feed in front, back and tags, and no tab in the tags. *)
Definition clean (fc : Flashcard) : Prop :=
  has_char Js.newline (front fc) = false /\
  has_char Js.newline (back fc) = false /\
  Forall (fun t => has_char Js.newline t = false /\ has_char Js.tab t = false)
         (match tags fc with Some t => t | None => [] end).

End ExportFormats.

(** ** Concrete inputs used in examples *)

Module Fixtures.

Import Service.

Definition nl : string := String Js.newline EmptyString.

Definition quoted (s : string) : string := (quote ++ s ++ quote)%string.

(** The raw response to an add-source call as the server sends it
    when it has nothing to return but an inline error marker with
    [code] (the shape recorded in TEXT_SOURCE_ISSUE.md). *)
Definition marker_response (code : string) : string :=
  (")]}'" ++ nl ++ nl ++ "104" ++ nl
   ++ "[[" ++ quoted "wrb.fr" ++ "," ++ quoted "izAoDd"
   ++ ",null,null,null,[3]," ++ quoted "generic" ++ "]]" ++ nl
   ++ "25" ++ nl
   ++ "[" ++ error_marker ++ ",null,null," ++ code ++ "]]")%string.

(** A network that answers every request with status 200 and [body]. *)
Definition net_replying (body : string) : Network :=
  fun _ _ => Resolved (mkResponse true 200 false (Resolved body)).

(** A service whose tokens are cached. *)
Definition logged_in : State :=
  mkState (Some (mkTokens "bl-token" "at-token" 0)) false [].

Definition text_content (title text : string) : Content :=
  mkContent text_type title (Some text) None None.

(** A flashcard as the service builds it from a quiz question: the
    back is the answer options joined by line feeds. *)
Definition quiz_card : ExportFormats.Flashcard :=
  ExportFormats.mkFlashcard "artifact-q-0" "Capital of France?"
    ("v Paris" ++ nl ++ "x Rome")%string None.

Definition quiz_card_lines : list string :=
  [ ("Capital of France?" ++ ExportFormats.tab_string ++ "v Paris")%string;
    ("x Rome" ++ ExportFormats.tab_string)%string ].

(** A browser in which no NotebookLM tab is open and no tab can be
    created; scripts, if they were injected, would find nothing. *)
Definition browser_without_tabs : DOMExtractor.Browser :=
  DOMExtractor.mkBrowser
    (fun _ => Resolved [])
    (fun _ _ => Rejected (Error "No current window"))
    (fun _ _ _ => Rejected (Error "No tab with id"))
    (fun _ _ => Rejected (Error "No tab with id"))
    (fun _ => None)
    (fun _ _ _ _ => Resolved []).

(** A browser in which no NotebookLM tab is open, while tabs can be
    created: the new tab gets the id 7 and the URL asked for. *)
Definition browser_creating_tabs : DOMExtractor.Browser :=
  DOMExtractor.mkBrowser
    (fun _ => Resolved [])
    (fun _ url => Resolved (DOMExtractor.mkTab (Some 7) (Some url)))
    (fun _ _ _ => Resolved tt)
    (fun _ _ => Resolved tt)
    (fun _ => Some 500)
    (fun _ _ _ _ => Resolved [Some (JArr [JStr "found"])]).

Definition fresh_extractor : DOMExtractor.State :=
  DOMExtractor.mkState None 0 0.

(** A platform on which nothing parses as JSON. *)
Definition plain_platform : NotebookParser.Platform :=
  {| NotebookParser.JSON_parse := fun _ => None;
     NotebookParser.titleFromUrl := fun u => u |}.

(** Collaborators of the queue when the server answers every request
    with an empty body, nothing is selected and no file can be read. *)
Definition quiet_env : UploadQueue.Env :=
  UploadQueue.mkEnv (net_replying "") plain_platform
    (fun _ => Rejected (Error "No selection"))
    (fun _ _ => Rejected (Error "Unsupported file"))
    (fun u => u).

(** A page item that has neither a URL nor content. *)
Definition blank_page : UploadQueue.UploadItem :=
  UploadQueue.mkItem "item-1" UploadQueue.Page "Blank" None None None
    UploadQueue.pending None None None None None.

Definition note_item (i title text : string) : UploadQueue.UploadItem :=
  UploadQueue.mkItem i UploadQueue.Note title (Some text) None None
    UploadQueue.pending None None None None None.

Definition queue_world (queue : list UploadQueue.UploadItem) (nb : string)
  : UploadQueue.World :=
  UploadQueue.mkWorld queue (Some nb) false logged_in.

Definition greeting : UploadQueue.UploadItem :=
  note_item "item-2" "Hello" "Hello, world".

(** An idle queue with a page that cannot be uploaded, then a note. *)
Definition page_then_note : UploadQueue.World :=
  queue_world [blank_page; greeting] "nb-1".

(** The line of a notebook response that carries the data; its
    third element names the inner JSON text. *)
Definition listing_line : string :=
  ("[[" ++ quoted "wrb.fr" ++ "," ++ quoted "rLM1Ne" ++ ","
   ++ quoted "listing" ++ "]]")%string.

(** The inner data of a notebook with one source titled [title]. *)
Definition listing (title : string) : json :=
  JArr [JArr [JStr "Notebook";
              JArr [JArr [JArr [JStr "source-1"]; JStr title]];
              JStr "nb-1"]].

(** A platform that parses the two JSON texts of that response. *)
Definition listing_platform (title : string) : NotebookParser.Platform :=
  {| NotebookParser.JSON_parse := fun v =>
       match v with
       | Some (JStr s) =>
           if String.eqb s listing_line
           then Some (JArr [JArr [JStr "wrb.fr"; JStr "rLM1Ne"; JStr "listing"]])
           else if String.eqb s "listing" then Some (listing title)
           else None
       | _ => None
       end;
     NotebookParser.titleFromUrl := fun u => u |}.

(** Collaborators of the queue when the notebook has one source
    titled [title]. *)
Definition listing_env (title : string) : UploadQueue.Env :=
  UploadQueue.mkEnv (net_replying listing_line) (listing_platform title)
    (fun _ => Rejected (Error "No selection"))
    (fun _ _ => Rejected (Error "Unsupported file"))
    (fun u => u).

(** A network on which the first request fails and every later one
    is answered with the listing of the notebook. *)
Definition listing_after_failure : Network :=
  fun n _ =>
    match n with
    | O => Rejected (Error "Failed to fetch")
    | S _ => Resolved (mkResponse true 200 false (Resolved listing_line))
    end.

(** Collaborators of the queue when the notebook has one source
    titled [title] and the first request fails. *)
Definition flaky_listing_env (title : string) : UploadQueue.Env :=
  UploadQueue.mkEnv listing_after_failure (listing_platform title)
    (fun _ => Rejected (Error "No selection"))
    (fun _ _ => Rejected (Error "Unsupported file"))
    (fun u => u).

Definition report : UploadQueue.UploadItem :=
  note_item "item-3" "Report" "Quarterly figures".

Definition untitled : UploadQueue.UploadItem :=
  note_item "item-4" "" "Quarterly figures".

(** A text of [n] characters. *)
Definition text_of_length (n : N) : string :=
  N.iter n (String "a"%char) EmptyString.

(** A note of 500,000 characters. *)
Definition long_note : UploadQueue.UploadItem :=
  note_item "item-5" "Book" (text_of_length 500000).

End Fixtures.

(** ** Notebook API service: notebooks, deletion, status, text blocks *)

Module ServiceOps.

Import NotebookParser Service.
Local Open Scope js_scope.

(** A notebook as [createNotebook] returns it ([createdAt] and
    [updatedAt] are always [undefined] there). *)
Record Notebook := mkNotebook { id : string; name : string }.

(** The text that the UUID pattern of [createNotebook] matches at the
    head of [s]: 8-4-4-4-12 hexadecimal digits in either case. *)
Definition uuid_at_head (s : string) : option string :=
  match and_then (and_then (and_then (and_then (hex_group 8 s)
                   (hex_group 4)) (hex_group 4)) (hex_group 4)) (hex_run 12) with
  | Some _ => Some (Js.substring s 0 36)
  | None => None
  end.

(** [response.match(/uuid pattern/)]: the leftmost match. *)
Fixpoint find_uuid (s : string) : option string :=
  match uuid_at_head s with
  | Some u => Some u
  | None => match s with
            | EmptyString => None
            | String _ s' => find_uuid s'
            end
  end.

(** [slice(a, b)] of an array, for [0 <= a <= b]. *)
Definition slice {A} (l : list A) (a b : Z) : list A :=
  firstn (Z.to_nat (b - a)) (skipn (Z.to_nat a) l).

Definition BATCH_SIZE : Z := 20.

Record DeleteResult := mkDeleteResult { success : bool; deletedCount : Z }.

(** The text that [getNotebookStatus] looks for: [null], a comma, a
    backslash, a double quote and the notebook id. *)
Definition pending_marker (notebookId : string) : string :=
  ("null,\" ++ quote ++ notebookId)%string.

(** One source of [addSources]. *)
Definition url_source (u : string) : json :=
  if Js.includes u "youtube.com" || Js.includes u "youtu.be"
  then JArr (nulls 7 ++ [JArr [JStr u]])
  else JArr [JNull; JNull; JArr [JStr u]].

(** The loop body of [extractAllText] on one item, given the result
    for nested arrays. *)
Definition text_of_item (nested : list json -> list string) (item : json)
  : list string :=
  match item with
  | JStr s => if Js.nonempty s then [s] else []
  | JArr items => nested items
  | _ => []
  end.

(** [extractAllText(data, maxDepth)] for a whole number [maxDepth],
    counted down as the recursion does. *)
Fixpoint extractAllText_from (maxDepth : nat) (data : list json) : list string :=
  match maxDepth with
  | O => []
  | S deeper => flat_map (text_of_item (extractAllText_from deeper)) data
  end.

Definition extractAllText (data : list json) (maxDepth : Z) : list string :=
  extractAllText_from (Z.to_nat maxDepth) data.

Section WithNetwork.

Variable net : Network.

(** [await new Promise((resolve) => setTimeout(resolve, ms))] *)
Definition sleep (ms : Z) : M State unit := ret tt.

(** [createNotebook(name)] *)
Definition createNotebook (name : string) : M State Notebook :=
  response <- rpc net "CCqFvf" (JArr [JStr name]) "/" ;;
  match find_uuid response with
  | None => throw (Error "Failed to create notebook")
  | Some uuid => ret (mkNotebook uuid name)
  end.

(** [addSources(notebookId, urls)] *)
Definition addSources (notebookId : string) (urls : list string) : M State unit :=
  _ <- rpc net "izAoDd" (JArr [JArr (map url_source urls); JStr notebookId])
         (notebook_path notebookId) ;;
  ret tt.

(** The request of [getNotebookStatus]. *)
Definition status_request (notebookId : string) : Call :=
  FetchRpc "rLM1Ne"
    (JArr [JStr notebookId; JNull; JArr [int 2]; JNull; int 0])
    (notebook_path notebookId).

(** [getNotebookStatus(notebookId)] *)
Definition getNotebookStatus (notebookId : string) : M State bool :=
  try_catch
    (response <- rpc net "rLM1Ne"
                   (JArr [JStr notebookId; JNull; JArr [int 2]; JNull; int 0])
                   (notebook_path notebookId) ;;
     ret (negb (Js.includes response (pending_marker notebookId))))
    (fun _ => ret false).

(** The [for] loop of [waitForSources]; [fuel] bounds the number of
    iterations and [None] means the bound was reached with the loop
    still running. *)
Fixpoint waitLoop (fuel : nat) (notebookId : string) (i maxAttempts : Z)
  : M State (option bool) :=
  if i <? maxAttempts then
    match fuel with
    | O => ret None
    | S fuel' =>
        ready <- getNotebookStatus notebookId ;;
        if ready : bool then ret (Some true)
        else sleep 1000 ;;; waitLoop fuel' notebookId (i + 1) maxAttempts
    end
  else ret (Some false).

(** [waitForSources(notebookId, maxAttempts)]: one unit of fuel per
    attempt is enough. *)
Definition waitForSources (notebookId : string) (maxAttempts : Z)
  : M State (option bool) :=
  waitLoop (Z.to_nat maxAttempts) notebookId 0 maxAttempts.

(** The request that deletes [batch]. *)
Definition delete_request (notebookId : string) (batch : list string) : Call :=
  FetchRpc "tGMBJ" (JArr [JArr (map (fun i => JArr [JStr i]) batch)])
           (notebook_path notebookId).

(** [deleteSource(notebookId, sourceId)] *)
Definition deleteSource (notebookId sourceId : string) : M State unit :=
  _ <- rpc net "tGMBJ" (JArr [JArr [JArr [JStr sourceId]]])
         (notebook_path notebookId) ;;
  ret tt.

(** The [for] loop of [deleteSources]. *)
Fixpoint deleteLoop (fuel : nat) (notebookId : string) (sourceIds : list string)
         (i deleted : Z) : M State (option Z) :=
  if i <? Z.of_nat (List.length sourceIds) then
    match fuel with
    | O => ret None
    | S fuel' =>
        let batch := slice sourceIds i (i + BATCH_SIZE) in
        _ <- rpc net "tGMBJ" (JArr [JArr (map (fun i => JArr [JStr i]) batch)])
               (notebook_path notebookId) ;;
        deleteLoop fuel' notebookId sourceIds (i + BATCH_SIZE)
                   (deleted + Z.of_nat (List.length batch))
    end
  else ret (Some deleted).

(** [deleteSources(notebookId, sourceIds)]: one unit of fuel per
    source id is enough. *)
Definition deleteSources (notebookId : string) (sourceIds : list string)
  : M State (option DeleteResult) :=
  match sourceIds with
  | [] => ret (Some (mkDeleteResult true 0))
  | _ =>
      count <- deleteLoop (List.length sourceIds) notebookId sourceIds 0 0 ;;
      ret (option_map (mkDeleteResult true) count)
  end.

End WithNetwork.

(** *** Vocabulary for the properties of these operations *)

(** The strings of a value, in document order, empty ones left out. *)
Fixpoint strings_of (v : json) : list string :=
  match v with
  | JStr s => if Js.nonempty s then [s] else []
  | JArr items =>
      (fix all (l : list json) : list string :=
         match l with
         | [] => []
         | x :: rest => (strings_of x ++ all rest)%list
         end) items
  | _ => []
  end.

(** The number of array levels around the most deeply nested item:
    0 for a value that is not an array. *)
Fixpoint nesting (v : json) : nat :=
  match v with
  | JArr items =>
      S ((fix deepest (l : list json) : nat :=
            match l with
            | [] => O
            | x :: rest => Nat.max (nesting x) (deepest rest)
            end) items)
  | _ => O
  end.

(** [f] reads exactly [n] characters: when it succeeds on a text it
    has consumed the first [n] characters, and it succeeds on these
    characters whatever follows them. *)
Definition reads (n : nat) (f : string -> option string) : Prop :=
  forall s r, f s = Some r ->
    exists h, s = (h ++ r)%string /\ String.length h = n /\
              forall r', f (h ++ r') = Some r'.

(** A request for the RPC [rpcId]. *)
Definition is_rpc (rpcId : string) (c : Call) : bool :=
  match c with
  | FetchRpc i _ _ => String.eqb i rpcId
  | FetchPage _ => false
  end.

(** A network on which every request succeeds with a readable body. *)
Definition accepting (net : Network) : Prop :=
  forall n c, exists response text,
    net n c = Resolved response /\ ok response = true /\
    body response = Resolved text.

End ServiceOps.

(** ** File processor (services/file-processor) *)

Module FileProcessor.

Import UploadQueue.

(** What [processFile] resolves with; [content] is [None] when it is
    [undefined]. *)
Record Result := mkResult {
  content : option string;
  needsChunking : bool;
  chunks : option (list (string * Z))
}.

(** The readers the processor calls: [FileReader.readAsText],
    [FileReader.readAsDataURL], and the text items of the pages of a
    PDF as pdf.js gives them ([item.str] of every item of every page);
    a reader is consulted at a moment [n]. *)
Record Readers := mkReaders {
  readAsText : File -> nat -> outcome string;
  readAsDataURL : File -> nat -> outcome string;
  pdf_pages : File -> nat -> outcome (list (list string))
}.

(** [file.name.split('.').pop()?.toLowerCase()] *)
Definition extension (f : File) : string :=
  Js.toLowerCase (last (Js.split_char "." (name f)) "").

(** The result for a text: chunked when it is longer than
    [CHUNK_SIZE]. *)
Definition text_result (text : string) : Result :=
  if CHUNK_SIZE <? Js.len text then
    mkResult (Some text) true
      (Some (map (fun chunk => (TextSplitter.text chunk, TextSplitter.index chunk))
                 (TextSplitter.splitText CHUNK_SIZE
                    TextSplitter.default_chunkOverlap text)))
  else mkResult (Some text) false None.

(** The text of a PDF: the items of each page joined by spaces, each
    page followed by a paragraph break. *)
Fixpoint pdf_text (pages : list (list string)) : string :=
  match pages with
  | [] => ""
  | items :: rest => (Js.join " " items ++ Js.paragraph_break ++ pdf_text rest)%string
  end.

(** [readFileAsBase64]: the part of the data URL after its first comma. *)
Definition base64_of (dataUrl : string) : option string :=
  nth_error (Js.split_char "," dataUrl) 1.

(** [processFile(file)] *)
Definition processFile (io : Readers) (f : File) (n : nat) : outcome Result :=
  let ext := extension f in
  if String.eqb ext "txt" || String.eqb ext "md" || String.eqb ext "markdown" then
    match readAsText io f n with
    | Resolved text => Resolved (text_result text)
    | Rejected e => Rejected e
    end
  else if String.eqb ext "pdf" then
    match pdf_pages io f n with
    | Resolved pages => Resolved (text_result (pdf_text pages))
    | Rejected e =>
        Rejected (Error ("Failed to extract text from PDF: " ++ message_of e))
    end
  else if String.eqb ext "docx" then
    match readAsDataURL io f n with
    | Resolved dataUrl => Resolved (mkResult (base64_of dataUrl) false None)
    | Rejected e => Rejected e
    end
  else Rejected (Error ("Unsupported file type: " ++ ext)).

(** The file types that [processFile] reads. *)
Definition supported : list string := ["txt"; "md"; "markdown"; "pdf"; "docx"].

End FileProcessor.

(** ** The store's queue actions and the entry point of the queue *)

Module Store.

Import UploadQueue.
Local Open Scope js_scope.

Definition set_queue (w : World) (queue : list UploadItem) : World :=
  mkWorld queue (selectedNotebookId w) (isProcessing w) (service w).

(** [addToQueue(item)] *)
Definition addToQueue (item : UploadItem) : M World unit :=
  modify (fun w => set_queue w (uploadQueue w ++ [item])).

(** [removeFromQueue(id)] *)
Definition removeFromQueue (i : string) : M World unit :=
  modify (fun w => set_queue w
            (filter (fun item => negb (String.eqb (id item) i)) (uploadQueue w))).

(** [clearQueue()] *)
Definition clearQueue : M World unit :=
  modify (fun w => set_queue w []).

(** [UploadQueue.addAndProcess(item)], together with the run of
    [processQueue] that it starts and does not await, when nothing
    else happens in between. *)
Definition addAndProcess (env : Env) (item : UploadItem) : M World unit :=
  addToQueue item ;;;
  busy <- gets isProcessing ;;
  if busy : bool then ret tt else processQueue env.

End Store.

(** ** File names (lib/download) and CSV generators (services/export-formats) *)

Module Download.








Definition default_maxLength : Z := 100.

(** *** Vocabulary for the properties of file names *)





End Download.

Module Csv.

Definition comma : string := ",".
Definition newline_string : string := String Js.newline EmptyString.

(** The replacement in [escapeCSV]: every double quote is doubled. *)
Fixpoint double_quotes (s : string) : string :=
  match s with
  | EmptyString => EmptyString
  | String c s' =>
      if Ascii.eqb c Js.dquote
      then String Js.dquote (String Js.dquote (double_quotes s'))
      else String c (double_quotes s')
  end.

(** [escapeCSV(value)] *)
Definition escapeCSV (value : string) : string :=
  if Js.includes value comma || Js.includes value Service.quote
     || Js.includes value newline_string
  then (Service.quote ++ double_quotes value ++ Service.quote)%string
  else value.

(** [cells.map(escapeCSV).join(',')] *)
Definition csv_line (cells : list string) : string :=
  Js.join comma (map escapeCSV cells).

Section WithBOM.

(** The byte order mark that the generators put first. *)
Variable BOM : string.

(** [tablesToCSV(table)] *)
Definition tablesToCSV (headers : list string) (rows : list (list string)) : string :=
  (BOM ++ Js.join newline_string (csv_line headers :: map csv_line rows))%string.

(** [flashcardsToCSV(flashcards)] *)
Definition flashcardsToCSV (flashcards : list ExportFormats.Flashcard) : string :=
  (BOM ++ Js.join newline_string
     ("Front,Back,Tags"
      :: map (fun fc =>
                escapeCSV (ExportFormats.front fc) ++ comma
                ++ escapeCSV (ExportFormats.back fc) ++ comma
                ++ escapeCSV (Js.join ";"
                     (match ExportFormats.tags fc with
                      | Some t => t
                      | None => []
                      end)))
             flashcards))%string.

End WithBOM.

(** *** Vocabulary: reading a field back *)

(** The rest of a quoted field, after its opening quote: a doubled
    quote stands for a quote, a single one closes the field. *)
Fixpoint read_quoted (s : string) : string * string :=
  match s with
  | EmptyString => (EmptyString, EmptyString)
  | String c s' =>
      if Ascii.eqb c Js.dquote then
        match s' with
        | String d s'' =>
            if Ascii.eqb d Js.dquote
            then let (v, r) := read_quoted s'' in (String Js.dquote v, r)
            else (EmptyString, s')
        | EmptyString => (EmptyString, EmptyString)
        end
      else let (v, r) := read_quoted s' in (String c v, r)
  end.

(** A field without quotes: up to the next comma or line feed. *)
Fixpoint read_plain (s : string) : string * string :=
  match s with
  | EmptyString => (EmptyString, EmptyString)
  | String c s' =>
      if Ascii.eqb c "," || Ascii.eqb c Js.newline then (EmptyString, s)
      else let (v, r) := read_plain s' in (String c v, r)
  end.

(** The first field of a CSV text and what follows it. *)
Definition read_field (s : string) : string * string :=
  match s with
  | String c s' => if Ascii.eqb c Js.dquote then read_quoted s' else read_plain s
  | EmptyString => (EmptyString, EmptyString)
  end.

(** What may follow a field: nothing, a comma or a line feed. *)
Definition ends_field (r : string) : Prop :=
  r = EmptyString \/ Js.startsWith r comma = true
  \/ Js.startsWith r newline_string = true.

End Csv.

(** ** Concrete inputs for the further operations *)

Module MoreFixtures.

Import Service.

(** A page of NotebookLM as a signed-in user gets it: both tokens
    stand in it, each as a quoted key, a colon and a quoted value. *)
Definition token_page : string :=
  ("<script>{" ++ Fixtures.quoted "cfb2h" ++ ":" ++ Fixtures.quoted "boq_labs_1"
   ++ "," ++ Fixtures.quoted "SNlM0e" ++ ":" ++ Fixtures.quoted "AFsession"
   ++ "}</script>")%string.

(** A service that has not fetched its tokens yet. *)
Definition signed_out : State := mkState None false [].

(** The ids [source-1] .. [source-45]. *)
Definition source_ids : list string :=
  map (fun n => ("source-" ++ Js.decimal (Z.of_nat n))%string) (seq 1 45).

(** The response to the creation of a notebook. *)
Definition created_response : string :=
  ("[[" ++ Fixtures.quoted "wrb.fr" ++ "," ++ Fixtures.quoted "CCqFvf" ++ ",["
   ++ Fixtures.quoted "1b9d6bcd-BBFD-4b2d-9b5d-ab8dfbbd4bed" ++ "]]]")%string.

(** Readers for files whose text is [text]; nothing else can be read. *)
Definition text_readers (text : string) : FileProcessor.Readers :=
  FileProcessor.mkReaders
    (fun _ _ => Resolved text)
    (fun _ _ => Rejected (Error "Not a document"))
    (fun _ _ => Rejected (Error "Invalid PDF structure")).

Definition notes_file : UploadQueue.File := UploadQueue.mkFile "Meeting.Notes.TXT".

Definition archive_file : UploadQueue.File := UploadQueue.mkFile "backup.zip".

(** A file item for [archive_file]. *)
Definition archive_item : UploadQueue.UploadItem :=
  UploadQueue.mkItem "item-6" UploadQueue.FileItem "backup.zip" None None
    (Some archive_file) UploadQueue.pending None None None None None.

(** A queue with one item and no notebook selected. *)
Definition no_notebook_world : UploadQueue.World :=
  UploadQueue.mkWorld [Fixtures.blank_page] None false Fixtures.logged_in.

(** The inner data of a notebook with one source that has the URL [u]. *)
Definition url_listing (u : string) : json :=
  JArr [JArr [JStr "Notebook";
              JArr [JArr [JArr [JStr "source-1"]; JStr "Article"; JStr u]];
              JStr "nb-1"]].

Definition url_listing_platform (u : string) : NotebookParser.Platform :=
  {| NotebookParser.JSON_parse := fun v =>
       match v with
       | Some (JStr s) =>
           if String.eqb s Fixtures.listing_line
           then Some (JArr [JArr [JStr "wrb.fr"; JStr "rLM1Ne"; JStr "listing"]])
           else if String.eqb s "listing" then Some (url_listing u)
           else None
       | _ => None
       end;
     NotebookParser.titleFromUrl := fun u => u |}.

(** Collaborators of the queue when the notebook has one source with
    the URL [u]; URLs are compared as they are. *)
Definition url_listing_env (u : string) : UploadQueue.Env :=
  UploadQueue.mkEnv (Fixtures.net_replying Fixtures.listing_line)
    (url_listing_platform u)
    (fun _ => Rejected (Error "No selection"))
    (fun _ _ => Rejected (Error "Unsupported file"))
    (fun u => u).

(** A page item for the URL [u]. *)
Definition article (u : string) : UploadQueue.UploadItem :=
  UploadQueue.mkItem "item-7" UploadQueue.Page "Another title" None (Some u) None
    UploadQueue.pending None None None None None.


(** A flashcard whose fields have neither line feeds nor tabs. *)
Definition plain_card : ExportFormats.Flashcard :=
  ExportFormats.mkFlashcard "artifact-f-0" "Capital of France?" "Paris"
    (Some ["geography"; "europe"]).

(** Three tabs of NotebookLM; the second has the notebook [nb-1] open. *)
Definition home_tab : DOMExtractor.Tab :=
  DOMExtractor.mkTab (Some 11) (Some "https://notebooklm.google.com/").

Definition notebook_tab : DOMExtractor.Tab :=
  DOMExtractor.mkTab (Some 12) (Some "https://notebooklm.google.com/notebook/nb-1").

Definition other_tab : DOMExtractor.Tab :=
  DOMExtractor.mkTab (Some 13) (Some "https://notebooklm.google.com/notebook/nb-2").

(** A browser in which the tabs [tabs] of NotebookLM are open;
    nothing else succeeds. *)
Definition browser_with_tabs (tabs : list DOMExtractor.Tab) : DOMExtractor.Browser :=
  DOMExtractor.mkBrowser
    (fun _ => Resolved tabs)
    (fun _ _ => Rejected (Error "No current window"))
    (fun _ _ _ => Rejected (Error "No tab with id"))
    (fun _ _ => Rejected (Error "No tab with id"))
    (fun _ => None)
    (fun _ _ _ _ => Resolved []).

(** An extractor that targets the notebook [nb-1]. *)
Definition extractor_for_nb1 : DOMExtractor.State :=
  DOMExtractor.mkState (Some "nb-1") 0 0.

End MoreFixtures.

(** ** Token refresh: what holds in every state *)

Module RefreshInvariants.

Import Refresh.

(** A caller whose refresh is in progress: its fetch is in flight or
    it is reading the body. *)
Definition is_refreshing (c : Caller) : bool :=
  match c with
  | Fetching | ReadingBody => true
  | _ => false
  end.

(** A caller has returned only when the tokens are cached, and the
    flag is raised only while some caller is refreshing. *)
Definition token_invariant (s : Sys) : Prop :=
  (In Returned (callers s) -> tokens s = true) /\
  (isRefreshingTokens s = true ->
   exists c, In c (callers s) /\ is_refreshing c = true).

End RefreshInvariants.

(* ================================================================== *)
(** * Properties *)
(* ================================================================== *)

Import TextSplitter.

(** ** Facts about the string primitives *)

Section StringFacts.

Lemma raw_substring_length (s : string) : forall n m : nat,
  (n + m <= String.length s)%nat ->
  String.length (String.substring n m s) = m.
Proof.
  induction s as [|c s IH]; intros n m H; simpl in H.
  - assert (n = 0%nat) by lia. assert (m = 0%nat) by lia. subst. reflexivity.
  - destruct n as [|n]; simpl.
    + destruct m as [|m]; simpl; [reflexivity|].
      f_equal. apply IH. simpl. lia.
    + apply IH. lia.
Qed.

Lemma raw_substring_full (s : string) :
  String.substring 0 (String.length s) s = s.
Proof. induction s as [|c s IH]; simpl; [reflexivity | now rewrite IH]. Qed.

Lemma raw_substring_zero (s : string) (n : nat) :
  String.substring n 0 s = "".
Proof.
  revert n; induction s as [|c s IH]; intros [|n]; simpl; auto.
Qed.

Lemma raw_substring_app (s : string) : forall n m k : nat,
  (String.substring n m s ++ String.substring (n + m) k s)%string
  = String.substring n (m + k) s.
Proof.
  induction s as [|c s IH]; intros n m k.
  - destruct n, m, k; reflexivity.
  - destruct n as [|n]; simpl.
    + destruct m as [|m]; simpl.
      * reflexivity.
      * f_equal. apply (IH 0%nat m k).
    + apply IH.
Qed.

Lemma raw_substring_substring (s : string) : forall n m i j : nat,
  (i + j <= m)%nat ->
  String.substring i j (String.substring n m s) = String.substring (n + i) j s.
Proof.
  induction s as [|c s IH]; intros n m i j H.
  - destruct n, m, i, j; reflexivity.
  - destruct n as [|n]; simpl.
    + destruct m as [|m]; simpl.
      * assert (i = 0%nat) by lia. assert (j = 0%nat) by lia. subst. reflexivity.
      * destruct i as [|i]; simpl.
        -- destruct j as [|j]; [reflexivity|].
           f_equal. apply (IH 0%nat m 0%nat j). lia.
        -- apply (IH 0%nat m i j). lia.
    + apply IH. exact H.
Qed.

Lemma len_nonneg (s : string) : 0 <= Js.len s.
Proof. unfold Js.len. lia. Qed.

Lemma substring_in_range (s : string) (a b : Z) :
  0 <= a -> a <= b -> b <= Js.len s ->
  Js.substring s a b =
  String.substring (Z.to_nat a) (Z.to_nat (b - a)) s.
Proof.
  intros Ha Hab Hb. unfold Js.substring, Js.clamp.
  replace (Z.max 0 (Z.min a (Js.len s))) with a by lia.
  replace (Z.max 0 (Z.min b (Js.len s))) with b by lia.
  replace (Z.min a b) with a by lia.
  replace (Z.max a b) with b by lia.
  reflexivity.
Qed.

Lemma substring_len (s : string) (a b : Z) :
  0 <= a -> a <= b -> b <= Js.len s ->
  Js.len (Js.substring s a b) = b - a.
Proof.
  intros Ha Hab Hb. rewrite substring_in_range by assumption.
  unfold Js.len in *. rewrite raw_substring_length; lia.
Qed.

Lemma substring_whole (s : string) : Js.substring s 0 (Js.len s) = s.
Proof.
  rewrite substring_in_range by (pose proof (len_nonneg s); lia).
  unfold Js.len. rewrite Z.sub_0_r, Nat2Z.id. apply raw_substring_full.
Qed.

Lemma substring_empty (s : string) (a : Z) :
  0 <= a -> a <= Js.len s -> Js.substring s a a = "".
Proof.
  intros. rewrite substring_in_range by lia.
  rewrite Z.sub_diag. apply raw_substring_zero.
Qed.

Lemma substring_glue (s : string) (a b c : Z) :
  0 <= a -> a <= b -> b <= c -> c <= Js.len s ->
  (Js.substring s a b ++ Js.substring s b c)%string = Js.substring s a c.
Proof.
  intros. rewrite !substring_in_range by lia.
  replace (Z.to_nat b) with (Z.to_nat a + Z.to_nat (b - a))%nat by lia.
  rewrite raw_substring_app. f_equal. lia.
Qed.

Lemma substring_of_substring (s : string) (a b i j : Z) :
  0 <= a -> a <= b -> b <= Js.len s ->
  0 <= i -> i <= j -> j <= b - a ->
  Js.substring (Js.substring s a b) i j = Js.substring s (a + i) (a + j).
Proof.
  intros. rewrite (substring_in_range (Js.substring s a b))
    by (rewrite ?substring_len; lia).
  rewrite !substring_in_range by lia.
  rewrite raw_substring_substring by lia.
  f_equal; lia.
Qed.

Lemma substring_past_end (w : string) (i : Z) :
  Js.len w <= i -> Js.substring w i (Js.len w) = "".
Proof.
  intros H. pose proof (len_nonneg w). unfold Js.substring, Js.clamp.
  replace (Z.max 0 (Z.min i (Js.len w))) with (Js.len w) by lia.
  replace (Z.max 0 (Z.min (Js.len w) (Js.len w))) with (Js.len w) by lia.
  rewrite Z.min_id, Z.max_id, Z.sub_diag. apply raw_substring_zero.
Qed.

Lemma charAt_substring (s : string) (a b i : Z) :
  0 <= a -> a <= b -> b <= Js.len s ->
  0 <= i -> i < b - a ->
  Js.charAt (Js.substring s a b) i = Js.charAt s (a + i).
Proof.
  intros. rewrite substring_in_range by lia. unfold Js.charAt.
  destruct (i <? 0) eqn:E1; [lia|].
  destruct (a + i <? 0) eqn:E2; [lia|].
  rewrite substring_correct1 by lia. f_equal. lia.
Qed.

Lemma skip_length (k : nat) : forall s,
  String.length (Js.skip k s) = (String.length s - k)%nat.
Proof.
  induction k as [|k IH]; intros [|c s]; simpl; auto.
Qed.

Lemma get_skip (k : nat) : forall s j,
  String.get j (Js.skip k s) = String.get (k + j) s.
Proof.
  induction k as [|k IH]; intros [|c s] j; simpl; auto.
Qed.

Lemma get_past_end (s : string) : forall n,
  (String.length s <= n)%nat -> String.get n s = None.
Proof.
  induction s as [|d s IH]; intros n Hge; simpl; [reflexivity|].
  destruct n as [|n]; simpl in Hge; [lia|]. apply IH. lia.
Qed.

Lemma prefix_get (pat : string) : forall s j,
  String.prefix pat s = true ->
  (j < String.length pat)%nat ->
  String.get j s = String.get j pat.
Proof.
  induction pat as [|c pat IH]; intros s j Hp Hj; simpl in Hj; [lia|].
  destruct s as [|d s]; simpl in Hp; [discriminate|].
  destruct (ascii_dec c d) as [->|]; [|discriminate].
  destruct j as [|j]; simpl; [reflexivity|].
  apply IH; [assumption | lia].
Qed.

Lemma prefix_length (pat : string) : forall s,
  String.prefix pat s = true ->
  (String.length pat <= String.length s)%nat.
Proof.
  induction pat as [|c pat IH]; intros s Hp; simpl; [lia|].
  destruct s as [|d s]; simpl in Hp; [discriminate|].
  destruct (ascii_dec c d); [|discriminate].
  simpl. apply IH in Hp. lia.
Qed.

Lemma prefix_app_l (p1 p2 : string) : forall s,
  String.prefix (p1 ++ p2) s = true -> String.prefix p1 s = true.
Proof.
  induction p1 as [|c p1 IH]; intros s H; [destruct s; reflexivity|].
  destruct s as [|d s]; cbn in *; [discriminate|].
  destruct (ascii_dec c d); [|discriminate]. now apply IH.
Qed.

(** What the left-to-right scan returns: either nothing matched and
    the accumulator is unchanged, or the result is the last matching
    position. *)
Lemma lastIndexOf_from_spec (pat : string) : forall s i acc,
  (Js.lastIndexOf_from pat s i acc = acc /\
   forall k, (k <= String.length s)%nat ->
             String.prefix pat (Js.skip k s) = false)
  \/
  (exists k, (k <= String.length s)%nat /\
     Js.lastIndexOf_from pat s i acc = i + Z.of_nat k /\
     String.prefix pat (Js.skip k s) = true /\
     forall j, (k < j <= String.length s)%nat ->
               String.prefix pat (Js.skip j s) = false).
Proof.
  induction s as [|c s IH]; intros i acc.
  - cbn [Js.lastIndexOf_from].
    destruct (String.prefix pat "") eqn:E.
    + right. exists 0%nat. cbn. repeat split; auto; try lia.
    + left. split; [reflexivity|]. intros k Hk. simpl in Hk.
      assert (k = 0%nat) by lia. subst. exact E.
  - cbn [Js.lastIndexOf_from].
    destruct (IH (i + 1) (if String.prefix pat (String c s) then i else acc))
      as [[Hr Hnone] | [k [Hk [Hr [Hm Hlast]]]]].
    + destruct (String.prefix pat (String c s)) eqn:E.
      * right. exists 0%nat. split; [lia|]. split; [rewrite Hr; simpl; lia|].
        split; [exact E|].
        intros j Hj. destruct j as [|j]; [lia|]. simpl. apply Hnone.
        simpl in Hj. lia.
      * left. split; [exact Hr|].
        intros k Hk. destruct k as [|k]; simpl; [exact E|].
        apply Hnone. simpl in Hk. lia.
    + right. exists (S k). split; [simpl; lia|]. split; [rewrite Hr; lia|].
      split; [exact Hm|].
      intros j Hj. destruct j as [|j]; [lia|]. simpl. apply Hlast.
      simpl in Hj. lia.
Qed.

(** [lastIndexOf] is [-1] exactly when the pattern occurs nowhere;
    otherwise it is a position where the pattern starts. *)
Lemma lastIndexOf_spec (s pat : string) :
  (Js.lastIndexOf s pat = -1 /\
   forall k, (k <= String.length s)%nat ->
             String.prefix pat (Js.skip k s) = false)
  \/
  (0 <= Js.lastIndexOf s pat /\
   Js.lastIndexOf s pat + Js.len pat <= Js.len s /\
   forall j, 0 <= j < Js.len pat ->
     Js.charAt s (Js.lastIndexOf s pat + j) = Js.charAt pat j).
Proof.
  unfold Js.lastIndexOf.
  destruct (lastIndexOf_from_spec pat s 0 (-1))
    as [[Hr Hnone] | [k [Hk [Hr [Hm _]]]]].
  - left. split; assumption.
  - right. rewrite Hr. split; [lia|].
    pose proof (prefix_length _ _ Hm) as Hl. rewrite skip_length in Hl.
    unfold Js.len. split; [lia|].
    intros j Hj. unfold Js.charAt.
    destruct (0 + Z.of_nat k + j <? 0) eqn:E1; [lia|].
    destruct (j <? 0) eqn:E2; [lia|].
    rewrite <- (prefix_get pat (Js.skip k s) (Z.to_nat j) Hm) by lia.
    rewrite get_skip. f_equal. lia.
Qed.

(** A string that has the character [c] somewhere has a last position
    of the one-character pattern [c]. *)
Lemma lastIndexOf_char_found (s : string) (c : ascii) (i : Z) :
  Js.charAt s i = Some c ->
  Js.lastIndexOf s (String c "") <> -1.
Proof.
  intros Hc.
  destruct (lastIndexOf_spec s (String c "")) as [[_ Hnone] | [H0 _]]; [|lia].
  exfalso. unfold Js.charAt in Hc.
  destruct (i <? 0) eqn:E; [discriminate|].
  assert (Hlt : (Z.to_nat i < String.length s)%nat).
  { destruct (Nat.lt_ge_cases (Z.to_nat i) (String.length s)) as [|Hge]; auto.
    rewrite (get_past_end s _ Hge) in Hc. discriminate. }
  specialize (Hnone (Z.to_nat i) (Nat.lt_le_incl _ _ Hlt)).
  assert (Hg : String.get 0 (Js.skip (Z.to_nat i) s) = Some c).
  { rewrite get_skip. rewrite Nat.add_0_r. exact Hc. }
  destruct (Js.skip (Z.to_nat i) s) as [|d r]; simpl in Hg; [discriminate|].
  injection Hg as ->. simpl in Hnone.
  destruct (ascii_dec c c); [|congruence].
  destruct r; discriminate.
Qed.

(** A match of the digit pattern implies that the text includes any
    leading part of the literal prefix. *)
Lemma match_digits_includes (p1 p2 post : string) : forall s d,
  Js.match_digits (p1 ++ p2) post s = Some d -> Js.includes s p1 = true.
Proof.
  induction s as [|c s IH]; intros d H; cbn [Js.match_digits Js.includes] in *.
  - destruct (String.prefix (p1 ++ p2) "") eqn:E.
    + rewrite (prefix_app_l _ _ _ E). reflexivity.
    + discriminate.
  - destruct (String.prefix (p1 ++ p2) (String c s)) eqn:E.
    + rewrite (prefix_app_l _ _ _ E). reflexivity.
    + apply IH in H. rewrite H. apply orb_true_r.
Qed.

End StringFacts.

(** ** Facts about the text splitter *)

Section SplitterFacts.

(** The four outcomes of the break-point search in a window [w]. *)
Lemma breakPoint_cases (w : string) :
  (breakPoint w = -1 /\ forall i, Js.charAt w i <> Some Js.space)
  \/ (0 <= breakPoint w /\
      breakPoint w = Js.lastIndexOf w Js.paragraph_break /\
      breakPoint w + 2 <= Js.len w /\
      Js.charAt w (breakPoint w + 1) = Some Js.newline)
  \/ (0 <= breakPoint w /\
      Js.lastIndexOf w Js.paragraph_break = -1 /\
      breakPoint w + 2 <= Js.len w /\
      Js.charAt w (breakPoint w + 1) = Some Js.space)
  \/ (0 <= breakPoint w /\
      Js.lastIndexOf w Js.paragraph_break = -1 /\
      breakPoint w + 1 <= Js.len w /\
      Js.charAt w (breakPoint w) = Some Js.space).
Proof.
  unfold breakPoint.
  assert (L1 : Js.len " " = 1) by reflexivity.
  assert (L2 : Js.len ". " = 2) by reflexivity.
  assert (L3 : Js.len Js.paragraph_break = 2) by reflexivity.
  destruct (lastIndexOf_spec w Js.paragraph_break) as [[Hp _] | [Hp0 [Hpl Hpc]]].
  - rewrite Hp. cbn [Z.eqb Pos.eqb].
    destruct (lastIndexOf_spec w ". ") as [[Hs _] | [Hs0 [Hsl Hsc]]].
    + rewrite Hs. cbn [Z.eqb Pos.eqb].
      destruct (lastIndexOf_spec w " ") as [[Hw Hnone] | [Hw0 [Hwl Hwc]]].
      * left. split; [exact Hw|].
        intros i Hi. apply (lastIndexOf_char_found w Js.space i Hi). exact Hw.
      * right; right; right.
        split; [exact Hw0|]. split; [reflexivity|]. split; [lia|].
        specialize (Hwc 0). rewrite Z.add_0_r in Hwc. apply Hwc. lia.
    + destruct (Js.lastIndexOf w ". " =? -1) eqn:E; [lia|].
      right; right; left.
      split; [exact Hs0|]. split; [reflexivity|]. split; [lia|].
      apply (Hsc 1). lia.
  - destruct (Js.lastIndexOf w Js.paragraph_break =? -1) eqn:E; [lia|].
    right; left.
    split; [exact Hp0|]. split; [reflexivity|]. split; [lia|].
    apply (Hpc 1). lia.
Qed.

Section OneIteration.

Variables (T : string) (sz start : Z).
Hypothesis Hsz : 1 <= sz.
Hypothesis Hstart : 0 <= start < Js.len T.

Let searchStart := Z.max start (start + sz - 200).
Let searchEnd := Z.min (Js.len T) (start + sz + 200).
Let searchText := Js.substring T searchStart searchEnd.

Lemma window_len :
  start + sz < Js.len T -> Js.len searchText = searchEnd - searchStart.
Proof.
  intros. unfold searchText. apply substring_len;
    unfold searchStart, searchEnd; lia.
Qed.

Lemma window_char (j : Z) :
  start + sz < Js.len T -> 0 <= j < Js.len searchText ->
  Js.charAt searchText j = Js.charAt T (searchStart + j).
Proof.
  intros H Hj. rewrite window_len in Hj by assumption.
  unfold searchText. apply charAt_substring;
    unfold searchStart, searchEnd in *; lia.
Qed.

(** The cut of a non-final iteration lies in the window, strictly
    after its left edge; the final iteration cuts at the end. *)
Lemma chunkEnd_window :
  start + sz < Js.len T ->
  searchStart < chunkEnd T sz start <= searchEnd.
Proof.
  intros H. pose proof (window_len H) as Hl.
  unfold chunkEnd. rewrite (proj2 (Z.ltb_lt _ _) H).
  fold searchStart searchEnd searchText.
  destruct (breakPoint_cases searchText)
    as [[Hb _] | [[H0 [He [Hle _]]] | [[H0 [He [Hle _]]] | [H0 [He [Hle _]]]]]].
  - rewrite Hb. cbn [Z.eqb negb Pos.eqb].
    unfold searchStart, searchEnd. lia.
  - destruct (breakPoint searchText =? -1) eqn:E; [lia|]. cbn [negb].
    rewrite <- He, Z.eqb_refl. lia.
  - destruct (breakPoint searchText =? -1) eqn:E; [lia|]. cbn [negb].
    rewrite He.
    destruct (breakPoint searchText =? -1) eqn:E'; [lia|]. lia.
  - destruct (breakPoint searchText =? -1) eqn:E; [lia|]. cbn [negb].
    rewrite He.
    destruct (breakPoint searchText =? -1) eqn:E'; [lia|]. lia.
Qed.

Lemma chunkEnd_last :
  Js.len T <= start + sz -> chunkEnd T sz start = Js.len T.
Proof.
  intros H. unfold chunkEnd.
  destruct (start + sz <? Js.len T) eqn:E; [lia | reflexivity].
Qed.

Lemma chunkEnd_bounds :
  start < chunkEnd T sz start <= Js.len T /\
  chunkEnd T sz start <= start + sz + 200.
Proof.
  destruct (Z.lt_ge_cases (start + sz) (Js.len T)) as [H|H].
  - pose proof (chunkEnd_window H). unfold searchStart, searchEnd in *. lia.
  - rewrite (chunkEnd_last H). lia.
Qed.

End OneIteration.

(** One unfolding of the loop, read off a successful run. *)
Lemma splitLoop_step (fuel : nat) (T : string) (sz ov start idx : Z)
      (cs : list Chunk) :
  splitLoop fuel T sz ov start idx = Some cs ->
  start < Js.len T ->
  exists fuel' cs',
    fuel = S fuel' /\
    cs = mkChunk (Js.substring T start (chunkEnd T sz start)) idx start
                 (chunkEnd T sz start) :: cs' /\
    splitLoop fuel' T sz ov (nextStart start (chunkEnd T sz start) ov) (idx + 1)
    = Some cs'.
Proof.
  intros H Hlt. destruct fuel as [|fuel']; cbn [splitLoop] in H;
    rewrite (proj2 (Z.ltb_lt _ _) Hlt) in H; [discriminate|].
  destruct (splitLoop fuel' T sz ov _ _) as [cs'|] eqn:E; [|discriminate].
  injection H as <-. exists fuel', cs'. repeat split. exact E.
Qed.

Lemma splitLoop_done (fuel : nat) (T : string) (sz ov start idx : Z) :
  Js.len T <= start -> splitLoop fuel T sz ov start idx = Some [].
Proof.
  intros H. destruct fuel; cbn [splitLoop];
    destruct (start <? Js.len T) eqn:E; try reflexivity; lia.
Qed.

Lemma nextStart_progress (start e ov : Z) : start + 1 <= nextStart start e ov.
Proof. unfold nextStart. lia. Qed.

(** As many iterations as there are characters left always suffice. *)
Lemma splitLoop_enough_fuel (T : string) (sz ov : Z) :
  forall (fuel : nat) (start idx : Z),
    Js.len T - start <= Z.of_nat fuel ->
    exists cs, splitLoop fuel T sz ov start idx = Some cs.
Proof.
  induction fuel as [|fuel IH]; intros start idx Hf.
  - exists []. apply splitLoop_done. lia.
  - cbn [splitLoop]. destruct (start <? Js.len T) eqn:E; [|eauto].
    destruct (IH (nextStart start (chunkEnd T sz start) ov) (idx + 1)) as [cs Hcs].
    + pose proof (nextStart_progress start (chunkEnd T sz start) ov). lia.
    + rewrite Hcs. eexists. reflexivity.
Qed.

(** More fuel does not change a result. *)
Lemma splitLoop_more_fuel (T : string) (sz ov : Z) :
  forall (fuel fuel' : nat) (start idx : Z) (cs : list Chunk),
    splitLoop fuel T sz ov start idx = Some cs ->
    (fuel <= fuel')%nat ->
    splitLoop fuel' T sz ov start idx = Some cs.
Proof.
  induction fuel as [|fuel IH]; intros fuel' start idx cs H Hle.
  - cbn [splitLoop] in H. destruct (start <? Js.len T) eqn:E; [discriminate|].
    injection H as <-. apply splitLoop_done. lia.
  - destruct fuel' as [|fuel']; [lia|]. cbn [splitLoop] in *.
    destruct (start <? Js.len T); [|exact H].
    destruct (splitLoop fuel T sz ov _ _) as [cs'|] eqn:E; [|discriminate].
    rewrite (IH fuel' _ _ cs' E) by lia. exact H.
Qed.

Lemma splitLoop_chunks (T : string) (sz ov : Z) :
  forall (fuel : nat) (start idx : Z) (cs : list Chunk),
    splitLoop fuel T sz ov start idx = Some cs ->
    0 <= start ->
    Forall (chunk_of T sz) cs.
Proof.
  induction fuel as [|fuel IH]; intros start idx cs H H0.
  - cbn [splitLoop] in H. destruct (start <? Js.len T); [discriminate|].
    injection H as <-. constructor.
  - destruct (Z.lt_ge_cases start (Js.len T)) as [Hlt|Hge].
    + destruct (splitLoop_step _ _ _ _ _ _ _ H Hlt) as [f' [cs' [Hf [-> Hrest]]]].
      injection Hf as <-. constructor.
      * unfold chunk_of; cbn. repeat split; lia.
      * apply (IH _ _ _ Hrest).
        pose proof (nextStart_progress start (chunkEnd T sz start) ov). lia.
    + rewrite splitLoop_done in H by lia. injection H as <-. constructor.
Qed.

(** Chunk indices count up from the index the loop is entered with. *)
Lemma splitLoop_indices (T : string) (sz ov : Z) :
  forall (fuel : nat) (start idx : Z) (cs : list Chunk),
    splitLoop fuel T sz ov start idx = Some cs ->
    forall (i : nat) (c : Chunk),
      nth_error cs i = Some c -> index c = idx + Z.of_nat i.
Proof.
  induction fuel as [|fuel IH]; intros start idx cs H i c Hi.
  - cbn [splitLoop] in H. destruct (start <? Js.len T); [discriminate|].
    injection H as <-. destruct i; discriminate.
  - cbn [splitLoop] in H. destruct (start <? Js.len T).
    + destruct (splitLoop fuel T sz ov _ _) as [cs'|] eqn:E; [|discriminate].
      injection H as <-. destruct i as [|i]; cbn in Hi.
      * injection Hi as <-. cbn. lia.
      * rewrite (IH _ _ _ E i c Hi). lia.
    + injection H as <-. destruct i; discriminate.
Qed.

Section Coverage.

Variables (T : string) (sz ov : Z).
Hypothesis Hsz : 1 <= sz.
Hypothesis Hov : 0 <= ov.

(** Invariant of the loop: the next chunk starts at or before the
    position [pos] up to which the text has been reproduced. *)
Lemma splitLoop_reassemble :
  forall (fuel : nat) (start idx pos : Z) (cs : list Chunk),
    splitLoop fuel T sz ov start idx = Some cs ->
    0 <= start -> start <= pos -> pos <= Js.len T ->
    reassemble pos cs = Js.substring T pos (Js.len T).
Proof.
  induction fuel as [|fuel IH]; intros start idx pos cs H H0 Hsp Hpl.
  - cbn [splitLoop] in H. destruct (start <? Js.len T) eqn:E; [discriminate|].
    injection H as <-. cbn. symmetry.
    apply Z.ltb_ge in E. replace (Js.len T) with pos by lia.
    apply substring_empty; lia.
  - destruct (Z.lt_ge_cases start (Js.len T)) as [Hlt|Hge].
    + destruct (splitLoop_step _ _ _ _ _ _ _ H Hlt) as [f' [cs' [Hf [-> Hrest]]]].
      injection Hf as <-.
      pose proof (chunkEnd_bounds T sz start Hsz (conj H0 Hlt)) as [[Hb1 Hb2] _].
      set (e := chunkEnd T sz start) in *.
      cbn [reassemble TextSplitter.text TextSplitter.start TextSplitter.end_].
      assert (Hnext : 0 <= nextStart start e ov <= Z.max pos e)
        by (unfold nextStart; lia).
      rewrite (IH _ _ (Z.max pos e) _ Hrest) by lia.
      destruct (Z.le_gt_cases pos e) as [Hpe|Hpe].
      * rewrite substring_of_substring by lia.
        replace (start + (pos - start)) with pos by lia.
        replace (start + (e - start)) with e by lia.
        replace (Z.max pos e) with e by lia.
        apply substring_glue; lia.
      * replace (Z.max pos e) with pos by lia.
        replace (e - start) with (Js.len (Js.substring T start e))
          by (rewrite substring_len; lia).
        rewrite substring_past_end by (rewrite substring_len; lia).
        reflexivity.
    + rewrite splitLoop_done in H by lia. injection H as <-.
      cbn. symmetry. replace (Js.len T) with pos by lia.
      apply substring_empty; lia.
Qed.

Lemma splitLoop_covers :
  forall (fuel : nat) (start idx pos : Z) (cs : list Chunk),
    splitLoop fuel T sz ov start idx = Some cs ->
    0 <= start -> start <= pos ->
    forall p, pos <= p < Js.len T ->
      exists c, In c cs /\ TextSplitter.start c <= p < end_ c.
Proof.
  induction fuel as [|fuel IH]; intros start idx pos cs H H0 Hsp p Hp.
  - cbn [splitLoop] in H. destruct (start <? Js.len T) eqn:E; [discriminate|].
    lia.
  - destruct (Z.lt_ge_cases start (Js.len T)) as [Hlt|Hge]; [|lia].
    destruct (splitLoop_step _ _ _ _ _ _ _ H Hlt) as [f' [cs' [Hf [-> Hrest]]]].
    injection Hf as <-.
    pose proof (chunkEnd_bounds T sz start Hsz (conj H0 Hlt)) as [[Hb1 Hb2] _].
    set (e := chunkEnd T sz start) in *.
    destruct (Z.lt_ge_cases p e) as [Hpe|Hpe].
    + eexists. split; [left; reflexivity|]. cbn. lia.
    + assert (Hnext : 0 <= nextStart start e ov <= e) by (unfold nextStart; lia).
      destruct (IH _ _ e _ Hrest (proj1 Hnext) (proj2 Hnext) p) as [c [Hin Hc]];
        [lia|].
      exists c. split; [right; exact Hin | exact Hc].
Qed.

(** A cut made by a non-final iteration whose window has a space
    does not fall inside a word. *)
Lemma chunkEnd_no_split (start : Z) :
  0 <= start -> start + sz < Js.len T ->
  (exists i, Js.charAt (searchWindow T sz start) i = Some Js.space) ->
  ~ splits_word T (chunkEnd T sz start).
Proof.
  intros H0 Hlt [i Hi] [a [b [Ha [Hb [Hna Hnb]]]]].
  assert (Hst : 0 <= start < Js.len T) by lia.
  pose proof (window_len T sz start Hsz Hst Hlt) as Hl.
  pose proof (window_char T sz start Hsz Hst) as Hc.
  unfold chunkEnd in Ha, Hb. rewrite (proj2 (Z.ltb_lt _ _) Hlt) in Ha, Hb.
  fold (searchWindow T sz start) in Hl, Hc.
  change (Js.substring T (Z.max start (start + sz - 200))
            (Z.min (Js.len T) (start + sz + 200)))
    with (searchWindow T sz start) in Ha, Hb.
  set (w := searchWindow T sz start) in *.
  set (ss := Z.max start (start + sz - 200)) in *.
  destruct (breakPoint_cases w)
    as [[_ Hno] | [[B0 [Be [Ble Bc]]] | [[B0 [Be [Ble Bc]]] | [B0 [Be [Ble Bc]]]]]].
  - exact (Hno i Hi).
  - destruct (breakPoint w =? -1) eqn:E; [lia|]. cbn [negb] in Ha.
    rewrite <- Be, Z.eqb_refl in Ha.
    replace (ss + breakPoint w + 2 - 1) with (ss + (breakPoint w + 1)) in Ha by lia.
    rewrite <- Hc in Ha by lia. rewrite Bc in Ha. injection Ha as <-.
    discriminate.
  - destruct (breakPoint w =? -1) eqn:E; [lia|]. cbn [negb] in Hb.
    rewrite Be in Hb. rewrite E in Hb.
    replace (ss + breakPoint w + 1) with (ss + (breakPoint w + 1)) in Hb by lia.
    rewrite <- Hc in Hb by lia. rewrite Bc in Hb. injection Hb as <-.
    discriminate.
  - destruct (breakPoint w =? -1) eqn:E; [lia|]. cbn [negb] in Ha.
    rewrite Be in Ha. rewrite E in Ha.
    replace (ss + breakPoint w + 1 - 1) with (ss + breakPoint w) in Ha by lia.
    rewrite <- Hc in Ha by lia. rewrite Bc in Ha. injection Ha as <-.
    discriminate.
Qed.

End Coverage.

(** Chunk starts strictly increase along a run. *)
Lemma splitLoop_starts (T : string) (sz ov : Z) :
  forall (fuel : nat) (start idx : Z) (cs : list Chunk),
    splitLoop fuel T sz ov start idx = Some cs ->
    Forall (fun c => start <= TextSplitter.start c) cs /\
    StronglySorted Z.lt (map TextSplitter.start cs).
Proof.
  induction fuel as [|fuel IH]; intros start idx cs H.
  - cbn [splitLoop] in H. destruct (start <? Js.len T); [discriminate|].
    injection H as <-. split; constructor.
  - cbn [splitLoop] in H. destruct (start <? Js.len T).
    + destruct (splitLoop fuel T sz ov _ _) as [cs'|] eqn:E; [|discriminate].
      injection H as <-. destruct (IH _ _ _ E) as [Hge Hs].
      pose proof (nextStart_progress start (chunkEnd T sz start) ov) as Hp.
      split.
      * constructor; [cbn; lia|].
        eapply Forall_impl; [|exact Hge]. cbn. intros; lia.
      * cbn [map TextSplitter.start]. constructor; [exact Hs|].
        apply Forall_map. eapply Forall_impl; [|exact Hge]. cbn. intros; lia.
    + injection H as <-. split; constructor.
Qed.

(** Once the rest of the text fits in one chunk and is no longer than
    the overlap, every further iteration moves [start] by one only:
    the loop pushes one chunk per remaining character. *)
Lemma splitLoop_tail (T : string) (sz ov : Z) :
  forall (fuel : nat) (start idx : Z) (cs : list Chunk),
    splitLoop fuel T sz ov start idx = Some cs ->
    0 <= start <= Js.len T ->
    Js.len T <= start + sz ->
    Js.len T - ov <= start + 1 ->
    Z.of_nat (List.length cs) = Js.len T - start /\
    Forall (fun c => end_ c = Js.len T) cs.
Proof.
  induction fuel as [|fuel IH]; intros start idx cs H H0 Hfit Hov.
  - cbn [splitLoop] in H. destruct (start <? Js.len T) eqn:E; [discriminate|].
    injection H as <-. apply Z.ltb_ge in E. cbn. split; [lia | constructor].
  - destruct (Z.lt_ge_cases start (Js.len T)) as [Hlt|Hge].
    + destruct (splitLoop_step _ _ _ _ _ _ _ H Hlt) as [f' [cs' [Hf [-> Hrest]]]].
      injection Hf as <-.
      assert (He : chunkEnd T sz start = Js.len T).
      { unfold chunkEnd. destruct (start + sz <? Js.len T) eqn:E; [lia|reflexivity]. }
      rewrite He in *.
      assert (Hn : nextStart start (Js.len T) ov = start + 1)
        by (unfold nextStart; lia).
      rewrite Hn in Hrest.
      destruct (IH _ _ _ Hrest) as [Hlen Hall]; try lia.
      split.
      * cbn [List.length]. lia.
      * constructor; [reflexivity | exact Hall].
    + rewrite splitLoop_done in H by lia. injection H as <-.
      cbn. split; [lia | constructor].
Qed.

(** The splitter of the upload queue (chunk size 225,000, overlap
    1,000) on any text of 500,000 characters: two chunks cut near the
    chunk size, a third that reaches the end of the text, and then
    one more chunk for each of the last 1,000 characters. *)
Lemma splitText_500000 (T : string) :
  Js.len T = 500000 ->
  List.length (splitText 225000 1000 T) = 1003%nat.
Proof.
  intros HT. unfold splitText, splitTextFuel. rewrite HT. cbn [Z.leb Z.compare Pos.compare Pos.compare_cont].
  destruct (splitLoop_enough_fuel T 225000 1000 (String.length T) 0 0) as [cs Hcs].
  { unfold Js.len. lia. }
  rewrite Hcs.
  (* first chunk *)
  destruct (splitLoop_step _ _ _ _ _ _ _ Hcs ltac:(lia)) as [f1 [cs1 [_ [-> H1]]]].
  pose proof (chunkEnd_window T 225000 0 ltac:(lia) ltac:(lia) ltac:(lia)) as W1.
  set (e1 := chunkEnd T 225000 0) in *.
  assert (N1 : nextStart 0 e1 1000 = e1 - 1000) by (unfold nextStart; lia).
  rewrite N1 in H1.
  (* second chunk *)
  destruct (splitLoop_step _ _ _ _ _ _ _ H1 ltac:(lia)) as [f2 [cs2 [_ [-> H2]]]].
  pose proof (chunkEnd_window T 225000 (e1 - 1000) ltac:(lia) ltac:(lia) ltac:(lia)) as W2.
  set (e2 := chunkEnd T 225000 (e1 - 1000)) in *.
  assert (N2 : nextStart (e1 - 1000) e2 1000 = e2 - 1000) by (unfold nextStart; lia).
  rewrite N2 in H2.
  (* third chunk: reaches the end *)
  destruct (splitLoop_step _ _ _ _ _ _ _ H2 ltac:(lia)) as [f3 [cs3 [_ [-> H3]]]].
  rewrite (chunkEnd_last T 225000 (e2 - 1000)) in H3 by lia.
  assert (N3 : nextStart (e2 - 1000) (Js.len T) 1000 = 499000)
    by (unfold nextStart; lia).
  rewrite N3 in H3.
  (* the tail *)
  destruct (splitLoop_tail T 225000 1000 _ _ _ _ H3) as [Hlen _]; try lia.
  cbn [List.length]. lia.
Qed.

End SplitterFacts.

(** One iteration per character of the text is enough for the loop
    to exit with a result, and a larger bound gives the same result. *)
Lemma splitText_runs (T : string) (chunkSize chunkOverlap : Z) :
  exists chunks,
    splitTextFuel (String.length T) chunkSize chunkOverlap T = Some chunks /\
    splitText chunkSize chunkOverlap T = chunks /\
    StronglySorted Z.lt (map TextSplitter.start chunks) /\
    forall fuel, (String.length T <= fuel)%nat ->
      splitTextFuel fuel chunkSize chunkOverlap T = Some chunks.
Proof.
  unfold splitText, splitTextFuel.
  destruct (Js.len T <=? chunkSize) eqn:E.
  - eexists. split; [reflexivity|]. split; [reflexivity|].
    split; [|reflexivity]. cbn. repeat constructor.
  - destruct (splitLoop_enough_fuel T chunkSize chunkOverlap (String.length T) 0 0)
      as [cs Hcs].
    { unfold Js.len. lia. }
    exists cs. rewrite Hcs. split; [reflexivity|]. split; [reflexivity|].
    split.
    + exact (proj2 (splitLoop_starts T chunkSize chunkOverlap _ _ _ _ Hcs)).
    + intros fuel Hf.
      exact (splitLoop_more_fuel T chunkSize chunkOverlap _ _ _ _ _ Hcs Hf).
Qed.

(** C5.  [splitText] terminates for every text, chunk size and overlap
    (in particular for every chunk size >= 1 and overlap >= 0, also
    when the overlap is as large as the chunk size): each iteration
    moves [start] to [max (start + 1) (end - overlap)], which is at
    least [start + 1], so the chunk starts strictly increase and one
    iteration per character of the text is enough for the loop to exit
    with a result; a larger bound gives the same result. *)
Theorem splitText_terminates :
  forall (T : string) (chunkSize chunkOverlap : Z),
    (forall start end', start + 1 <= nextStart start end' chunkOverlap) /\
    exists chunks,
      splitTextFuel (String.length T) chunkSize chunkOverlap T = Some chunks /\
      splitText chunkSize chunkOverlap T = chunks /\
      StronglySorted Z.lt (map TextSplitter.start chunks) /\
      forall fuel, (String.length T <= fuel)%nat ->
        splitTextFuel fuel chunkSize chunkOverlap T = Some chunks.
Proof.
  intros T sz ov. split; [intros; apply nextStart_progress|].
  apply splitText_runs.
Qed.

(** C4, as amended.  For every text [T], chunk size [S >= 1] and overlap
    [>= 0] with [|T| > S]: each chunk's text is the substring of [T] at
    its recorded span [start, end); the spans cover [T] from 0 to [|T|]
    (every position lies in some span, and concatenating the spans with
    the overlap left out gives [T] back); no chunk is longer than
    [S + 400]; and the end of a chunk does not split a word when the
    search window of that chunk (200 characters either side of
    [start + S], clipped to the chunk's start and the end of the text)
    has a space. *)
Theorem splitText_spans_cover :
  forall (T : string) (S overlap : Z),
    1 <= S -> 0 <= overlap -> S < Js.len T ->
    let chunks := splitText S overlap T in
    Forall (fun c =>
              text c = Js.substring T (start c) (end_ c) /\
              0 <= start c < end_ c /\ end_ c <= Js.len T /\
              Js.len (text c) = end_ c - start c /\
              Js.len (text c) <= S + 400) chunks /\
    reassemble 0 chunks = T /\
    (forall p, 0 <= p < Js.len T ->
       exists c, In c chunks /\ start c <= p < end_ c) /\
    (forall c, In c chunks ->
       (exists i, Js.charAt (searchWindow T S (start c)) i = Some Js.space) ->
       ~ splits_word T (end_ c)).
Proof.
  intros T sz ov Hsz Hov Hlen chunks.
  destruct (splitText_runs T sz ov) as [cs [Hf [Hs _]]].
  subst chunks. rewrite Hs. unfold splitTextFuel in Hf.
  destruct (Js.len T <=? sz) eqn:E; [lia|].
  pose proof (splitLoop_chunks T sz ov _ _ _ _ Hf (Z.le_refl 0)) as Hall.
  split; [|split; [|split]].
  - eapply Forall_impl; [|exact Hall].
    intros c [Hst [He Ht]].
    pose proof (chunkEnd_bounds T sz (start c) Hsz Hst) as [[Hb1 Hb2] Hb3].
    rewrite <- He in *.
    assert (Hl : Js.len (text c) = end_ c - start c)
      by (rewrite Ht; apply substring_len; lia).
    repeat split; try assumption; lia.
  - rewrite (splitLoop_reassemble T sz ov Hsz Hov _ _ _ 0 _ Hf); try lia.
    apply substring_whole.
  - intros p Hp.
    apply (splitLoop_covers T sz ov Hsz Hov _ _ _ 0 _ Hf); lia.
  - intros c Hin Hsp.
    rewrite Forall_forall in Hall. destruct (Hall c Hin) as [Hst [He _]].
    rewrite He. destruct (Z.lt_ge_cases (start c + sz) (Js.len T)) as [Hcut|Hcut].
    + apply (chunkEnd_no_split T sz Hsz); [lia | assumption | assumption].
    + rewrite (chunkEnd_last T sz (start c) Hcut).
      intros [a [b [_ [Hb _]]]]. unfold Js.charAt in Hb.
      destruct (Js.len T <? 0); [discriminate|].
      rewrite get_past_end in Hb; [discriminate|]. unfold Js.len. lia.
Qed.

Lemma splitText_spans_cover_witness :
  1 <= 5 /\ 0 <= 1 /\ 5 < Js.len "hello world foo bar" /\
  reassemble 0 (splitText 5 1 "hello world foo bar") = "hello world foo bar".
Proof.
  split; [lia|]. split; [lia|]. split; [reflexivity|].
  exact (proj1 (proj2 (splitText_spans_cover "hello world foo bar" 5 1
                         ltac:(lia) ltac:(lia) ltac:(reflexivity)))).
Defined.

(** The claim C4 as stated fails for chunk sizes of at least 1 and
    overlaps of at least 0.  With chunk size 3 and no overlap the second
    chunk of [a bcdefgh] is cut at position 5, inside a word, although
    a space stands 4 characters before the cut: the window of the
    search starts at the start of the chunk, position 2, and the word
    is longer than the chunk.  And with chunk size 6 and overlap 2 the
    second chunk of [one two three] starts at position 6, inside the
    word [two], one character before a space: the start of a chunk is
    the end of the chunk before it minus the overlap, wherever that
    falls. *)
Lemma splitText_splits_word_near_space :
  (1 <= 3 /\ 0 <= 0 /\ 3 < Js.len "a bcdefgh" /\
   map (fun c => (start c, end_ c)) (splitText 3 0 "a bcdefgh")
   = [(0, 2); (2, 5); (5, 8); (8, 9)] /\
   splits_word "a bcdefgh" 5 /\
   Js.charAt "a bcdefgh" 1 = Some Js.space /\ 5 - 200 <= 1 <= 5 + 200) /\
  (1 <= 6 /\ 0 <= 2 /\ 6 < Js.len "one two three" /\
   map (fun c => (start c, end_ c)) (splitText 6 2 "one two three")
   = [(0, 8); (6, 8); (7, 13); (11, 13); (12, 13)] /\
   splits_word "one two three" 6 /\
   Js.charAt "one two three" 7 = Some Js.space /\ 6 - 200 <= 7 <= 6 + 200).
Proof.
  split.
  - split; [lia|]. split; [lia|]. split; [reflexivity|].
    split; [vm_compute; reflexivity|].
    split; [exists "d"%char, "e"%char; repeat split; reflexivity|].
    split; [reflexivity | lia].
  - split; [lia|]. split; [lia|]. split; [reflexivity|].
    split; [vm_compute; reflexivity|].
    split; [exists "w"%char, "o"%char; repeat split; reflexivity|].
    split; [reflexivity | lia].
Qed.

(** The bounds on the chunk size and on the overlap cannot be left
    out: with chunk size 0 the two chunks of the two-letter text ab
    are empty, and with overlap -1 the chunks of abc skip the letter
    b. *)
Lemma splitText_cover_fails_without_bounds :
  (0 < Js.len "ab" /\ reassemble 0 (splitText 0 0 "ab") <> "ab") /\
  (1 < Js.len "abc" /\ reassemble 0 (splitText 1 (-1) "abc") <> "abc").
Proof.
  split; (split; [reflexivity | vm_compute; discriminate]).
Qed.

(** ** Facts about the notebook-detail parser *)

Section ParserFacts.

Import NotebookParser.

Variable P : Platform.

Lemma parseSource_typeCode (row : list json) :
  typeCode (parseSource P row) <> 0.
Proof.
  unfold parseSource. cbn [typeCode].
  match goal with
  | |- (if ?x =? 0 then 2 else ?x) <> 0 =>
      destruct (Z.eqb_spec x 0) as [E|E]; [discriminate | exact E]
  end.
Qed.

Lemma parseSource_status_default (row : list json) :
  status_at_fixed_index row = None -> status (parseSource P row) = Int 2.
Proof. intros H. unfold parseSource. cbn [status]. now rewrite H. Qed.

Lemma parseSource_status_parsed (row : list json) (n : number) :
  status_at_fixed_index row = Some n -> status (parseSource P row) = n.
Proof. intros H. unfold parseSource. cbn [status]. now rewrite H. Qed.

Lemma parseSource_typeCode_default (row : list json) :
  typeCode_at_fixed_index row = 0 ->
  search_type_code (fields_2_to_4 row) 0 = 0 ->
  resolved_url row = None ->
  typeCode (parseSource P row) = 2 /\ type (parseSource P row) = "text".
Proof.
  intros H1 H2 H3. unfold parseSource. cbn [typeCode type].
  rewrite H1, H3. cbn [Z.eqb orb]. rewrite H2. cbn. split; reflexivity.
Qed.

(** Every source of the result is a parsed row. *)
Lemma parseNotebookDetails_rows (responseText : string) :
  exists rows,
    sources (parseNotebookDetails P responseText) = map (parseSource P) rows.
Proof.
  unfold parseNotebookDetails, parseNotebookDetails_try.
  destruct (find _ _) as [dataLine|]; [|exists []; reflexivity].
  destruct (JSON_parse P (Some (JStr dataLine))) as [parsed|];
    [|exists []; reflexivity].
  destruct (get (Some parsed) 0) as [p0|]; [|exists []; reflexivity].
  destruct (get p0 2) as [p02|]; [|exists []; reflexivity].
  destruct (JSON_parse P p02) as [innerData|]; [|exists []; reflexivity].
  unfold parseInnerData.
  destruct (negb (truthy (Some innerData))); [exists []; reflexivity|].
  destruct (get (Some innerData) 0) as [nd|]; [|exists []; reflexivity].
  destruct (negb (truthy nd)); [exists []; reflexivity|].
  destruct (get nd 0), (get nd 2), (get nd 1); try (exists []; reflexivity).
  eexists. reflexivity.
Qed.

End ParserFacts.

(** C10.  Every source in the list that [getNotebook] obtains from
    [parseNotebookDetails] is a parsed row, and every parsed row has a
    permissive classification: its type code is never 0 -- when the
    fixed index gives none, the structural search finds none and no URL
    is found, the code is 2 (text) -- and its status is the number
    parsed at the fixed index or else 2 (ready), so a status is always
    there.  This holds for every response text and whatever the JSON
    decoder returns for it. *)
Theorem parseNotebookDetails_defaults :
  forall (P : NotebookParser.Platform) (responseText : string),
    let parsed := NotebookParser.parseNotebookDetails P responseText in
    Forall (fun src => NotebookParser.typeCode src <> 0)
           (NotebookParser.sources parsed) /\
    (exists rows,
        NotebookParser.sources parsed = map (NotebookParser.parseSource P) rows) /\
    (forall row,
        let src := NotebookParser.parseSource P row in
        NotebookParser.typeCode src <> 0 /\
        (NotebookParser.typeCode_at_fixed_index row = 0 ->
         NotebookParser.search_type_code (NotebookParser.fields_2_to_4 row) 0 = 0 ->
         NotebookParser.resolved_url row = None ->
         NotebookParser.typeCode src = 2) /\
        (NotebookParser.status_at_fixed_index row = None ->
         NotebookParser.status src = Int 2) /\
        (forall n, NotebookParser.status_at_fixed_index row = Some n ->
                   NotebookParser.status src = n)).
Proof.
  intros P responseText parsed. split; [|split].
  - subst parsed. destruct (parseNotebookDetails_rows P responseText) as [rows ->].
    apply Forall_map. apply Forall_forall. intros row _.
    apply parseSource_typeCode.
  - apply parseNotebookDetails_rows.
  - intros row src. subst src. split; [apply parseSource_typeCode|].
    split; [intros; now apply parseSource_typeCode_default|].
    split; [apply parseSource_status_default | apply parseSource_status_parsed].
Qed.

(** ** Facts about the service *)

Section ServiceFacts.

Import Service.
Local Open Scope js_scope.

Variable net : Network.

(** With cached tokens, [rpc] sends exactly its request; a 2xx
    response with a readable body is returned as text. *)
Lemma rpc_cached (rpcId : string) (params : json) (path : string)
      (s : State) (t : Tokens) :
  tokens s = Some t ->
  rpc net rpcId params path s =
  (match net (List.length (sent s)) (FetchRpc rpcId params path) with
   | Resolved response =>
       if negb (ok response)
       then Rejected (Error ("RPC call failed: " ++ Js.decimal (http_status response)))
       else body response
   | Rejected e => Rejected e
   end,
   mkState (tokens s) (isRefreshingTokens s)
           (sent s ++ [FetchRpc rpcId params path])).
Proof.
  intros Ht. destruct s as [tk fl sn]. cbn in Ht. subst tk.
  unfold rpc, bind, gets, ret, fetch, throw, lift_outcome.
  cbn [tokens isRefreshingTokens sent].
  destruct (net _ _) as [response|e]; [|reflexivity].
  destruct (negb (ok response)); reflexivity.
Qed.

Lemma errorMatch_includes (response code : string) :
  errorMatch response = Some code ->
  Js.includes response error_marker = true.
Proof. unfold errorMatch. apply match_digits_includes. Qed.

(** What [addSource] does with a response that carries an error
    marker: success for the codes of its list, an exception that
    names the code for every other code. *)
Lemma check_addSource_response_by_code (response code : string) (s : State) :
  errorMatch response = Some code ->
  check_addSource_response response s =
  (if includes_code normalErrorCodes code
   then Resolved tt
   else Rejected (Error ("RPC returned error code: " ++ code)), s).
Proof.
  intros H. unfold check_addSource_response.
  rewrite (errorMatch_includes _ _ H), H.
  destruct (includes_code normalErrorCodes code); reflexivity.
Qed.

(** [addSource] for a URL or a non-blank text, when the call returns
    a response with an error marker: it completes exactly when the
    code is in the allow-list and otherwise throws. *)
Lemma addSource_by_code (nb : string) (content : Content) (s : State)
      (t : Tokens) (st : Z) (rd : bool) (response code : string) :
  tokens s = Some t ->
  (forall c, net (List.length (sent s)) c =
             Resolved (mkResponse true st rd (Resolved response))) ->
  errorMatch response = Some code ->
  content_type content = url_type \/
  (content_type content = text_type /\
   Js.nonempty (Js.trim (or_default (content_content content) "")) = true) ->
  fst (addSource net nb content s) =
  if includes_code normalErrorCodes code
  then Resolved tt
  else Rejected (Error ("RPC returned error code: " ++ code)).
Proof.
  intros Ht Hnet Hm Hc. unfold addSource.
  destruct Hc as [-> | [-> Hne]].
  - unfold bind. rewrite (rpc_cached _ _ _ _ _ Ht), Hnet. cbn [ok negb body].
    rewrite (check_addSource_response_by_code _ _ _ Hm). reflexivity.
  - rewrite Hne. cbn [negb]. unfold bind.
    rewrite (rpc_cached _ _ _ _ _ Ht), Hnet. cbn [ok negb body].
    rewrite (check_addSource_response_by_code _ _ _ Hm). reflexivity.
Qed.

(** [addTextSource] completes whatever the response says. *)
Lemma addTextSource_any_response (nb text title : string) (s : State)
      (t : Tokens) (st : Z) (rd : bool) (response : string) :
  tokens s = Some t ->
  (forall c, net (List.length (sent s)) c =
             Resolved (mkResponse true st rd (Resolved response))) ->
  fst (addTextSource net nb text title s) = Resolved tt.
Proof.
  intros Ht Hnet. unfold addTextSource, bind.
  rewrite (rpc_cached _ _ _ _ _ Ht), Hnet. cbn [ok negb body].
  destruct (Js.includes response error_marker); [|reflexivity].
  destruct (errorMatch response) as [code|]; [|reflexivity].
  destruct (negb (includes_code normalErrorCodes_text code)); reflexivity.
Qed.

End ServiceFacts.

(** C1.  At a response whose inline error marker carries the code 999,
    which is not in the allow-list, [addSource] throws an error that
    names the code, as the claim says, but [addTextSource] returns
    normally; for a listed code such as 412 both return normally.  So
    the equivalence of the claim holds for [addSource] (lemma
    [addSource_by_code]) and fails for [addTextSource] (lemma
    [addTextSource_any_response]). *)
Theorem addTextSource_accepts_unlisted_code :
  let r999 := Fixtures.marker_response "999" in
  let r412 := Fixtures.marker_response "412" in
  Service.errorMatch r999 = Some "999" /\
  Service.includes_code Service.normalErrorCodes "999" = false /\
  fst (Service.addSource (Fixtures.net_replying r999) "nb"
         (Fixtures.text_content "Title" "some text") Fixtures.logged_in)
  = Rejected (Error "RPC returned error code: 999") /\
  fst (Service.addTextSource (Fixtures.net_replying r999) "nb"
         "some text" "Title" Fixtures.logged_in)
  = Resolved tt /\
  Service.errorMatch r412 = Some "412" /\
  fst (Service.addSource (Fixtures.net_replying r412) "nb"
         (Fixtures.text_content "Title" "some text") Fixtures.logged_in)
  = Resolved tt /\
  fst (Service.addTextSource (Fixtures.net_replying r412) "nb"
         "some text" "Title" Fixtures.logged_in)
  = Resolved tt.
Proof.
  cbv zeta. repeat split; vm_compute; reflexivity.
Qed.

(** ** Facts about the Anki export *)

Section AnkiFacts.

Import ExportFormats.

Lemma split_char_none (c : ascii) : forall s,
  has_char c s = false -> Js.split_char c s = [s].
Proof.
  induction s as [|x s IH]; intros H; [reflexivity|].
  cbn in *. apply orb_false_iff in H as [H1 H2].
  rewrite H1, (IH H2). reflexivity.
Qed.

Lemma split_char_app (c : ascii) : forall s rest,
  has_char c s = false ->
  Js.split_char c (s ++ String c rest)%string = s :: Js.split_char c rest.
Proof.
  induction s as [|x s IH]; intros rest H; cbn in *.
  - now rewrite Ascii.eqb_refl.
  - apply orb_false_iff in H as [H1 H2]. rewrite H1, (IH _ H2). reflexivity.
Qed.

(** Joining non-empty rows that have no line feed and splitting at
    the line feeds gives the rows back. *)
Lemma lines_join (rows : list string) :
  rows <> [] ->
  Forall (fun r => has_char Js.newline r = false) rows ->
  lines (Js.join newline_string rows) = rows.
Proof.
  unfold lines. induction rows as [|r rows IH]; intros Hne Hall; [congruence|].
  inversion Hall as [|? ? Hr Hrest]; subst.
  destruct rows as [|r2 rows].
  - cbn. now apply split_char_none.
  - change (Js.join newline_string (r :: r2 :: rows))
      with (r ++ newline_string ++ Js.join newline_string (r2 :: rows))%string.
    unfold newline_string at 1. cbn [String.append].
    rewrite split_char_app by assumption.
    f_equal. apply IH; [discriminate | assumption].
Qed.

Lemma count_char_app (c : ascii) : forall s t,
  count_char c (s ++ t)%string = (count_char c s + count_char c t)%nat.
Proof.
  induction s as [|x s IH]; intros t; cbn; [reflexivity|].
  rewrite IH. lia.
Qed.

Lemma count_char_zero (c : ascii) : forall s,
  has_char c s = false -> count_char c s = 0%nat.
Proof.
  induction s as [|x s IH]; intros H; cbn in *; [reflexivity|].
  apply orb_false_iff in H as [H1 H2]. rewrite H1, (IH H2). reflexivity.
Qed.

Lemma has_char_app (c : ascii) : forall s t,
  has_char c (s ++ t)%string = has_char c s || has_char c t.
Proof.
  induction s as [|x s IH]; intros t; cbn; [reflexivity|].
  rewrite IH. now rewrite orb_assoc.
Qed.

Lemma has_char_map_chars (f : ascii -> ascii) (e : ascii) : forall s,
  (forall x, Ascii.eqb x e = false -> Ascii.eqb (f x) e = false) ->
  has_char e s = false ->
  has_char e (Js.map_chars f s) = false.
Proof.
  intros s Hf. induction s as [|x s IH]; cbn; [reflexivity|].
  intros H. apply orb_false_iff in H as [H1 H2].
  rewrite (IH H2), orb_false_r. apply Hf. exact H1.
Qed.

Lemma has_char_replace_same (c d : ascii) : forall s,
  c <> d -> has_char c (Js.replace_char c d s) = false.
Proof.
  intros s Hcd. unfold Js.replace_char.
  induction s as [|x s IH]; cbn; [reflexivity|].
  rewrite IH, orb_false_r.
  destruct (Ascii.eqb x c) eqn:E.
  - apply Ascii.eqb_neq. congruence.
  - exact E.
Qed.

Lemma has_char_replace_keeps (c d e : ascii) : forall s,
  e <> d -> has_char e s = false ->
  has_char e (Js.replace_char c d s) = false.
Proof.
  intros s Hed H. unfold Js.replace_char.
  apply has_char_map_chars; [|exact H].
  intros x Hx. destruct (Ascii.eqb x c); [apply Ascii.eqb_neq; congruence | exact Hx].
Qed.

Lemma has_char_join (c : ascii) (sep : string) (l : list string) :
  has_char c sep = false ->
  Forall (fun t => has_char c t = false) l ->
  has_char c (Js.join sep l) = false.
Proof.
  intros Hsep. induction l as [|t l IH]; intros Hall; [reflexivity|].
  inversion Hall; subst. destruct l as [|t2 l]; [assumption|].
  change (Js.join sep (t :: t2 :: l)) with (t ++ sep ++ Js.join sep (t2 :: l))%string.
  rewrite !has_char_app, Hsep, IH by assumption.
  rewrite orb_false_r. assumption.
Qed.

Lemma ankiRow_clean (fc : Flashcard) :
  clean fc ->
  has_char Js.newline (ankiRow fc) = false /\
  count_char Js.tab (ankiRow fc) = 2%nat.
Proof.
  intros [Hf [Hb Ht]]. unfold ankiRow. split.
  - rewrite !has_char_app.
    rewrite (has_char_replace_keeps Js.tab Js.space Js.newline) by (assumption || discriminate).
    rewrite (has_char_replace_keeps Js.tab Js.space Js.newline) by (assumption || discriminate).
    rewrite has_char_join; [reflexivity | reflexivity |].
    eapply Forall_impl; [|exact Ht]. cbn. tauto.
  - rewrite !count_char_app.
    rewrite !(count_char_zero Js.tab (Js.replace_char _ _ _))
      by (apply has_char_replace_same; discriminate).
    rewrite (count_char_zero Js.tab (Js.join _ _)); [reflexivity|].
    apply has_char_join; [reflexivity|].
    eapply Forall_impl; [|exact Ht]. cbn. tauto.
Qed.

(** For clean cards the export has one line per card with exactly
    two tabs each. *)
Lemma flashcardsToAnki_clean (cards : list Flashcard) :
  cards <> [] -> Forall clean cards ->
  lines (flashcardsToAnki cards) = map ankiRow cards /\
  Forall (fun line => count_char Js.tab line = 2%nat)
         (lines (flashcardsToAnki cards)).
Proof.
  intros Hne Hall. unfold flashcardsToAnki.
  assert (Hl : lines (Js.join newline_string (map ankiRow cards)) = map ankiRow cards).
  { apply lines_join.
    - destruct cards; [congruence | discriminate].
    - apply Forall_map. eapply Forall_impl; [|exact Hall].
      intros fc Hc. apply (ankiRow_clean fc Hc). }
  rewrite Hl. split; [reflexivity|].
  apply Forall_map. eapply Forall_impl; [|exact Hall].
  intros fc Hc. apply (ankiRow_clean fc Hc).
Qed.

End AnkiFacts.

(** C9.  The export of one flashcard made from a quiz question, whose
    back lists the answer options one per line, is not one line with
    two tabs: it has two lines with one tab each.  (For cards without
    line feeds, and without tabs in their tags, the export is as the
    claim says: lemma [flashcardsToAnki_clean].) *)
Theorem flashcardsToAnki_splits_multiline_card :
  let out := ExportFormats.flashcardsToAnki [Fixtures.quiz_card] in
  List.length [Fixtures.quiz_card] = 1%nat /\
  ExportFormats.lines out = Fixtures.quiz_card_lines /\
  List.length (ExportFormats.lines out) = 2%nat /\
  map (ExportFormats.count_char Js.tab) (ExportFormats.lines out) = [1%nat; 1%nat].
Proof. cbv zeta. repeat split; vm_compute; reflexivity. Qed.

(** ** Token refresh *)

(** C3.  Two fetches of the token page can be in flight at once: a
    first caller starts the refresh; a second caller finds the flag
    set and sleeps 100 ms; its timer fires while the first fetch is
    still pending, no tokens are cached yet, and it starts a second
    fetch. *)
Theorem getTokens_duplicate_fetch :
  exists s,
    Refresh.run Refresh.init
      [Refresh.Call; Refresh.Call; Refresh.TimerFires 1] = Some s /\
    Refresh.reachable s /\
    Refresh.callers s = [Refresh.Fetching; Refresh.Fetching] /\
    Refresh.in_flight s = 2%nat.
Proof.
  eexists. split; [reflexivity|]. split; [|split; reflexivity].
  exists [Refresh.Call; Refresh.Call; Refresh.TimerFires 1]. reflexivity.
Qed.

(** ** Facts about the DOM extractor *)

Section ExtractorFacts.

Import DOMExtractor.
Local Open Scope js_scope.

Variable browser : Browser.

Lemma returns_ret {A} (a : A) : returns (ret a) a.
Proof. intros s. reflexivity. Qed.

Lemma returns_bind {A B} (m : M State A) (k : A -> M State B) (a : A) (b : B) :
  returns m a -> returns (k a) b -> returns (bind m k) b.
Proof.
  intros Hm Hk s. unfold bind. specialize (Hm s).
  destruct (m s) as [[x|e] s']; cbn in Hm; [|discriminate].
  injection Hm as ->. apply Hk.
Qed.

Lemma resolves_bind {A B} (m : M State A) (k : A -> M State B) (b : B) :
  resolves m -> (forall a, returns (k a) b) -> returns (bind m k) b.
Proof.
  intros Hm Hk s. unfold bind. destruct (Hm s) as [a Ha].
  destruct (m s) as [[x|e] s']; cbn in Ha; [|discriminate].
  apply Hk.
Qed.

Lemma rejects_bind {A B} (m : M State A) (k : A -> M State B) :
  rejects m -> rejects (bind m k).
Proof.
  intros Hm s. unfold bind. destruct (Hm s) as [e He].
  destruct (m s) as [[x|e'] s']; cbn in He; [discriminate|].
  exists e'. reflexivity.
Qed.

Lemma returns_try_catch {A} (m : M State A) (h : exn -> M State A) (a : A) :
  returns m a -> returns (try_catch m h) a.
Proof.
  intros Hm s. unfold try_catch. specialize (Hm s).
  destruct (m s) as [[x|e] s']; cbn in *; [assumption | discriminate].
Qed.

Lemma caught {A} (m : M State A) (h : exn -> M State A) (a : A) :
  rejects m -> (forall e, returns (h e) a) -> returns (try_catch m h) a.
Proof.
  intros Hm Hh s. unfold try_catch. destruct (Hm s) as [e He].
  destruct (m s) as [[x|e'] s']; cbn in He; [discriminate|]. apply Hh.
Qed.

Lemma returns_sleep (ms : Z) : returns (sleep ms) tt.
Proof. intros s. reflexivity. Qed.

Lemma returns_wait_for_load (limit settle : Z) :
  returns (wait_for_load browser limit settle) tt.
Proof. intros s. reflexivity. Qed.

Lemma resolves_gets {A} (f : State -> A) : resolves (gets f).
Proof. intros s. eexists. reflexivity. Qed.

(** One unfolding of the polling loop. *)
Lemma poll_unfold (fuel : nat) (startTime limit interval : Z)
      (attempt : M State (option json)) (s : State) :
  poll fuel startTime limit interval attempt s =
  if now s - startTime <? limit then
    match fuel with
    | O => (Resolved None, s)
    | S fuel' =>
        match attempt s with
        | (Resolved (Some data), s1) => (Resolved (Some data), s1)
        | (Resolved None, s1) =>
            poll fuel' startTime limit interval attempt (advance interval s1)
        | (Rejected e, s1) => (Rejected e, s1)
        end
    end
  else (Resolved None, s).
Proof.
  destruct fuel as [|fuel]; cbn [poll]; unfold bind at 1, gets;
    destruct (now s - startTime <? limit); try reflexivity.
  unfold bind at 1. destruct (attempt s) as [[[data|]|e] s1]; reflexivity.
Qed.

(** A polling loop whose attempts all give nothing gives nothing. *)
Lemma poll_nothing (attempt : M State (option json)) (startTime limit interval : Z) :
  returns attempt None ->
  forall fuel, returns (poll fuel startTime limit interval attempt) None.
Proof.
  intros Ha. induction fuel as [|fuel IH]; intros s; rewrite poll_unfold;
    destruct (now s - startTime <? limit); try reflexivity.
  specialize (Ha s). destruct (attempt s) as [[[data|]|e] s1]; cbn in Ha;
    try discriminate.
  apply IH.
Qed.

(** The bound on the iterations of a polling loop is never reached:
    when the attempts do not turn the clock back and the interval is
    at least one millisecond, any two bounds that cover the time left
    give the same run. *)
Lemma poll_fuel (attempt : M State (option json)) (startTime limit interval : Z) :
  (forall s, now s <= now (snd (attempt s))) ->
  1 <= interval ->
  forall (f1 f2 : nat) (s : State),
    startTime + limit - now s <= Z.of_nat f1 ->
    startTime + limit - now s <= Z.of_nat f2 ->
    poll f1 startTime limit interval attempt s
    = poll f2 startTime limit interval attempt s.
Proof.
  intros Hmono Hint. induction f1 as [|f1 IH]; intros f2 s H1 H2;
    rewrite (poll_unfold _ _ _ _ _ s), (poll_unfold f2 _ _ _ _ s);
    destruct (now s - startTime <? limit) eqn:E; try reflexivity;
    apply Z.ltb_lt in E.
  - lia.
  - destruct f2 as [|f2]; [lia|].
    pose proof (Hmono s) as Hs.
    destruct (attempt s) as [[[data|]|e] s1]; try reflexivity.
    cbn [snd] in Hs. apply IH; cbn [advance now]; lia.
Qed.

Lemma steady_bind {A B} (m : M State A) (k : A -> M State B) :
  steady m -> (forall a, steady (k a)) -> steady (bind m k).
Proof.
  intros Hm Hk s. unfold bind. specialize (Hm s).
  destruct (m s) as [[a|e] s1]; cbn [snd] in *; [|exact Hm].
  rewrite (Hk a s1). exact Hm.
Qed.

Lemma steady_try_catch {A} (m : M State A) (h : exn -> M State A) :
  steady m -> (forall e, steady (h e)) -> steady (try_catch m h).
Proof.
  intros Hm Hh s. unfold try_catch. specialize (Hm s).
  destruct (m s) as [[a|e] s1]; cbn [snd] in *; [exact Hm|].
  rewrite (Hh e s1). exact Hm.
Qed.

Lemma steady_ret {A} (a : A) : steady (ret a).
Proof. intros s. reflexivity. Qed.

Lemma steady_inject (tabId : Z) (script : string) (args : list json) :
  steady (inject browser tabId script args).
Proof. intros s. reflexivity. Qed.

Lemma steady_query : steady (query browser).
Proof. intros s. reflexivity. Qed.

Lemma steady_try_script (tabId : Z) (script : string) (args : list json) :
  steady (try_script browser tabId script args).
Proof.
  apply steady_try_catch; [|intros; apply steady_ret].
  apply steady_bind; [apply steady_inject | intros; apply steady_ret].
Qed.

Lemma steady_try_all_frames (tabId : Z) : steady (try_all_frames browser tabId).
Proof.
  apply steady_try_catch; [|intros; apply steady_ret].
  apply steady_bind; [apply steady_inject | intros; apply steady_ret].
Qed.

Lemma steady_scan_tabs (tabs : list Tab) : steady (scan_tabs browser tabs).
Proof.
  induction tabs as [|tab rest IH]; cbn [scan_tabs]; [apply steady_ret|].
  destruct (usable_id (Some tab)); [|exact IH].
  apply steady_bind; [apply steady_try_script|].
  intros [data|]; [apply steady_ret | exact IH].
Qed.

(** A bound of one iteration per millisecond of the limit is never
    reached by a loop that starts now: a larger bound gives the same
    run. *)
Lemma poll_bound_enough (attempt : M State (option json)) (limit interval : Z)
      (extra : nat) (s : State) :
  steady attempt -> 1 <= interval ->
  poll (Z.to_nat limit) (now s) limit interval attempt s
  = poll (Z.to_nat limit + extra) (now s) limit interval attempt s.
Proof.
  intros Hsteady Hint.
  assert (Hmono : forall s0, now s0 <= now (snd (attempt s0))).
  { intros s0. rewrite (Hsteady s0). lia. }
  apply poll_fuel; try assumption; lia.
Qed.

(** The three polling loops are run with such bounds. *)
Lemma poll_bounds_suffice (s : State) (extra : nat) (tabId maxWaitMs : Z) :
  poll (Z.to_nat 15000) (now s) 15000 1500 (try_all_frames browser tabId) s
  = poll (Z.to_nat 15000 + extra) (now s) 15000 1500
         (try_all_frames browser tabId) s /\
  poll (Z.to_nat 8000) (now s) 8000 1000
       (try_script browser tabId "parse app data" []) s
  = poll (Z.to_nat 8000 + extra) (now s) 8000 1000
         (try_script browser tabId "parse app data" []) s /\
  poll (Z.to_nat maxWaitMs) (now s) maxWaitMs 1000
       (bind (query browser) (scan_tabs browser)) s
  = poll (Z.to_nat maxWaitMs + extra) (now s) maxWaitMs 1000
         (bind (query browser) (scan_tabs browser)) s.
Proof.
  split; [|split].
  - apply poll_bound_enough; [apply steady_try_all_frames | discriminate].
  - apply poll_bound_enough; [apply steady_try_script | discriminate].
  - apply poll_bound_enough; [|discriminate].
    apply steady_bind; [apply steady_query | apply steady_scan_tabs].
Qed.

Section NoTab.

Hypothesis Hno : no_notebook_tab browser.

Lemma findNotebookLMTab_no_tab : returns (findNotebookLMTab browser) None.
Proof.
  intros s. unfold findNotebookLMTab, bind, query.
  rewrite Hno. reflexivity.
Qed.

Lemma extract_with_no_tab (script : string) (args : list json) (empty : json)
      (finish : jsval -> M State json) :
  returns (extract_with browser script args empty finish) empty.
Proof.
  unfold extract_with.
  apply (returns_bind _ _ None); [apply findNotebookLMTab_no_tab|].
  apply returns_ret.
Qed.

Lemma extractArtifactAppData_no_tab (maxWaitMs : Z) :
  returns (extractArtifactAppData browser maxWaitMs) JNull.
Proof.
  unfold extractArtifactAppData.
  apply resolves_bind; [apply resolves_gets|]. intros startTime.
  apply (returns_bind _ _ None); [|apply returns_ret].
  apply poll_nothing.
  intros s. unfold bind, query. rewrite Hno. reflexivity.
Qed.

End NoTab.

Lemma extractDataFromBackgroundTab_no_tab (nb artifactId : string) (maxWaitMs : Z) :
  no_background_tab browser ->
  returns (extractDataFromBackgroundTab browser nb artifactId maxWaitMs) JNull.
Proof.
  intros Hno. unfold extractDataFromBackgroundTab.
  apply (returns_bind _ _ None); [|apply returns_ret].
  intros s. unfold try_catch, bind, create.
  destruct (Hno (api_calls s)
              ("https://notebooklm.google.com/notebook/" ++ nb)%string)
    as [[e ->] | [t [-> Ht]]].
  - reflexivity.
  - unfold ret. cbn [fst]. now rewrite Ht.
Qed.

Section InjectionRejects.

Hypothesis Hrej : injection_rejects browser.

Lemma inject_rejects (tabId : Z) (script : string) (args : list json) :
  rejects (inject browser tabId script args).
Proof.
  intros s. unfold inject.
  destruct (proj2 Hrej (api_calls s) tabId script args) as [e ->].
  exists e. reflexivity.
Qed.

Lemma query_resolves : resolves (query browser).
Proof.
  intros s. unfold query. destruct (proj1 Hrej (api_calls s)) as [tabs ->].
  exists tabs. reflexivity.
Qed.

Lemma findNotebookLMTab_resolves : resolves (findNotebookLMTab browser).
Proof.
  intros s. unfold findNotebookLMTab, bind, query, gets, ret.
  destruct (proj1 Hrej (api_calls s)) as [tabs ->].
  destruct tabs as [|first rest]; cbn; [eexists; reflexivity|].
  destruct (_notebookId s) as [i|]; [|eexists; reflexivity].
  destruct (Js.nonempty i); [|eexists; reflexivity].
  match goal with
  | |- context [match ?f with Some _ => _ | None => _ end] => destruct f
  end; eexists; reflexivity.
Qed.

Lemma extract_with_rejected (script : string) (args : list json) (empty : json)
      (finish : jsval -> M State json) :
  returns (extract_with browser script args empty finish) empty.
Proof.
  unfold extract_with.
  apply resolves_bind; [apply findNotebookLMTab_resolves|]. intros tab.
  destruct (usable_id tab) as [tabId|]; [|apply returns_ret].
  apply caught; [|intros; apply returns_ret].
  apply rejects_bind, inject_rejects.
Qed.

Lemma try_script_rejected (tabId : Z) (script : string) (args : list json) :
  returns (try_script browser tabId script args) None.
Proof.
  unfold try_script. apply caught; [|intros; apply returns_ret].
  apply rejects_bind, inject_rejects.
Qed.

Lemma try_all_frames_rejected (tabId : Z) :
  returns (try_all_frames browser tabId) None.
Proof.
  unfold try_all_frames. apply caught; [|intros; apply returns_ret].
  apply rejects_bind, inject_rejects.
Qed.

Lemma try_iframe_rejected (tabId : Z) :
  returns (try_iframe browser tabId) None.
Proof.
  unfold try_iframe. apply caught; [|intros; apply returns_ret].
  apply rejects_bind, inject_rejects.
Qed.

Lemma scan_tabs_rejected (tabs : list Tab) :
  returns (scan_tabs browser tabs) None.
Proof.
  induction tabs as [|tab rest IH]; cbn [scan_tabs]; [apply returns_ret|].
  destruct (usable_id (Some tab)) as [tabId|]; [|exact IH].
  apply (returns_bind _ _ None); [apply try_script_rejected | exact IH].
Qed.

Lemma extractArtifactAppData_rejected (maxWaitMs : Z) :
  returns (extractArtifactAppData browser maxWaitMs) JNull.
Proof.
  unfold extractArtifactAppData.
  apply resolves_bind; [apply resolves_gets|]. intros startTime.
  apply (returns_bind _ _ None); [|apply returns_ret].
  apply poll_nothing.
  apply resolves_bind; [apply query_resolves | apply scan_tabs_rejected].
Qed.

Lemma extract_from_tab_rejected (tabId : Z) (artifactId : string) (maxWaitMs : Z) :
  returns (extract_from_tab browser tabId artifactId maxWaitMs) JNull.
Proof.
  unfold extract_from_tab.
  apply (returns_bind _ _ tt); [apply returns_wait_for_load|].
  apply (returns_bind _ _ tt).
  { apply caught; [|intros; apply returns_ret].
    apply rejects_bind, inject_rejects. }
  apply resolves_bind; [apply resolves_gets|]. intros pollStart.
  apply (returns_bind _ _ None);
    [apply poll_nothing, try_all_frames_rejected|].
  apply (returns_bind _ _ None); [apply try_iframe_rejected|].
  apply (returns_bind _ _ None); [apply try_script_rejected|].
  apply returns_ret.
Qed.

Lemma extractDataFromBackgroundTab_rejected (nb artifactId : string) (maxWaitMs : Z) :
  returns (extractDataFromBackgroundTab browser nb artifactId maxWaitMs) JNull.
Proof.
  unfold extractDataFromBackgroundTab.
  apply resolves_bind.
  { intros s. unfold try_catch, bind, create, ret.
    destruct (tabs_create browser _ _); eexists; reflexivity. }
  intros [newTabId|]; [|apply returns_ret].
  apply (returns_bind _ _ JNull).
  { apply returns_try_catch, extract_from_tab_rejected. }
  apply (returns_bind _ _ tt); [|apply returns_ret].
  intros s. unfold try_catch, remove.
  destruct (tabs_remove browser _ _) as [[]|e]; reflexivity.
Qed.

End InjectionRejects.

Lemma extractors_no_tab (index : Z) (artifactId imageUrl : string) (maxWaitMs : Z) :
  no_notebook_tab browser ->
  Forall (fun entry => returns (snd (fst entry)) (snd entry))
         (query_extractors browser index artifactId imageUrl maxWaitMs).
Proof.
  intros H. unfold query_extractors.
  repeat constructor; cbn [fst snd];
    try (apply extract_with_no_tab; exact H).
  - unfold extractChatHistory.
    apply (returns_bind _ _ None); [apply findNotebookLMTab_no_tab, H|].
    apply returns_ret.
  - unfold openArtifactById.
    apply (returns_bind _ _ None); [apply findNotebookLMTab_no_tab, H|].
    apply returns_ret.
  - unfold fetchImageInNotebookTabContext. apply returns_try_catch.
    apply (returns_bind _ _ None); [apply findNotebookLMTab_no_tab, H|].
    apply returns_ret.
  - apply extractArtifactAppData_no_tab, H.
Qed.

Lemma extractors_rejected (index : Z) (nb artifactId imageUrl : string) (maxWaitMs : Z) :
  injection_rejects browser ->
  Forall (fun entry => returns (snd (fst entry)) (snd entry))
         (extractors browser index nb artifactId imageUrl maxWaitMs).
Proof.
  intros H. unfold extractors, query_extractors. cbn [app].
  repeat constructor; cbn [fst snd];
    try (apply extract_with_rejected; exact H).
  - unfold extractChatHistory.
    apply resolves_bind; [apply findNotebookLMTab_resolves, H|]. intros tab.
    destruct (usable_id tab) as [tabId|]; [|apply returns_ret].
    apply caught; [|intros; apply returns_ret].
    apply rejects_bind, inject_rejects, H.
  - unfold openArtifactById.
    apply resolves_bind; [apply findNotebookLMTab_resolves, H|]. intros tab.
    destruct (usable_id tab) as [tabId|]; [|apply returns_ret].
    apply resolves_bind; [apply query_resolves, H|]. intros tabsBefore.
    apply caught; [|intros; apply returns_ret].
    apply rejects_bind, inject_rejects, H.
  - unfold fetchImageInNotebookTabContext.
    intros s. unfold try_catch, bind.
    destruct (findNotebookLMTab_resolves H s) as [tab Htab].
    destruct (findNotebookLMTab browser s) as [[x|e] s1]; cbn in Htab;
      [|discriminate].
    destruct (usable_id x) as [tabId|]; [|reflexivity].
    destruct (inject_rejects H tabId "fetch image in page" [JStr imageUrl] s1)
      as [e He].
    destruct (inject browser tabId _ _ s1) as [[r|e'] s2]; cbn in He;
      [discriminate | reflexivity].
  - apply extractArtifactAppData_rejected, H.
  - apply extractDataFromBackgroundTab_rejected, H.
Qed.

End ExtractorFacts.

(** C8.  Every extraction function returns the empty value it
    declares -- [[]], [null] or [false] -- and throws nothing, from
    whatever state it is called and whatever its arguments, when its
    tab acquisition fails or script injection rejects.  For the nine
    functions that look for an open NotebookLM tab, tab acquisition
    fails when no such tab exists, whether or not a tab could be
    created; for [extractDataFromBackgroundTab], which works in a tab
    of its own, it fails when that tab cannot be created.  When script
    injection rejects, all ten return their empty values. *)
Theorem extractors_return_empty :
  forall (browser : DOMExtractor.Browser) (index : Z)
         (notebookId artifactId imageUrl : string) (maxWaitMs : Z)
         (s : DOMExtractor.State),
    let empty_at (entry : string * M DOMExtractor.State json * json) :=
      fst (snd (fst entry) s) = Resolved (snd entry) in
    (DOMExtractor.no_notebook_tab browser ->
     Forall empty_at
       (DOMExtractor.query_extractors browser index artifactId imageUrl
          maxWaitMs)) /\
    (DOMExtractor.no_background_tab browser ->
     fst (DOMExtractor.extractDataFromBackgroundTab browser notebookId
            artifactId maxWaitMs s) = Resolved JNull) /\
    (DOMExtractor.injection_rejects browser ->
     Forall empty_at
       (DOMExtractor.extractors browser index notebookId artifactId
          imageUrl maxWaitMs)) /\
    DOMExtractor.extractors browser index notebookId artifactId imageUrl maxWaitMs
    = (DOMExtractor.query_extractors browser index artifactId imageUrl maxWaitMs
       ++ [("extractDataFromBackgroundTab",
            DOMExtractor.extractDataFromBackgroundTab browser notebookId
              artifactId maxWaitMs, JNull)])%list.
Proof.
  intros browser index nb aid url maxWaitMs s empty_at.
  split; [|split; [|split; [|reflexivity]]].
  - intros H. eapply Forall_impl; [|apply (extractors_no_tab browser); exact H].
    intros entry He. apply He.
  - intros H. apply (extractDataFromBackgroundTab_no_tab browser nb aid maxWaitMs H).
  - intros H. eapply Forall_impl; [|apply (extractors_rejected browser); exact H].
    intros entry He. apply He.
Qed.

Lemma extractors_return_empty_witness :
  DOMExtractor.no_notebook_tab Fixtures.browser_creating_tabs /\
  DOMExtractor.tabs_create Fixtures.browser_creating_tabs 0
    "https://notebooklm.google.com/notebook/nb"
  = Resolved (DOMExtractor.mkTab (Some 7)
                (Some "https://notebooklm.google.com/notebook/nb")) /\
  Forall (fun entry => fst (snd (fst entry) Fixtures.fresh_extractor)
                       = Resolved (snd entry))
         (DOMExtractor.query_extractors Fixtures.browser_creating_tabs 0
            "artifact" "https://example.com/i.png" 10000).
Proof.
  assert (H : DOMExtractor.no_notebook_tab Fixtures.browser_creating_tabs)
    by (intros n; reflexivity).
  split; [exact H|]. split; [reflexivity|].
  exact (proj1 (extractors_return_empty Fixtures.browser_creating_tabs 0
                  "nb" "artifact" "https://example.com/i.png" 10000
                  Fixtures.fresh_extractor) H).
Defined.
(** ** Facts about the upload queue *)

(** *** Operations that send no add-source request *)

Section RequestLog.

Import NotebookParser Service.
Local Open Scope js_scope.

Variable net : Network.
Variable P : Platform.

Lemma adds_nothing_ret {A} (a : A) : adds_nothing (ret a).
Proof. intros s. reflexivity. Qed.

Lemma adds_nothing_throw {A} (e : exn) : adds_nothing (@throw State A e).
Proof. intros s. reflexivity. Qed.

Lemma adds_nothing_gets {A} (f : State -> A) : adds_nothing (gets f).
Proof. intros s. reflexivity. Qed.

Lemma adds_nothing_lift {A} (o : outcome A) : adds_nothing (@lift_outcome State A o).
Proof. intros s. reflexivity. Qed.

Lemma adds_nothing_modify (f : State -> State) :
  (forall s, sent (f s) = sent s) -> adds_nothing (modify f).
Proof. intros Hf s. cbn. rewrite Hf. reflexivity. Qed.

Lemma adds_nothing_bind {A B} (m : M State A) (k : A -> M State B) :
  adds_nothing m -> (forall a, adds_nothing (k a)) -> adds_nothing (bind m k).
Proof.
  intros Hm Hk s. unfold bind. specialize (Hm s).
  destruct (m s) as [[a|e] s1]; cbn [snd] in *; [|exact Hm].
  rewrite (Hk a s1). exact Hm.
Qed.

Lemma adds_nothing_try_catch {A} (m : M State A) (h : exn -> M State A) :
  adds_nothing m -> (forall e, adds_nothing (h e)) -> adds_nothing (try_catch m h).
Proof.
  intros Hm Hh s. unfold try_catch. specialize (Hm s).
  destruct (m s) as [[a|e] s1]; cbn [snd] in *; [exact Hm|].
  rewrite (Hh e s1). exact Hm.
Qed.

Lemma adds_nothing_try_finally {A} (m : M State A) (f : State -> State) :
  adds_nothing m -> (forall s, sent (f s) = sent s) ->
  adds_nothing (try_finally m f).
Proof.
  intros Hm Hf s. unfold try_finally. specialize (Hm s).
  destruct (m s) as [r s1]. cbn [snd] in *. rewrite Hf. exact Hm.
Qed.

Lemma adds_nothing_fetch (c : Call) :
  is_add_source c = false -> adds_nothing (fetch net c).
Proof.
  intros Hc s. unfold fetch. cbn [snd sent].
  rewrite filter_app. cbn [filter]. rewrite Hc. apply app_nil_r.
Qed.

Lemma adds_nothing_getTokens (authuser : Z) : adds_nothing (getTokens net authuser).
Proof.
  unfold getTokens.
  apply adds_nothing_bind; [apply adds_nothing_gets | intros waiting].
  apply adds_nothing_bind; [apply adds_nothing_gets | intros cached].
  assert (H : adds_nothing
    (modify (fun s => mkState (tokens s) true (sent s)) ;;;
     try_finally
       (try_catch
          (response <- fetch net (FetchPage authuser) ;;
           if negb (ok response) && negb (opaqueredirect response)
           then throw (Error "Failed to fetch NotebookLM page")
           else
             html <- lift_outcome (body response) ;;
             match extractToken "cfb2h" html, extractToken "SNlM0e" html with
             | Some b, Some a =>
                 let t := mkTokens b a authuser in
                 modify (fun s => mkState (Some t) (isRefreshingTokens s) (sent s)) ;;;
                 ret t
             | _, _ =>
                 throw (Error "Not authorized. Please login to NotebookLM first.")
             end)
          (fun _ => throw (Error "Please login to NotebookLM first")))
       (fun s => mkState (tokens s) false (sent s)))).
  { apply adds_nothing_bind; [apply adds_nothing_modify; reflexivity | intros _].
    apply adds_nothing_try_finally; [|reflexivity].
    apply adds_nothing_try_catch; [|intros; apply adds_nothing_throw].
    apply adds_nothing_bind; [apply adds_nothing_fetch; reflexivity | intros r].
    destruct (negb (ok r) && negb (opaqueredirect r)); [apply adds_nothing_throw|].
    apply adds_nothing_bind; [apply adds_nothing_lift | intros html].
    destruct (extractToken "cfb2h" html), (extractToken "SNlM0e" html);
      try apply adds_nothing_throw.
    apply adds_nothing_bind; [apply adds_nothing_modify; reflexivity | intros _].
    apply adds_nothing_ret. }
  destruct waiting, cached; try exact H. apply adds_nothing_ret.
Qed.

Lemma adds_nothing_rpc (rpcId : string) (params : json) (path : string) :
  is_add_source (FetchRpc rpcId params path) = false ->
  adds_nothing (rpc net rpcId params path).
Proof.
  intros Hc. unfold rpc.
  apply adds_nothing_bind; [apply adds_nothing_gets | intros cached].
  apply adds_nothing_bind.
  { destruct cached; [apply adds_nothing_ret|].
    apply adds_nothing_bind; [apply adds_nothing_getTokens | intros; apply adds_nothing_ret]. }
  intros _.
  apply adds_nothing_bind; [apply adds_nothing_fetch, Hc | intros r].
  destruct (negb (ok r)); [apply adds_nothing_throw | apply adds_nothing_lift].
Qed.

Lemma adds_nothing_getNotebook (nb : string) : adds_nothing (getNotebook net P nb).
Proof.
  unfold getNotebook.
  apply adds_nothing_bind; [apply adds_nothing_rpc; reflexivity|].
  intros; apply adds_nothing_ret.
Qed.

End RequestLog.

Section QueueFacts.

Import NotebookParser Service UploadQueue.
Local Open Scope js_scope.

Variable env : Env.

(** *** Which entries an operation changes *)

Lemma touches_refl (i : string) (w : World) : touches i w w.
Proof.
  repeat split. induction (uploadQueue w); constructor; auto.
Qed.

Lemma touches_trans (i : string) (w1 w2 w3 : World) :
  touches i w1 w2 -> touches i w2 w3 -> touches i w1 w3.
Proof.
  intros [H12 [S12 P12]] [H23 [S23 P23]]. repeat split; try congruence.
  revert H23. generalize (uploadQueue w3). induction H12 as [|x y q q' [Hid Hx] _ IH];
    intros q3 H23; inversion H23 as [|y' z ? ? [Hid' Hy] Hrest]; subst; constructor.
  - split; [congruence|]. intros Hne. rewrite Hy, Hx; congruence.
  - apply IH. assumption.
Qed.

Lemma updateQueue_touches (q : list UploadItem) (i : string) (u : Updates) :
  Forall2 (fun x x' => id x' = id x /\ (id x <> i -> x' = x)) q (updateQueue q i u).
Proof.
  induction q as [|x q IH]; cbn; constructor; [|exact IH].
  destruct (String.eqb_spec (id x) i) as [E|E]; split; auto.
  intros Hne. contradiction.
Qed.

Lemma frames_ret {A} (i : string) (a : A) : frames i (ret a).
Proof. intros w. apply touches_refl. Qed.

Lemma frames_throw {A} (i : string) (e : exn) : frames i (@throw World A e).
Proof. intros w. apply touches_refl. Qed.

Lemma frames_gets {A} (i : string) (f : World -> A) : frames i (gets f).
Proof. intros w. apply touches_refl. Qed.

Lemma frames_read {A} (i : string) (f : World -> outcome A) :
  frames i (fun w => (f w, w)).
Proof. intros w. apply touches_refl. Qed.

Lemma frames_sleep (i : string) (ms : Z) : frames i (sleep ms).
Proof. intros w. apply touches_refl. Qed.

Lemma frames_call {A} (i : string) (m : M State A) : frames i (call m).
Proof.
  intros w. unfold call. destruct (m (service w)) as [r s'].
  repeat split. cbn. induction (uploadQueue w); constructor; auto.
Qed.

Lemma frames_update (i : string) (u : Updates) : frames i (updateQueueItem i u).
Proof.
  intros w. repeat split. cbn. apply updateQueue_touches.
Qed.

Lemma frames_bind {A B} (i : string) (m : M World A) (k : A -> M World B) :
  frames i m -> (forall a, frames i (k a)) -> frames i (bind m k).
Proof.
  intros Hm Hk w. unfold bind. specialize (Hm w).
  destruct (m w) as [[a|e] w1]; cbn [snd] in *; [|exact Hm].
  eapply touches_trans; [exact Hm | apply Hk].
Qed.

Lemma frames_try_catch {A} (i : string) (m : M World A) (h : exn -> M World A) :
  frames i m -> (forall e, frames i (h e)) -> frames i (try_catch m h).
Proof.
  intros Hm Hh w. unfold try_catch. specialize (Hm w).
  destruct (m w) as [[a|e] w1]; cbn [snd] in *; [exact Hm|].
  eapply touches_trans; [exact Hm | apply Hh].
Qed.

Ltac frame :=
  repeat first
    [ apply frames_ret | apply frames_throw | apply frames_gets
    | apply frames_sleep | apply frames_call | apply frames_update
    | apply frames_read
    | apply frames_bind; [|intros ?]
    | apply frames_try_catch; [|intros ?]
    | match goal with
      | |- frames _ (match ?x with _ => _ end) => destruct x
      | |- frames _ (if ?b then _ else _) => destruct b
      end ].

Lemma frames_waitForTextSource (i nb t : string) :
  frames i (waitForTextSource env nb t).
Proof. unfold waitForTextSource. frame. Qed.

Lemma frames_upload_chunks (item : UploadItem) (nb : string) :
  forall texts i n, frames (id item) (upload_chunks env nb item texts i n).
Proof.
  induction texts as [|t rest IH]; intros i n; cbn [upload_chunks].
  - apply frames_ret.
  - unfold update_chunk.
    apply frames_bind; [apply frames_call | intros _].
    apply frames_bind; [apply frames_update | intros _].
    apply frames_bind; [|intros _; apply IH].
    destruct (i <? n - 1); [|apply frames_ret].
    apply frames_bind; [apply frames_waitForTextSource | intros _; apply frames_sleep].
Qed.

Lemma frames_upload_page_chunks (item : UploadItem) (nb : string) :
  forall texts i n, frames (id item) (upload_page_chunks env nb item texts i n).
Proof.
  induction texts as [|t rest IH]; intros i n; cbn [upload_page_chunks].
  - apply frames_ret.
  - unfold update_chunk.
    apply frames_bind; [apply frames_call | intros _].
    apply frames_bind; [apply frames_update | intros _].
    apply frames_bind; [|intros _; apply IH].
    destruct (i <? n - 1); [apply frames_sleep | apply frames_ret].
Qed.

Lemma frames_upload_whole (i nb text t : string) :
  frames i (upload_whole env nb text t).
Proof.
  unfold upload_whole.
  apply frames_bind; [apply frames_call | intros _; apply frames_waitForTextSource].
Qed.

Lemma frames_processByType (item : UploadItem) (nb : string) :
  frames (id item) (processByType env nb item).
Proof.
  unfold processByType, start_chunks.
  destruct (type item).
  - (* page *)
    assert (Hc : frames (id item)
      match truthy_string (content item) with
      | Some c =>
          if Js.nonempty (Js.trim c) then
            if CHUNK_SIZE <? Js.len c then
              updateQueueItem (id item)
                (mkUpdates None None None (Some (count (chunk_texts c))) (Some 0)) ;;;
              upload_page_chunks env nb item (chunk_texts c) 0 (count (chunk_texts c))
            else upload_whole env nb c (title item)
          else throw (Error "Page URL or content not found")
      | None => throw (Error "Page URL or content not found")
      end).
    { destruct (truthy_string (content item)) as [c|]; [|apply frames_throw].
      destruct (Js.nonempty (Js.trim c)); [|apply frames_throw].
      destruct (CHUNK_SIZE <? Js.len c); [|apply frames_upload_whole].
      apply frames_bind; [apply frames_update|].
      intros _. apply frames_upload_page_chunks. }
    cbv zeta.
    destruct (truthy_string (url item)) as [u|]; [|exact Hc].
    destruct (negb (Js.startsWith u "chrome://")
              && negb (Js.startsWith u "chrome-extension://"));
      [apply frames_call | exact Hc].
  - (* selection *)
    apply frames_bind; [apply frames_read | intros sel; apply frames_upload_whole].
  - (* file *)
    destruct (file item) as [f|]; [|apply frames_throw].
    destruct (includes_code binaryExtensions (extension f)); [apply frames_call|].
    apply frames_bind; [apply frames_read | intros processed].
    destruct (needsChunking processed), (processed_chunks processed) as [cs|];
      try apply frames_upload_whole.
    apply frames_bind; [apply frames_update | intros _].
    apply frames_bind; [apply frames_upload_chunks | intros _].
    apply frames_waitForTextSource.
  - (* youtube *)
    apply frames_try_catch; [apply frames_call|].
    intros e. destruct (is_normal_rpc_error e); [apply frames_ret | apply frames_throw].
  - (* note *)
    cbv zeta.
    destruct (CHUNK_SIZE <? Js.len _); [|apply frames_upload_whole].
    apply frames_bind; [apply frames_update | intros _].
    apply frames_bind; [apply frames_upload_chunks | intros _].
    apply frames_waitForTextSource.
Qed.

Lemma frames_processItem (item : UploadItem) :
  frames (id item) (processItem env item).
Proof.
  unfold processItem, checkDuplicate, mark_done.
  apply frames_bind; [apply frames_gets | intros selected].
  destruct (target_notebook item selected) as [nb|]; [|apply frames_throw].
  apply frames_bind.
  { apply frames_try_catch; [|intros; apply frames_ret].
    apply frames_bind; [apply frames_call | intros; apply frames_ret]. }
  intros [|]; [apply frames_update|].
  apply frames_bind; [apply frames_update | intros _].
  apply frames_try_catch.
  - apply frames_bind; [apply frames_processByType | intros _; apply frames_update].
  - intros e. destruct (is_normal_rpc_error e); [apply frames_update | apply frames_throw].
Qed.

Lemma frames_processGuarded (item : UploadItem) :
  frames (id item) (processGuarded env item).
Proof.
  unfold processGuarded.
  apply frames_try_catch.
  - apply frames_bind; [apply frames_processItem | intros _; apply frames_sleep].
  - intros e. apply frames_update.
Qed.

(** *** Which entries an operation settles *)

Lemma touches_settled (i j : string) (w w' : World) :
  touches i w w' -> j <> i -> settled j w -> settled j w'.
Proof.
  intros [H _] Hne Hs. unfold settled in *.
  induction H as [|x x' q q' [Hid Hx] _ IH]; [constructor|].
  inversion Hs as [|? ? Hhd Htl]; subst. constructor; [|apply IH; exact Htl].
  intros Hj. destruct (String.eqb_spec (id x) i) as [E|E].
  - congruence.
  - rewrite (Hx E). apply Hhd. rewrite <- Hid, Hj. reflexivity.
Qed.

Lemma updateQueue_marks (q : list UploadItem) (i : string) (u : Updates) (st : Status) :
  set_status u = Some st ->
  Forall (fun x => id x = i ->
                   status x = st /\
                   error_message x = override (set_error u) (error_message x))
         (updateQueue q i u).
Proof.
  intros Hst. induction q as [|x q IH]; cbn; constructor; [|exact IH].
  destruct (String.eqb_spec (id x) i) as [E|E]; [|intros; contradiction].
  intros _. cbn. rewrite Hst. split; [reflexivity|].
  destruct (set_error u); reflexivity.
Qed.

Lemma settles_update (i : string) (u : Updates) (st : Status) :
  set_status u = Some st -> terminal st -> settles i (updateQueueItem i u).
Proof.
  intros Hst Ht w _. unfold settled, updateQueueItem, modify. cbn [snd uploadQueue].
  eapply Forall_impl; [|apply (updateQueue_marks _ i u st Hst)].
  cbn. intros x Hx E. destruct (Hx E) as [-> _]. exact Ht.
Qed.

Lemma settles_throw {A} (i : string) (e : exn) : settles i (@throw World A e).
Proof. intros w [a Ha]. discriminate Ha. Qed.

Lemma settles_bind {A B} (i : string) (m : M World A) (k : A -> M World B) :
  (forall a, settles i (k a)) -> settles i (bind m k).
Proof.
  intros Hk w [b Hb]. unfold bind in *.
  destruct (m w) as [[a|e] w1]; [|discriminate Hb].
  apply Hk. exists b. exact Hb.
Qed.

Lemma settles_try_catch {A} (i : string) (m : M World A) (h : exn -> M World A) :
  settles i m -> (forall e, settles i (h e)) -> settles i (try_catch m h).
Proof.
  intros Hm Hh w [a Ha]. unfold try_catch in *. specialize (Hm w).
  destruct (m w) as [[a'|e] w1].
  - apply Hm. exists a'. reflexivity.
  - apply Hh. exists a. exact Ha.
Qed.

Lemma settles_mark_done (item : UploadItem) : settles (id item) (mark_done item).
Proof.
  apply (settles_update _ _ done); [reflexivity | left; reflexivity].
Qed.

Lemma settles_processItem (item : UploadItem) :
  settles (id item) (processItem env item).
Proof.
  unfold processItem.
  apply settles_bind. intros selected.
  destruct (target_notebook item selected) as [nb|]; [|apply settles_throw].
  apply settles_bind. intros [|].
  - apply (settles_update _ _ error); [reflexivity | right; reflexivity].
  - apply settles_bind. intros _.
    apply settles_try_catch.
    + apply settles_bind. intros _. apply settles_mark_done.
    + intros e. destruct (is_normal_rpc_error e);
        [apply settles_mark_done | apply settles_throw].
Qed.

(** *** One turn of the loop of [processQueue] *)

Lemma processGuarded_resolves (item : UploadItem) (w : World) :
  fst (processGuarded env item w) = Resolved tt.
Proof.
  unfold processGuarded, try_catch.
  destruct ((processItem env item ;;; sleep QUEUE_DELAY_MS) w) as [[[]|e] w1];
    reflexivity.
Qed.

Lemma processGuarded_settles (item : UploadItem) (w : World) :
  settled (id item) (snd (processGuarded env item w)).
Proof.
  assert (H : settles (id item) (processGuarded env item)).
  { unfold processGuarded. apply settles_try_catch.
    - intros w0 [a Ha]. unfold bind, sleep, ret in *.
      pose proof (settles_processItem item w0) as Hs.
      destruct (processItem env item w0) as [[[]|e] w1]; [|discriminate Ha].
      apply Hs. exists tt. reflexivity.
    - intros e. apply (settles_update _ _ error); [reflexivity | right; reflexivity]. }
  apply H. exists tt. apply processGuarded_resolves.
Qed.

Lemma processGuarded_keeps_settled (item : UploadItem) (j : string) (w : World) :
  settled j w -> settled j (snd (processGuarded env item w)).
Proof.
  intros Hs. destruct (String.eqb_spec j (id item)) as [->|Hne].
  - apply processGuarded_settles.
  - eapply touches_settled; [apply frames_processGuarded | exact Hne | exact Hs].
Qed.

(** When [processItem] throws, the [catch] of the loop records the
    error on the entries of the item. *)
Lemma processGuarded_marks_failure (item : UploadItem) (w w1 : World) (e : exn) :
  processItem env item w = (Rejected e, w1) ->
  Forall (fun x => id x = id item ->
                   status x = error /\ error_message x = Some (message_of e))
         (uploadQueue (snd (processGuarded env item w))).
Proof.
  intros H. unfold processGuarded, try_catch, bind. rewrite H.
  unfold updateQueueItem, modify. cbn [snd uploadQueue].
  eapply Forall_impl;
    [|apply (updateQueue_marks _ (id item)
               (mkUpdates (Some error) None (Some (message_of e)) None None)
               error eq_refl)].
  cbn. intros x Hx E. exact (Hx E).
Qed.

(** *** The whole loop *)

Lemma forEach_resolves (items : list UploadItem) :
  forall w, fst (forEach env items w) = Resolved tt.
Proof.
  induction items as [|item rest IH]; intros w; cbn [forEach]; [reflexivity|].
  unfold bind. pose proof (processGuarded_resolves item w) as H.
  destruct (processGuarded env item w) as [r w1]. cbn [fst] in H. subst r. apply IH.
Qed.

Lemma forEach_cons (item : UploadItem) (rest : list UploadItem) (w : World) :
  forEach env (item :: rest) w
  = forEach env rest (snd (processGuarded env item w)).
Proof.
  cbn [forEach]. unfold bind. pose proof (processGuarded_resolves item w) as H.
  destruct (processGuarded env item w) as [r w1]. cbn [fst snd] in *. subst r.
  reflexivity.
Qed.

Lemma forEach_app (xs ys : list UploadItem) :
  forall w, forEach env (xs ++ ys)%list w = forEach env ys (snd (forEach env xs w)).
Proof.
  induction xs as [|x xs IH]; intros w; [reflexivity|].
  rewrite <- app_comm_cons, !forEach_cons. apply IH.
Qed.

Lemma forEach_keeps_settled (items : list UploadItem) (j : string) :
  forall w, settled j w -> settled j (snd (forEach env items w)).
Proof.
  induction items as [|item rest IH]; intros w Hs; [exact Hs|].
  rewrite forEach_cons. apply IH, processGuarded_keeps_settled, Hs.
Qed.

Lemma forEach_settles (items : list UploadItem) :
  forall w x, In x items -> settled (id x) (snd (forEach env items w)).
Proof.
  induction items as [|item rest IH]; intros w x Hin; [contradiction|].
  rewrite forEach_cons. destruct Hin as [->|Hin].
  - apply forEach_keeps_settled, processGuarded_settles.
  - apply IH, Hin.
Qed.

(** Entries whose id is not among the items of the loop are left as
    they are, and so are the selected notebook and the busy flag. *)
Lemma forEach_frames (items : list UploadItem) (i : string) :
  ~ In i (map id items) ->
  forall w,
    let w' := snd (forEach env items w) in
    Forall2 (fun x x' => id x' = id x /\ (id x = i -> x' = x))
            (uploadQueue w) (uploadQueue w') /\
    selectedNotebookId w' = selectedNotebookId w /\
    isProcessing w' = isProcessing w.
Proof.
  induction items as [|item rest IH]; intros Hni w.
  - cbn [forEach]. unfold ret. cbn [snd]. repeat split.
    induction (uploadQueue w); constructor; auto.
  - rewrite forEach_cons. cbn [map In] in Hni.
    destruct (IH (fun H => Hni (or_intror H)) (snd (processGuarded env item w)))
      as [Hq [Hs Hp]].
    destruct (frames_processGuarded item w) as [Hq0 [Hs0 Hp0]].
    cbv zeta. repeat split; try congruence.
    revert Hq. generalize (uploadQueue (snd (forEach env rest (snd (processGuarded env item w))))).
    induction Hq0 as [|x y q q' [Hid Hx] _ IHq]; intros q3 Hq;
      inversion Hq as [|y' z ? ? [Hid' Hy] Hrest]; subst; constructor.
    + split; [congruence|]. intros E. rewrite Hy by congruence.
      apply Hx. intros E'. apply Hni. left. congruence.
    + apply IHq. assumption.
Qed.

Lemma touches_ids (i : string) (w w' : World) :
  touches i w w' -> map id (uploadQueue w') = map id (uploadQueue w).
Proof.
  intros [H _]. induction H as [|x x' q q' [Hid _] _ IH]; [reflexivity|].
  cbn [map]. rewrite Hid, IH. reflexivity.
Qed.

Lemma forEach_ids (items : list UploadItem) :
  forall w,
    map id (uploadQueue (snd (forEach env items w))) = map id (uploadQueue w) /\
    isProcessing (snd (forEach env items w)) = isProcessing w.
Proof.
  induction items as [|item rest IH]; intros w; [split; reflexivity|].
  rewrite forEach_cons.
  destruct (IH (snd (processGuarded env item w))) as [Hq Hp].
  pose proof (frames_processGuarded item w) as Ht.
  rewrite Hq, Hp, (touches_ids _ _ _ Ht). destruct Ht as [_ [_ Ht]].
  split; [reflexivity | exact Ht].
Qed.

(** [processQueue] on an idle queue: the busy flag is raised, the
    loop runs over the pending items, the flag is lowered. *)
Lemma processQueue_idle (w : World) :
  isProcessing w = false ->
  processQueue env w
  = set_processing false
      (snd (forEach env (filter is_pending (uploadQueue w))
                    (snd (set_processing true w)))).
Proof.
  intros Hidle.
  pose proof (forEach_resolves (filter is_pending (uploadQueue w))
                (snd (set_processing true w))) as H.
  unfold processQueue, bind, gets. rewrite Hidle.
  unfold set_processing, modify in *. cbn [fst snd uploadQueue] in *.
  destruct (forEach env _ _) as [r w1]. cbn [fst snd] in *. subst r. reflexivity.
Qed.

(** C6.  One failure never halts the queue.  An idle queue is run
    whose pending items are [before], then [item], then [after], and
    [processItem] throws [e] on [item].  Then the run returns
    normally and lowers the busy flag; right after its turn every
    entry of the failing item has status error and, as its error
    message, the message of [e] when [e] is an [Error] and the text
    [Unknown error] when something else was thrown, and still has
    them at the end of the run when no later item shares its id; the
    run goes on over all the items of [after], the turn of each of
    them returns normally and leaves its entries in a terminal status;
    and at the end of the run the entries of every pending item are in
    a terminal status (done or error). *)
Theorem processQueue_continues_after_failure
        (w : World) (before after : list UploadItem) (item : UploadItem) (e : exn) :
  isProcessing w = false ->
  filter is_pending (uploadQueue w) = (before ++ item :: after)%list ->
  let w1 := snd (forEach env before (snd (set_processing true w))) in
  fst (processItem env item w1) = Rejected e ->
  let w2 := snd (processGuarded env item w1) in
  let w' := snd (processQueue env w) in
  let marked x :=
    id x = id item ->
    status x = error /\
    error_message x = Some (match e with
                            | Error message => message
                            | NonError _ => "Unknown error"
                            end) in
  processQueue env w = set_processing false (snd (forEach env after w2)) /\
  fst (processQueue env w) = Resolved tt /\
  isProcessing w' = false /\
  map id (uploadQueue w') = map id (uploadQueue w) /\
  Forall marked (uploadQueue w2) /\
  (~ In (id item) (map id after) -> Forall marked (uploadQueue w')) /\
  (forall mid x rest,
      after = (mid ++ x :: rest)%list ->
      let wa := snd (forEach env mid w2) in
      fst (processGuarded env x wa) = Resolved tt /\
      settled (id x) (snd (processGuarded env x wa)) /\
      forEach env after w2 = forEach env rest (snd (processGuarded env x wa))) /\
  (forall x, In x (before ++ item :: after)%list -> settled (id x) w').
Proof.
  intros Hidle Hpending w1 Hfail w2 w' marked.
  assert (Hrun : processQueue env w
                 = set_processing false (snd (forEach env after w2))).
  { rewrite (processQueue_idle w Hidle), Hpending, forEach_app, forEach_cons.
    reflexivity. }
  assert (Hmarked : Forall marked (uploadQueue w2)).
  { destruct (processItem env item w1) as [r wK] eqn:E. cbn [fst] in Hfail.
    subst r. exact (processGuarded_marks_failure item w1 wK e E). }
  subst w'. rewrite Hrun. unfold set_processing, modify.
  cbn [fst snd isProcessing uploadQueue].
  split; [reflexivity|]. split; [reflexivity|]. split; [reflexivity|].
  split.
  { destruct (forEach_ids after w2) as [-> _].
    subst w2. rewrite (touches_ids _ _ _ (frames_processGuarded item w1)).
    subst w1. destruct (forEach_ids before (snd (set_processing true w))) as [-> _].
    reflexivity. }
  split; [exact Hmarked|]. split; [|split].
  - intros Hfresh.
    destruct (forEach_frames after (id item) Hfresh w2) as [Hq _].
    revert Hq Hmarked. generalize (uploadQueue (snd (forEach env after w2))).
    generalize (uploadQueue w2). intros q q' Hq.
    induction Hq as [|x x' q q' [Hid Hx] _ IH]; intros Hm; [constructor|].
    inversion Hm as [|? ? Hhd Htl]; subst. constructor; [|apply IH; exact Htl].
    intros E. rewrite Hid in E. rewrite (Hx E). apply Hhd, E.
  - intros mid x rest ->. cbv zeta. split; [apply processGuarded_resolves|].
    split; [apply processGuarded_settles|].
    rewrite forEach_app, forEach_cons. reflexivity.
  - intros x Hin. unfold settled. cbn [uploadQueue].
    change (settled (id x) (snd (forEach env after w2))).
    apply in_app_or in Hin. destruct Hin as [Hin|[<-|Hin]].
    + apply forEach_keeps_settled, processGuarded_keeps_settled.
      apply forEach_settles, Hin.
    + apply forEach_keeps_settled, processGuarded_settles.
    + apply forEach_settles, Hin.
Qed.

(** *** The duplicate check *)

Lemma titleMatch_found (notebook : NotebookDetails) (t : string) (source : Source) :
  Js.nonempty t = true ->
  In source (sources notebook) ->
  NotebookParser.title source = t \/
  normalized (NotebookParser.title source) = normalized t ->
  titleMatch notebook t = true.
Proof.
  intros Ht Hin Heq. unfold titleMatch, some. rewrite Ht. cbn [andb].
  apply existsb_exists. exists source. split; [exact Hin|].
  apply Bool.orb_true_iff.
  destruct Heq as [E|E]; [left | right]; apply String.eqb_eq; exact E.
Qed.

(** C7, as amended.  An item with a non-empty title is processed for
    a notebook whose listing, fetched by the duplicate check, has a
    source with the same title, or with a title that is equal after
    lower-casing and trimming.  Then [processItem] returns normally,
    the only change to the queue is that the entries of the item get
    status error, progress 0 and the message
    [Source already exists in notebook], which contains
    [already exists], and no add-source request is sent. *)
Theorem duplicate_title_is_rejected
        (item : UploadItem) (w : World) (nb : string)
        (notebook : NotebookDetails) (s' : State) :
  Js.nonempty (title item) = true ->
  target_notebook item (selectedNotebookId w) = Some nb ->
  getNotebook (net env) (platform env) nb (service w) = (Resolved notebook, s') ->
  (exists source,
      In source (sources notebook) /\
      (NotebookParser.title source = title item \/
       normalized (NotebookParser.title source) = normalized (title item))) ->
  let w' := snd (processItem env item w) in
  processItem env item w
  = (Resolved tt,
     mkWorld (updateQueue (uploadQueue w) (id item)
                (mkUpdates (Some error) (Some (inject_Z 0)) (Some already_exists)
                           None None))
             (selectedNotebookId w) (isProcessing w) s') /\
  Forall (fun x => id x = id item ->
                   status x = error /\ error_message x = Some already_exists)
         (uploadQueue w') /\
  Js.includes already_exists "already exists" = true /\
  add_source_requests w' = add_source_requests w.
Proof.
  intros Ht Hnb Hget [source [Hin Heq]] w'.
  assert (Hrun : processItem env item w
    = (Resolved tt,
       mkWorld (updateQueue (uploadQueue w) (id item)
                  (mkUpdates (Some error) (Some (inject_Z 0)) (Some already_exists)
                             None None))
               (selectedNotebookId w) (isProcessing w) s')).
  { unfold processItem, bind at 1, gets. rewrite Hnb.
    unfold bind at 1, checkDuplicate, try_catch, bind at 1, call. rewrite Hget.
    unfold ret, isDuplicateIn.
    rewrite (titleMatch_found notebook (title item) source Ht Hin Heq).
    reflexivity. }
  subst w'. rewrite Hrun. cbn [snd uploadQueue].
  split; [reflexivity|]. split; [|split].
  - eapply Forall_impl;
      [|apply (updateQueue_marks _ (id item)
                 (mkUpdates (Some error) (Some (inject_Z 0)) (Some already_exists)
                            None None) error eq_refl)].
    cbn [set_error override]. intros x Hx E. exact (Hx E).
  - reflexivity.
  - unfold add_source_requests. cbn [service].
    pose proof (adds_nothing_getNotebook (net env) (platform env) nb (service w)) as H.
    rewrite Hget in H. exact H.
Qed.

End QueueFacts.

Lemma processQueue_continues_after_failure_witness :
  UploadQueue.isProcessing Fixtures.page_then_note = false /\
  fst (UploadQueue.processItem Fixtures.quiet_env Fixtures.blank_page
         (snd (UploadQueue.set_processing true Fixtures.page_then_note)))
  = Rejected (Error "Page URL or content not found") /\
  fst (UploadQueue.processQueue Fixtures.quiet_env Fixtures.page_then_note)
  = Resolved tt /\
  (exists x rest,
      UploadQueue.uploadQueue
        (snd (UploadQueue.processQueue Fixtures.quiet_env Fixtures.page_then_note))
      = x :: rest /\
      UploadQueue.id x = "item-1" /\
      UploadQueue.status x = UploadQueue.error /\
      UploadQueue.error_message x = Some "Page URL or content not found") /\
  UploadQueue.settled "item-2"
    (snd (UploadQueue.processQueue Fixtures.quiet_env Fixtures.page_then_note)).
Proof.
  pose proof (processQueue_continues_after_failure Fixtures.quiet_env
                Fixtures.page_then_note [] [Fixtures.greeting]
                Fixtures.blank_page (Error "Page URL or content not found")
                eq_refl eq_refl eq_refl) as H.
  cbv zeta in H. destruct H as [_ [Hres [_ [Hids [_ [Hmarked [_ Hall]]]]]]].
  split; [reflexivity|]. split; [reflexivity|]. split; [exact Hres|]. split.
  - assert (Hfresh : ~ In (UploadQueue.id Fixtures.blank_page)
                        (map UploadQueue.id [Fixtures.greeting])).
    { intros [H|[]]. discriminate. }
    specialize (Hmarked Hfresh).
    destruct (UploadQueue.uploadQueue
                (snd (UploadQueue.processQueue Fixtures.quiet_env
                        Fixtures.page_then_note))) as [|x rest];
      [discriminate|].
    injection Hids as Hid _. inversion Hmarked as [|? ? Hx _]; subst.
    exists x, rest. split; [reflexivity|]. split; [exact Hid|]. exact (Hx Hid).
  - apply (Hall Fixtures.greeting). right. left. reflexivity.
Defined.

Lemma duplicate_title_is_rejected_witness :
  Js.nonempty (UploadQueue.title Fixtures.report) = true /\
  UploadQueue.normalized "report "
  = UploadQueue.normalized (UploadQueue.title Fixtures.report) /\
  map UploadQueue.status
      (UploadQueue.uploadQueue
         (snd (UploadQueue.processItem (Fixtures.listing_env "report ")
                 Fixtures.report
                 (Fixtures.queue_world [Fixtures.report] "nb-1"))))
  = [UploadQueue.error] /\
  UploadQueue.add_source_requests
    (snd (UploadQueue.processItem (Fixtures.listing_env "report ")
            Fixtures.report (Fixtures.queue_world [Fixtures.report] "nb-1")))
  = [].
Proof.
  assert (Hget :
    Service.getNotebook
      (UploadQueue.net (Fixtures.listing_env "report "))
      (UploadQueue.platform (Fixtures.listing_env "report ")) "nb-1"
      (UploadQueue.service (Fixtures.queue_world [Fixtures.report] "nb-1"))
    = (Resolved
         (NotebookParser.mkDetails (JStr "nb-1") (JStr "Notebook")
            [NotebookParser.mkSource "source-1" "report " "text" 2 None (Int 2)]),
       Service.mkState (Service.tokens Fixtures.logged_in) false
         [Service.notebook_request "nb-1"])).
  { vm_compute. reflexivity. }
  destruct (duplicate_title_is_rejected (Fixtures.listing_env "report ")
              Fixtures.report (Fixtures.queue_world [Fixtures.report] "nb-1")
              "nb-1" _ _ eq_refl eq_refl Hget) as [Hrun [_ [_ Hsent]]].
  { eexists. split; [left; reflexivity|]. right. reflexivity. }
  split; [reflexivity|]. split; [reflexivity|]. split.
  - rewrite Hrun. reflexivity.
  - rewrite Hsent. reflexivity.
Defined.

(** The claim C7 as stated fails when the notebook cannot be fetched
    at the moment of the check.  The notebook has a source titled
    Report: every answer of the network but the first is its listing.
    The item is a note titled Report.  The request of the duplicate
    check is the first one and fails; the check answers false, on
    purpose, and the note is uploaded: one add-source request is sent
    and the item ends with status done. *)
Lemma duplicate_is_uploaded_when_listing_fails :
  Js.nonempty (UploadQueue.title Fixtures.report) = true /\
  (forall n c,
      UploadQueue.net (Fixtures.flaky_listing_env "Report") (S n) c
      = Resolved (Service.mkResponse true 200 false
                    (Resolved Fixtures.listing_line))) /\
  (exists source,
      In source
         (NotebookParser.sources
            (NotebookParser.parseNotebookDetails
               (UploadQueue.platform (Fixtures.flaky_listing_env "Report"))
               Fixtures.listing_line)) /\
      NotebookParser.title source = UploadQueue.title Fixtures.report) /\
  fst (Service.getNotebook
         (UploadQueue.net (Fixtures.flaky_listing_env "Report"))
         (UploadQueue.platform (Fixtures.flaky_listing_env "Report")) "nb-1"
         (UploadQueue.service (Fixtures.queue_world [Fixtures.report] "nb-1")))
  = Rejected (Error "Failed to fetch") /\
  map UploadQueue.status
      (UploadQueue.uploadQueue
         (snd (UploadQueue.processItem (Fixtures.flaky_listing_env "Report")
                 Fixtures.report
                 (Fixtures.queue_world [Fixtures.report] "nb-1"))))
  = [UploadQueue.done] /\
  UploadQueue.add_source_requests
    (snd (UploadQueue.processItem (Fixtures.flaky_listing_env "Report")
            Fixtures.report (Fixtures.queue_world [Fixtures.report] "nb-1")))
  = [Service.add_request "nb-1" "Report" "Quarterly figures"].
Proof.
  split; [reflexivity|]. split; [intros n c; reflexivity|].
  split; [eexists; split; [left; reflexivity | reflexivity]|].
  split; [vm_compute; reflexivity|].
  split; vm_compute; reflexivity.
Qed.

(** The title of the item has to be non-empty as well.  The notebook
    lists a source whose title is one space, so the two titles are
    equal after lower-casing and trimming; the duplicate check looks
    at titles only when the title of the item is not empty, so the
    note is uploaded: one add-source request is sent and the item ends
    with status done. *)
Lemma empty_title_is_not_checked :
  (exists notebook s',
      Service.getNotebook
        (UploadQueue.net (Fixtures.listing_env " "))
        (UploadQueue.platform (Fixtures.listing_env " ")) "nb-1"
        (UploadQueue.service (Fixtures.queue_world [Fixtures.untitled] "nb-1"))
      = (Resolved notebook, s') /\
      exists source,
        In source (NotebookParser.sources notebook) /\
        UploadQueue.normalized (NotebookParser.title source)
        = UploadQueue.normalized (UploadQueue.title Fixtures.untitled)) /\
  map UploadQueue.status
      (UploadQueue.uploadQueue
         (snd (UploadQueue.processItem (Fixtures.listing_env " ")
                 Fixtures.untitled
                 (Fixtures.queue_world [Fixtures.untitled] "nb-1"))))
  = [UploadQueue.done] /\
  UploadQueue.add_source_requests
    (snd (UploadQueue.processItem (Fixtures.listing_env " ")
            Fixtures.untitled (Fixtures.queue_world [Fixtures.untitled] "nb-1")))
  = [Service.FetchRpc "izAoDd"
       (JArr [JArr [Service.text_source "" "Quarterly figures"]; JStr "nb-1"])
       (Service.notebook_path "nb-1")].
Proof.
  split; [|split; vm_compute; reflexivity].
  eexists. eexists. split; [vm_compute; reflexivity|].
  eexists. split; [left; reflexivity|]. vm_compute. reflexivity.
Qed.

(** *** A long note on a server that accepts everything *)

Section ChunkedNote.

Import NotebookParser Service UploadQueue.
Local Open Scope js_scope.

Variable env : Env.
Variable reply : string.

(** Every request is answered with status 200 and the body [reply],
    in which the parser finds no source. *)
Hypothesis net_accepts :
  forall n c, net env n c = Resolved (mkResponse true 200 false (Resolved reply)).
Hypothesis no_sources :
  sources (parseNotebookDetails (platform env) reply) = [].

Lemma logs_ret {A} (a : A) (Q : A -> Prop) : Q a -> logs (ret a) [] Q.
Proof.
  intros Ha w Hw. exists a, w. rewrite app_nil_r. auto.
Qed.

Lemma logs_bind {A B} (m : M World A) (k : A -> M World B)
      (cs1 cs2 : list Call) (Q1 : A -> Prop) (Q2 : B -> Prop) :
  logs m cs1 Q1 -> (forall a, Q1 a -> logs (k a) cs2 Q2) ->
  logs (bind m k) (cs1 ++ cs2) Q2.
Proof.
  intros Hm Hk w Hw. destruct (Hm w Hw) as [a [w1 [E1 [Ha [Hw1 Hs1]]]]].
  destruct (Hk a Ha w1 Hw1) as [b [w2 [E2 [Hb [Hw2 Hs2]]]]].
  exists b, w2. unfold bind. rewrite E1, E2, Hs2, Hs1, app_assoc. auto.
Qed.

Lemma logs_try_catch {A} (m : M World A) (h : exn -> M World A)
      (cs : list Call) (Q : A -> Prop) :
  logs m cs Q -> logs (try_catch m h) cs Q.
Proof.
  intros Hm w Hw. destruct (Hm w Hw) as [a [w1 [E1 H]]].
  exists a, w1. unfold try_catch. rewrite E1. auto.
Qed.

Lemma logs_update (i : string) (u : Updates) :
  logs (updateQueueItem i u) [] (fun _ => True).
Proof.
  intros w Hw. eexists. eexists. split; [reflexivity|].
  cbn [service]. rewrite app_nil_r. auto.
Qed.

Lemma logs_sleep (ms : Z) : logs (sleep ms) [] (fun _ => True).
Proof. apply logs_ret. exact I. Qed.

Lemma rpc_accepted (rpcId : string) (params : json) (path : string) (s : State) :
  tokens s <> None ->
  rpc (net env) rpcId params path s
  = (Resolved reply,
     mkState (tokens s) (isRefreshingTokens s)
             (sent s ++ [FetchRpc rpcId params path])).
Proof.
  intros Hs. destruct (tokens s) as [t|] eqn:Ht; [|contradiction].
  rewrite (rpc_cached (net env) rpcId params path s t Ht), net_accepts, Ht.
  reflexivity.
Qed.

Lemma logs_addTextSource (nb text t : string) :
  logs (call (addTextSource (net env) nb text t)) [add_request nb t text]
       (fun _ => True).
Proof.
  intros w Hw. unfold call, addTextSource, bind.
  rewrite (rpc_accepted _ _ _ _ Hw).
  assert (E : forall s0 : State,
    (if Js.includes reply error_marker
     then match errorMatch reply with
          | Some errorCode =>
              if negb (includes_code normalErrorCodes_text errorCode)
              then ret tt else ret tt
          | None => ret tt
          end
     else ret tt) s0 = (Resolved tt, s0)).
  { intros s0. destruct (Js.includes reply error_marker); [|reflexivity].
    destruct (errorMatch reply) as [code|]; [|reflexivity].
    destruct (negb (includes_code normalErrorCodes_text code)); reflexivity. }
  rewrite E. eexists. eexists. split; [reflexivity|].
  cbn [service tokens sent]. auto.
Qed.

Lemma logs_getNotebook (nb : string) :
  logs (call (getNotebook (net env) (platform env) nb)) [notebook_request nb]
       (fun notebook => sources notebook = []).
Proof.
  intros w Hw. unfold call, getNotebook, bind.
  rewrite (rpc_accepted _ _ _ _ Hw). unfold ret.
  eexists. eexists. split; [reflexivity|].
  cbn [service tokens sent]. auto.
Qed.

Lemma logs_waitForTextSource (nb t : string) :
  logs (waitForTextSource env nb t) [notebook_request nb] (fun _ => True).
Proof.
  unfold waitForTextSource.
  apply (logs_bind _ _ [] [notebook_request nb] (fun _ => True));
    [apply logs_sleep | intros _ _].
  apply logs_try_catch.
  apply (logs_bind _ _ [notebook_request nb] [] (fun n => sources n = []));
    [apply logs_getNotebook | intros; apply logs_ret; exact I].
Qed.

Lemma logs_upload_chunks (item : UploadItem) (nb : string) :
  forall texts i n,
    logs (upload_chunks env nb item texts i n)
         (chunk_log nb (title item) texts i n) (fun _ => True).
Proof.
  induction texts as [|t rest IH]; intros i n; cbn [upload_chunks chunk_log].
  - apply logs_ret. exact I.
  - apply (logs_bind _ _ [add_request nb (partTitle (title item) i n) t]
             ((if i <? n - 1 then [notebook_request nb] else [])
              ++ chunk_log nb (title item) rest (i + 1) n)
             (fun _ => True));
      [apply logs_addTextSource | intros _ _].
    apply (logs_bind _ _ [] _ (fun _ => True));
      [apply logs_update | intros _ _].
    apply (logs_bind _ _ _ _ (fun _ => True)); [|intros _ _; apply IH].
    destruct (i <? n - 1); [|apply logs_ret; exact I].
    apply (logs_bind _ _ [notebook_request nb] [] (fun _ => True));
      [apply logs_waitForTextSource | intros _ _; apply logs_sleep].
Qed.

Lemma chunk_log_interleaved (nb t : string) :
  forall texts i n,
    texts <> [] -> i + count texts = n ->
    (chunk_log nb t texts i n ++ [notebook_request nb])%list
    = flat_map (fun r => [r; notebook_request nb]) (add_requests nb t texts i n).
Proof.
  induction texts as [|x rest IH]; intros i n Hne Hn; [contradiction|].
  cbn [chunk_log add_requests flat_map].
  destruct rest as [|y rest].
  - unfold count in Hn. cbn [List.length] in Hn.
    replace (i <? n - 1) with false by (symmetry; apply Z.ltb_ge; lia).
    reflexivity.
  - unfold count in Hn. cbn [List.length] in Hn.
    replace (i <? n - 1) with true by (symmetry; apply Z.ltb_lt; lia).
    rewrite <- (IH (i + 1) n); [reflexivity | discriminate|].
    unfold count. cbn [List.length]. lia.
Qed.

Lemma filter_interleaved (nb t : string) :
  forall texts i n,
    filter is_add_source
      (flat_map (fun r => [r; notebook_request nb]) (add_requests nb t texts i n))
    = add_requests nb t texts i n.
Proof.
  induction texts as [|x rest IH]; intros i n; [reflexivity|].
  cbn [add_requests flat_map app filter]. rewrite IH. reflexivity.
Qed.

Lemma add_requests_length (nb t : string) :
  forall texts i n, List.length (add_requests nb t texts i n) = List.length texts.
Proof.
  induction texts as [|x rest IH]; intros i n; [reflexivity|].
  cbn [add_requests List.length]. rewrite IH. reflexivity.
Qed.

Lemma add_requests_nth (nb t : string) :
  forall texts i n k text,
    nth_error texts k = Some text ->
    nth_error (add_requests nb t texts i n) k
    = Some (add_request nb (partTitle t (i + Z.of_nat k) n) text).
Proof.
  induction texts as [|x rest IH]; intros i n [|k] text H; try discriminate.
  - cbn in H. injection H as ->. cbn [add_requests nth_error].
    rewrite Z.add_0_r. reflexivity.
  - cbn [add_requests nth_error] in *. rewrite (IH (i + 1) n k text H).
    replace (i + 1 + Z.of_nat k) with (i + Z.of_nat (S k)) by lia. reflexivity.
Qed.

Lemma isDuplicateIn_empty (notebook : NotebookDetails) (item : UploadItem) :
  sources notebook = [] -> isDuplicateIn env notebook item = false.
Proof.
  intros H. unfold isDuplicateIn, titleMatch, some. rewrite H. cbn [existsb].
  rewrite Bool.andb_false_r.
  destruct (type item); try (destruct (truthy_string (url item)); reflexivity);
    destruct (negb (Js.nonempty (title item))); reflexivity.
Qed.

Lemma logs_checkDuplicate (nb : string) (item : UploadItem) :
  logs (checkDuplicate env nb item) [notebook_request nb] (fun b => b = false).
Proof.
  unfold checkDuplicate. apply logs_try_catch.
  apply (logs_bind _ _ [notebook_request nb] [] (fun n => sources n = []));
    [apply logs_getNotebook | intros notebook Hn].
  apply logs_ret, isDuplicateIn_empty, Hn.
Qed.

(** The requests of a note that is longer than the chunk size. *)
Lemma logs_long_note (item : UploadItem) (T nb : string) :
  type item = Note -> content item = Some T -> (CHUNK_SIZE <? Js.len T) = true ->
  logs (processByType env nb item)
       (chunk_log nb (title item) (chunk_texts T) 0 (count (chunk_texts T))
        ++ [notebook_request nb])
       (fun _ => True).
Proof.
  intros Htype Hcontent Hlong. unfold processByType.
  rewrite Htype, Hcontent. cbv zeta. rewrite Hlong.
  apply (logs_bind _ _ [] _ (fun _ => True)); [apply logs_update | intros _ _].
  apply (logs_bind _ _ _ _ (fun _ => True));
    [apply logs_upload_chunks | intros _ _; apply logs_waitForTextSource].
Qed.

Lemma logs_processItem_long_note (item : UploadItem) (T nb : string) (w : World) :
  type item = Note -> content item = Some T -> (CHUNK_SIZE <? Js.len T) = true ->
  target_notebook item (selectedNotebookId w) = Some nb ->
  signed_in w ->
  exists w',
    processItem env item w = (Resolved tt, w') /\
    sent (service w')
    = (sent (service w)
       ++ [notebook_request nb]
       ++ chunk_log nb (title item) (chunk_texts T) 0 (count (chunk_texts T))
       ++ [notebook_request nb])%list.
Proof.
  intros Htype Hcontent Hlong Hnb Hw.
  unfold processItem, bind at 1, gets. rewrite Hnb.
  assert (H : logs
    (isDuplicate <- checkDuplicate env nb item ;;
     if isDuplicate : bool then
       updateQueueItem (id item)
         (mkUpdates (Some error) (Some (inject_Z 0)) (Some already_exists)
                    None None)
     else
       updateQueueItem (id item)
         (mkUpdates (Some processing) (Some (inject_Z 0)) None None None) ;;;
       try_catch
         (processByType env nb item ;;; mark_done item)
         (fun e => if is_normal_rpc_error e then mark_done item else throw e))
    ([notebook_request nb]
     ++ chunk_log nb (title item) (chunk_texts T) 0 (count (chunk_texts T))
     ++ [notebook_request nb])
    (fun _ => True)).
  { apply (logs_bind _ _ _ _ (fun b => b = false));
      [apply logs_checkDuplicate | intros b ->].
    apply (logs_bind _ _ [] _ (fun _ => True)); [apply logs_update | intros _ _].
    apply logs_try_catch.
    rewrite <- (app_nil_r (_ ++ [notebook_request nb])).
    apply (logs_bind _ _ _ [] (fun _ => True));
      [apply (logs_long_note item T nb Htype Hcontent Hlong) | intros _ _].
    apply logs_update. }
  destruct (H w Hw) as [[] [w' [E [_ [_ Hs]]]]].
  exists w'. split; [exact E | exact Hs].
Qed.

(** C2.  What the code does with a note of exactly 500,000
    characters, on a server that accepts every request and lists no
    source (chunk size 225,000, overlap 1,000).  The splitter yields
    1,003 chunks, not 3.  [processItem] returns normally after
    sending one notebook look-up (the duplicate check) and then, for
    each of the 1,003 parts in turn, one add-source request followed
    by one notebook look-up; part [k + 1] carries the chunk [k] and
    the title of the item followed by [(Part k+1/1003)], from
    [(Part 1/1003)] to [(Part 1003/1003)]. *)
Theorem long_note_is_sent_in_1003_parts
        (item : UploadItem) (T nb : string) (w : World) :
  type item = Note -> content item = Some T -> Js.len T = 500000 ->
  target_notebook item (selectedNotebookId w) = Some nb ->
  signed_in w ->
  let parts := chunk_texts T in
  let requests := add_requests nb (title item) parts 0 1003 in
  (CHUNK_SIZE = 225000 /\ TextSplitter.default_chunkOverlap = 1000) /\
  List.length (TextSplitter.splitText CHUNK_SIZE TextSplitter.default_chunkOverlap T)
  = 1003%nat /\
  (exists w',
      processItem env item w = (Resolved tt, w') /\
      sent (service w')
      = (sent (service w)
         ++ notebook_request nb
            :: flat_map (fun r => [r; notebook_request nb]) requests)%list /\
      add_source_requests w' = (add_source_requests w ++ requests)%list) /\
  List.length requests = 1003%nat /\
  (forall k text,
      nth_error parts k = Some text ->
      nth_error requests k
      = Some (add_request nb (partTitle (title item) (Z.of_nat k) 1003) text)) /\
  partTitle (title item) 0 1003 = (title item ++ " (Part 1/1003)")%string /\
  partTitle (title item) 1002 1003 = (title item ++ " (Part 1003/1003)")%string.
Proof.
  intros Htype Hcontent Hlen Hnb Hw parts requests.
  assert (Hsplit : List.length
            (TextSplitter.splitText CHUNK_SIZE TextSplitter.default_chunkOverlap T)
          = 1003%nat) by exact (splitText_500000 T Hlen).
  assert (Hparts : List.length parts = 1003%nat).
  { unfold parts, chunk_texts. rewrite length_map. exact Hsplit. }
  assert (Hcount : count parts = 1003).
  { unfold count. rewrite Hparts. reflexivity. }
  assert (Hlong : (CHUNK_SIZE <? Js.len T) = true) by (rewrite Hlen; reflexivity).
  split; [split; reflexivity|]. split; [exact Hsplit|]. split; [|split; [|split]].
  - destruct (logs_processItem_long_note item T nb w Htype Hcontent Hlong Hnb Hw)
      as [w' [Hrun Hsent]].
    fold parts in Hsent. rewrite Hcount in Hsent.
    rewrite (chunk_log_interleaved nb (title item) parts 0 1003) in Hsent.
    + exists w'. split; [exact Hrun|]. split; [exact Hsent|].
      unfold add_source_requests. rewrite Hsent, filter_app. f_equal.
      cbn [filter]. change (is_add_source (notebook_request nb)) with false.
      cbv iota. apply filter_interleaved.
    + intros E. rewrite E in Hparts. discriminate Hparts.
    + rewrite Hcount. reflexivity.
  - unfold requests. rewrite add_requests_length. exact Hparts.
  - intros k text Hk. unfold requests.
    rewrite (add_requests_nth nb (title item) parts 0 1003 k text Hk).
    reflexivity.
  - split; reflexivity.
Qed.

End ChunkedNote.

Lemma long_note_is_sent_in_1003_parts_witness :
  Js.len (Fixtures.text_of_length 500000) = 500000 /\
  List.length
    (TextSplitter.splitText UploadQueue.CHUNK_SIZE TextSplitter.default_chunkOverlap
       (Fixtures.text_of_length 500000))
  = 1003%nat /\
  UploadQueue.partTitle (UploadQueue.title Fixtures.long_note) 1002 1003
  = "Book (Part 1003/1003)".
Proof.
  assert (Hlen : Js.len (Fixtures.text_of_length 500000) = 500000).
  { vm_compute. reflexivity. }
  assert (Hin : UploadQueue.signed_in
                  (Fixtures.queue_world [Fixtures.long_note] "nb-1")).
  { discriminate. }
  pose proof (long_note_is_sent_in_1003_parts Fixtures.quiet_env ""
                (fun _ _ => eq_refl) eq_refl
                Fixtures.long_note (Fixtures.text_of_length 500000) "nb-1"
                (Fixtures.queue_world [Fixtures.long_note] "nb-1")
                eq_refl eq_refl Hlen eq_refl Hin) as H.
  cbv zeta in H. destruct H as [_ [Hsplit [_ [_ [_ [_ Hlast]]]]]].
  split; [exact Hlen|]. split; [exact Hsplit | exact Hlast].
Defined.
(** ** Further properties of the text splitter *)

Section SplitterShape.

(** The last chunk of a run of the loop with a positive overlap. *)
Lemma splitLoop_last (T : string) (sz ov : Z) :
  1 <= sz -> 1 <= ov ->
  forall (fuel : nat) (start idx : Z) (cs : list Chunk),
    splitLoop fuel T sz ov start idx = Some cs ->
    0 <= start < Js.len T ->
    exists front c,
      cs = (front ++ [c])%list /\
      TextSplitter.start c = Js.len T - 1 /\ end_ c = Js.len T.
Proof.
  intros Hsz Hov. induction fuel as [|fuel IH]; intros start idx cs H Hs.
  - cbn [splitLoop] in H. rewrite (proj2 (Z.ltb_lt _ _) (proj2 Hs)) in H.
    discriminate.
  - destruct (splitLoop_step _ _ _ _ _ _ _ H (proj2 Hs)) as [f' [cs' [Hf [-> Hrest]]]].
    injection Hf as <-.
    pose proof (chunkEnd_bounds T sz start Hsz Hs) as [[Hb1 Hb2] _].
    set (e := chunkEnd T sz start) in *.
    destruct (Z.lt_ge_cases (nextStart start e ov) (Js.len T)) as [Hlt|Hge].
    + destruct (IH _ _ _ Hrest) as [front [c [-> [Hc1 Hc2]]]].
      { pose proof (nextStart_progress start e ov). lia. }
      exists (mkChunk (Js.substring T start e) idx start e :: front), c.
      split; [reflexivity | split; assumption].
    + rewrite splitLoop_done in Hrest by exact Hge. injection Hrest as <-.
      exists [], (mkChunk (Js.substring T start e) idx start e).
      split; [reflexivity|]. cbn. unfold nextStart in Hge. lia.
Qed.

End SplitterShape.

(** The chunk at position [i] carries the index [i]. *)
Lemma splitText_indices (T : string) (chunkSize chunkOverlap : Z) :
  forall i c,
    nth_error (splitText chunkSize chunkOverlap T) i = Some c ->
    index c = Z.of_nat i.
Proof.
  destruct (splitText_runs T chunkSize chunkOverlap) as [cs [Hf [Hs _]]].
  rewrite Hs. clear Hs. unfold splitTextFuel in Hf.
  destruct (Js.len T <=? chunkSize) eqn:E.
  - injection Hf as <-.
    intros [|i] c Hi; cbn in Hi; [injection Hi as <-; reflexivity|].
    destruct i; discriminate.
  - intros i c Hi.
    rewrite (splitLoop_indices T chunkSize chunkOverlap _ _ _ _ Hf i c Hi). lia.
Qed.

(** X1.  For every text and every chunk size that is not negative,
    [splitText] returns at least one chunk, the first chunk starts at
    position 0, and the chunk at position [i] of the result carries
    the index [i]. *)
Theorem splitText_indices_from_zero (T : string) (chunkSize chunkOverlap : Z) :
  0 <= chunkSize ->
  (exists c rest,
      splitText chunkSize chunkOverlap T = c :: rest /\
      TextSplitter.start c = 0) /\
  (forall i c,
      nth_error (splitText chunkSize chunkOverlap T) i = Some c ->
      index c = Z.of_nat i).
Proof.
  intros Hsz.
  destruct (splitText_runs T chunkSize chunkOverlap) as [cs [Hf [Hs _]]].
  rewrite Hs. clear Hs. unfold splitTextFuel in Hf.
  destruct (Js.len T <=? chunkSize) eqn:E.
  - injection Hf as <-. split.
    + eexists. eexists. split; reflexivity.
    + intros [|i] c Hi; cbn in Hi; [injection Hi as <-; reflexivity|].
      destruct i; discriminate.
  - apply Z.leb_gt in E. split.
    + destruct (splitLoop_step _ _ _ _ _ _ _ Hf ltac:(lia)) as [f' [cs' [_ [-> _]]]].
      eexists. eexists. split; reflexivity.
    + intros i c Hi.
      rewrite (splitLoop_indices T chunkSize chunkOverlap _ _ _ _ Hf i c Hi). lia.
Qed.

Lemma splitText_indices_from_zero_witness :
  0 <= 5 /\
  forall i c,
    nth_error (splitText 5 1 "hello world foo bar") i = Some c ->
    index c = Z.of_nat i.
Proof.
  split; [lia|].
  exact (proj2 (splitText_indices_from_zero "hello world foo bar" 5 1 ltac:(lia))).
Defined.

(** X2.  With a chunk size of at least 1 and an overlap of at least
    1, the last chunk of a text longer than the chunk size is the
    last character of the text alone: the loop goes on, one character
    at a time, after the chunk that first reached the end. *)
Theorem splitText_ends_with_last_character (T : string) (chunkSize chunkOverlap : Z) :
  1 <= chunkSize -> 1 <= chunkOverlap -> chunkSize < Js.len T ->
  exists front c,
    splitText chunkSize chunkOverlap T = (front ++ [c])%list /\
    TextSplitter.start c = Js.len T - 1 /\
    end_ c = Js.len T /\
    TextSplitter.text c = Js.substring T (Js.len T - 1) (Js.len T).
Proof.
  intros Hsz Hov Hlong.
  destruct (splitText_runs T chunkSize chunkOverlap) as [cs [Hf [Hs _]]].
  rewrite Hs. clear Hs. unfold splitTextFuel in Hf.
  rewrite (proj2 (Z.leb_gt _ _) Hlong) in Hf.
  destruct (splitLoop_last T chunkSize chunkOverlap Hsz Hov _ _ _ _ Hf ltac:(lia))
    as [front [c [-> [Hc1 Hc2]]]].
  exists front, c. split; [reflexivity|]. split; [exact Hc1|]. split; [exact Hc2|].
  pose proof (splitLoop_chunks T chunkSize chunkOverlap _ _ _ _ Hf ltac:(lia)) as Hall.
  apply Forall_app in Hall. destruct Hall as [_ Hc].
  inversion Hc as [|? ? [_ [_ Ht]] _]; subst. rewrite Ht, Hc1, Hc2. reflexivity.
Qed.

Lemma splitText_ends_with_last_character_witness :
  1 <= 5 /\ 1 <= 1 /\ 5 < Js.len "hello world foo bar" /\
  exists front c,
    splitText 5 1 "hello world foo bar" = (front ++ [c])%list /\
    TextSplitter.text c = "r".
Proof.
  destruct (splitText_ends_with_last_character "hello world foo bar" 5 1
              ltac:(lia) ltac:(lia) ltac:(reflexivity))
    as [front [c [H1 [_ [_ H4]]]]].
  split; [lia|]. split; [lia|]. split; [reflexivity|].
  exists front, c. split; [exact H1 | exact H4].
Defined.
(** ** Further properties of the service *)

Section ServiceMore.

Import NotebookParser Service.
Local Open Scope js_scope.

Lemma prefix_self_app (p : string) : forall r, String.prefix p (p ++ r) = true.
Proof.
  induction p as [|c p IH]; intros r; cbn; [destruct r; reflexivity|].
  destruct (ascii_dec c c); [apply IH | contradiction].
Qed.

Lemma skip_self_app (p : string) : forall r, Js.skip (String.length p) (p ++ r) = r.
Proof. induction p as [|c p IH]; intros r; cbn; [destruct r; reflexivity | apply IH]. Qed.

Lemma prefix_then_prefix (p q : string) : forall s,
  String.prefix p s = true ->
  String.prefix q (Js.skip (String.length p) s) = true ->
  String.prefix (p ++ q) s = true.
Proof.
  induction p as [|c p IH]; intros s Hp Hq; [destruct s; exact Hq|].
  destruct s as [|d s]; cbn in *; [discriminate|].
  destruct (ascii_dec c d); [|discriminate]. apply IH; assumption.
Qed.

Lemma includes_prefix (s pat : string) :
  String.prefix pat s = true -> Js.includes s pat = true.
Proof. intros H. destruct s; cbn [Js.includes]; rewrite H; reflexivity. Qed.

Lemma includes_tail (c : ascii) (s pat : string) :
  Js.includes s pat = true -> Js.includes (String c s) pat = true.
Proof. intros H. cbn [Js.includes]. rewrite H. apply orb_true_r. Qed.

(** The group of digits that [span_digits] takes is a run of digits. *)
Lemma span_digits_idem : forall s d r,
  Js.span_digits s = (d, r) -> Js.span_digits d = (d, ""%string).
Proof.
  induction s as [|c s IH]; intros d r H; cbn [Js.span_digits] in H.
  - injection H as <- _. reflexivity.
  - destruct (Js.is_digit c) eqn:E.
    + destruct (Js.span_digits s) as [d' r'] eqn:E'. injection H as <- _.
      cbn [Js.span_digits]. rewrite E, (IH d' r' eq_refl). reflexivity.
    + injection H as <- _. reflexivity.
Qed.

Lemma match_digits_sound (pre post : string) : forall s d,
  Js.match_digits pre post s = Some d ->
  Js.nonempty d = true /\ Js.span_digits d = (d, ""%string).
Proof.
  induction s as [|c s IH]; intros d H; cbn [Js.match_digits] in H.
  - destruct (String.prefix pre "") ; [|discriminate].
    destruct (Js.span_digits _) as [d' r'] eqn:E.
    destruct (Js.nonempty d' && String.prefix post r') eqn:E2; [|discriminate].
    injection H as <-. apply andb_true_iff in E2.
    split; [apply E2 | exact (span_digits_idem _ _ _ E)].
  - destruct (String.prefix pre (String c s)).
    + destruct (Js.span_digits _) as [d' r'] eqn:E.
      destruct (Js.nonempty d' && String.prefix post r') eqn:E2.
      * injection H as <-. apply andb_true_iff in E2.
        split; [apply E2 | exact (span_digits_idem _ _ _ E)].
      * apply IH, H.
    + apply IH, H.
Qed.

(** A literal followed by a run of digits is matched at its head. *)
Lemma match_digits_head (pre d : string) :
  Js.nonempty d = true -> Js.span_digits d = (d, ""%string) ->
  Js.match_digits pre "" (pre ++ d) = Some d.
Proof.
  intros Hne Hd.
  assert (H : (if String.prefix pre (pre ++ d)
               then let (d', r) := Js.span_digits (Js.skip (String.length pre) (pre ++ d)) in
                    if Js.nonempty d' && String.prefix "" r then Some d' else None
               else None) = Some d).
  { rewrite prefix_self_app, skip_self_app, Hd, Hne. reflexivity. }
  destruct (pre ++ d)%string; cbn [Js.match_digits]; rewrite H; reflexivity.
Qed.

Variable net : Network.

(** X3.  [addSource] for a URL or a non-blank text, when the service
    has its tokens and the call returns a response with an error
    marker that carries [code]: it completes if and only if [code] is
    one of 139, 140, 141, 412, 466, 496, 497, 536, 537, 552, 553, and
    for every other code it throws an error whose message is
    [RPC returned error code: ] followed by the code. *)
Theorem addSource_completes_iff_code_listed
        (nb : string) (content : Content) (s : State) (t : Tokens)
        (st : Z) (rd : bool) (response code : string) :
  tokens s = Some t ->
  (forall c, net (List.length (sent s)) c =
             Resolved (mkResponse true st rd (Resolved response))) ->
  errorMatch response = Some code ->
  content_type content = url_type \/
  (content_type content = text_type /\
   Js.nonempty (Js.trim (or_default (content_content content) "")) = true) ->
  (fst (addSource net nb content s) = Resolved tt <->
   In code ["139"; "140"; "141"; "412"; "466"; "496"; "497";
            "536"; "537"; "552"; "553"]%string) /\
  (fst (addSource net nb content s) <> Resolved tt ->
   fst (addSource net nb content s)
   = Rejected (Error ("RPC returned error code: " ++ code))).
Proof.
  intros Ht Hnet Hm Hc.
  rewrite (addSource_by_code net nb content s t st rd response code Ht Hnet Hm Hc).
  assert (Hin : includes_code normalErrorCodes code = true <->
                In code normalErrorCodes).
  { unfold includes_code. rewrite existsb_exists. split.
    - intros [x [Hx Heq]]. apply String.eqb_eq in Heq. subst. exact Hx.
    - intros Hx. exists code. split; [exact Hx | apply String.eqb_refl]. }
  change ["139"; "140"; "141"; "412"; "466"; "496"; "497"; "536"; "537"; "552"; "553"]%string
    with normalErrorCodes.
  destruct (includes_code normalErrorCodes code) eqn:E.
  - split; [|congruence]. split; [intros _; apply Hin; reflexivity | reflexivity].
  - split; [|reflexivity]. split; [discriminate|].
    intros Hx. apply Hin in Hx. discriminate.
Qed.

(** X4.  [addTextSource] fails exactly when its RPC call fails, with
    the error of the call; whatever a response says (an error marker
    with any code, no source id), it returns normally, and the state
    it leaves is the one the call left. *)
Theorem addTextSource_fails_only_with_rpc (nb text title : string) (s : State) :
  addTextSource net nb text title s
  = (match fst (rpc net "izAoDd"
                    (JArr [JArr [text_source title text]; JStr nb])
                    (notebook_path nb) s) with
     | Resolved _ => Resolved tt
     | Rejected e => Rejected e
     end,
     snd (rpc net "izAoDd" (JArr [JArr [text_source title text]; JStr nb])
              (notebook_path nb) s)).
Proof.
  unfold addTextSource, bind.
  destruct (rpc net "izAoDd" _ _ s) as [[response|e] s1]; [|reflexivity].
  cbn [fst snd].
  destruct (Js.includes response error_marker); [|reflexivity].
  destruct (errorMatch response) as [code|]; [|reflexivity].
  destruct (negb (includes_code normalErrorCodes_text code)); reflexivity.
Qed.

(** X5.  An error that [addSource] throws after a successful call,
    for a URL or a text, is never one that the upload queue takes for
    a normal code: the queue's test for a listed code in the message
    of a thrown error fails on it. *)
Theorem addSource_error_is_never_normal
        (nb : string) (content : Content) (s : State) (t : Tokens)
        (st : Z) (rd : bool) (response : string) (e : exn) :
  tokens s = Some t ->
  (forall c, net (List.length (sent s)) c =
             Resolved (mkResponse true st rd (Resolved response))) ->
  content_type content <> file_type ->
  fst (addSource net nb content s) = Rejected e ->
  UploadQueue.is_normal_rpc_error e = false.
Proof.
  intros Ht Hnet Hc H.
  assert (Hcheck : forall s0,
            fst (check_addSource_response response s0) = Rejected e ->
            UploadQueue.is_normal_rpc_error e = false).
  { intros s0 H0. unfold check_addSource_response in H0.
    destruct (Js.includes response error_marker); [|discriminate].
    destruct (errorMatch response) as [code|] eqn:Em; [|discriminate].
    destruct (includes_code normalErrorCodes code) eqn:El; [discriminate|].
    change (@Rejected unit (Error ("RPC returned error code: " ++ code))
            = Rejected e) in H0.
    assert (He : e = Error ("RPC returned error code: " ++ code)) by congruence.
    rewrite He. clear H0 He.
    destruct (match_digits_sound _ _ _ _ Em) as [Hne Hd].
    change (UploadQueue.is_normal_rpc_error
              (Error ("RPC returned error code: " ++ code)))
      with (if Js.includes ("RPC returned error code: " ++ code)
                           "RPC returned error code:"
            then match Js.match_digits "RPC returned error code: " ""
                         ("RPC returned error code: " ++ code) with
                 | Some errorCode => includes_code normalErrorCodes errorCode
                 | None => false
                 end
            else false).
    rewrite (match_digits_head "RPC returned error code: " code Hne Hd), El.
    destruct (Js.includes _ _); reflexivity. }
  unfold addSource in H. destruct (content_type content); [| |contradiction].
  - destruct (negb (Js.nonempty (Js.trim (or_default (content_content content) "")))).
    + cbn in H. injection H as <-. reflexivity.
    + unfold bind in H. rewrite (rpc_cached _ _ _ _ _ _ Ht), Hnet in H.
      cbn [ok negb body] in H. exact (Hcheck _ H).
  - unfold bind in H. rewrite (rpc_cached _ _ _ _ _ _ Ht), Hnet in H.
    cbn [ok negb body] in H. exact (Hcheck _ H).
Qed.

End ServiceMore.

Lemma addSource_completes_iff_code_listed_witness :
  Service.errorMatch (Fixtures.marker_response "412") = Some "412"%string /\
  fst (Service.addSource (Fixtures.net_replying (Fixtures.marker_response "412"))
         "nb" (Fixtures.text_content "Title" "some text") Fixtures.logged_in)
  = Resolved tt.
Proof.
  assert (Hm : Service.errorMatch (Fixtures.marker_response "412") = Some "412"%string)
    by (vm_compute; reflexivity).
  split; [exact Hm|].
  apply (addSource_completes_iff_code_listed
           (Fixtures.net_replying (Fixtures.marker_response "412")) "nb"
           (Fixtures.text_content "Title" "some text") Fixtures.logged_in
           (Service.mkTokens "bl-token" "at-token" 0) 200 false
           (Fixtures.marker_response "412") "412" eq_refl (fun _ => eq_refl) Hm).
  - right. split; reflexivity.
  - cbn. tauto.
Defined.

Lemma addSource_error_is_never_normal_witness :
  fst (Service.addSource (Fixtures.net_replying (Fixtures.marker_response "999"))
         "nb" (Fixtures.text_content "Title" "some text") Fixtures.logged_in)
  = Rejected (Error "RPC returned error code: 999") /\
  UploadQueue.is_normal_rpc_error (Error "RPC returned error code: 999") = false.
Proof.
  assert (H : fst (Service.addSource
                     (Fixtures.net_replying (Fixtures.marker_response "999"))
                     "nb" (Fixtures.text_content "Title" "some text")
                     Fixtures.logged_in)
              = Rejected (Error "RPC returned error code: 999"))
    by (vm_compute; reflexivity).
  split; [exact H|].
  apply (addSource_error_is_never_normal
           (Fixtures.net_replying (Fixtures.marker_response "999")) "nb"
           (Fixtures.text_content "Title" "some text") Fixtures.logged_in
           (Service.mkTokens "bl-token" "at-token" 0) 200 false
           (Fixtures.marker_response "999") _ eq_refl (fun _ => eq_refl)).
  - discriminate.
  - exact H.
Defined.

Section TokenFacts.

Import NotebookParser Service.
Local Open Scope js_scope.

Lemma prefix_split (p : string) : forall s,
  String.prefix p s = true -> exists r, s = (p ++ r)%string.
Proof.
  induction p as [|c p IH]; intros s H; [exists s; reflexivity|].
  destruct s as [|d s]; cbn in H; [discriminate|].
  destruct (ascii_dec c d) as [->|]; [|discriminate].
  destruct (IH s H) as [r ->]. exists r. reflexivity.
Qed.

Lemma append_assoc (a b c : string) : ((a ++ b) ++ c = a ++ (b ++ c))%string.
Proof. induction a as [|x a IH]; cbn; [reflexivity | rewrite IH; reflexivity]. Qed.

(** What [until_quote] returns has no double quote, and when a double
    quote ended it, the text starts with it followed by the quote. *)
Lemma until_quote_sound : forall s v closed,
  until_quote s = (v, closed) ->
  ExportFormats.has_char Js.dquote v = false /\
  (closed = true -> String.prefix (v ++ quote) s = true).
Proof.
  induction s as [|c s IH]; intros v closed H; cbn [until_quote] in H.
  - injection H as <- <-. split; [reflexivity | discriminate].
  - destruct (Ascii.eqb c Js.dquote) eqn:E.
    + injection H as <- <-. split; [reflexivity|]. intros _.
      apply Ascii.eqb_eq in E. subst c. cbn. destruct s; reflexivity.
    + destruct (until_quote s) as [v' closed'] eqn:E'. injection H as <- <-.
      destruct (IH v' closed' eq_refl) as [Hv Hp]. split.
      * cbn [ExportFormats.has_char]. rewrite E, Hv. reflexivity.
      * intros Hc. cbn. destruct (ascii_dec c c); [apply Hp, Hc | contradiction].
Qed.

Lemma until_quote_complete : forall v r,
  ExportFormats.has_char Js.dquote v = false ->
  until_quote (v ++ quote ++ r) = (v, true).
Proof.
  induction v as [|c v IH]; intros r H; [reflexivity|].
  cbn [ExportFormats.has_char] in H. apply orb_false_iff in H. destruct H as [Hc Hv].
  cbn [append until_quote]. rewrite Hc, (IH r Hv). reflexivity.
Qed.

Lemma match_token_sound (pre : string) : forall html v,
  match_token pre html = Some v ->
  Js.nonempty v = true /\
  ExportFormats.has_char Js.dquote v = false /\
  Js.includes html (pre ++ v ++ quote) = true.
Proof.
  assert (Hhere : forall html v,
    (if String.prefix pre html
     then let (v0, closed) := until_quote (Js.skip (String.length pre) html) in
          if Js.nonempty v0 && closed then Some v0 else None
     else None) = Some v ->
    Js.nonempty v = true /\
    ExportFormats.has_char Js.dquote v = false /\
    String.prefix (pre ++ v ++ quote) html = true).
  { intros html v H. destruct (String.prefix pre html) eqn:Ep; [|discriminate].
    destruct (until_quote _) as [v0 closed] eqn:Eu.
    destruct (Js.nonempty v0 && closed) eqn:En; [|discriminate].
    injection H as <-. apply andb_true_iff in En. destruct En as [Hn Hc].
    destruct (until_quote_sound _ _ _ Eu) as [Hq Hp].
    split; [exact Hn|]. split; [exact Hq|].
    apply prefix_then_prefix; [exact Ep | apply Hp, Hc]. }
  induction html as [|c html IH]; intros v H; cbn [match_token] in H.
  - destruct (if String.prefix pre "" then _ else _) as [v0|] eqn:E; [|discriminate].
    injection H as <-. destruct (Hhere _ _ E) as [H1 [H2 H3]].
    split; [exact H1|]. split; [exact H2 | apply includes_prefix, H3].
  - destruct (if String.prefix pre (String c html) then _ else _) as [v0|] eqn:E.
    + injection H as <-. destruct (Hhere _ _ E) as [H1 [H2 H3]].
      split; [exact H1|]. split; [exact H2 | apply includes_prefix, H3].
    + destruct (IH v H) as [H1 [H2 H3]].
      split; [exact H1|]. split; [exact H2 | apply includes_tail, H3].
Qed.

Lemma match_token_complete (pre v : string) :
  Js.nonempty v = true -> ExportFormats.has_char Js.dquote v = false ->
  forall html,
    Js.includes html (pre ++ v ++ quote) = true ->
    match_token pre html <> None.
Proof.
  intros Hn Hq.
  assert (Hhere : forall html,
    String.prefix (pre ++ v ++ quote) html = true ->
    (if String.prefix pre html
     then let (v0, closed) := until_quote (Js.skip (String.length pre) html) in
          if Js.nonempty v0 && closed then Some v0 else None
     else None) = Some v).
  { intros html H. destruct (prefix_split _ _ H) as [r ->].
    rewrite !append_assoc, prefix_self_app, skip_self_app.
    rewrite (until_quote_complete v r Hq), Hn. reflexivity. }
  induction html as [|c html IH]; intros H; cbn [Js.includes match_token] in *.
  - rewrite orb_false_r in H. rewrite (Hhere _ H). discriminate.
  - destruct (String.prefix (pre ++ v ++ quote) (String c html)) eqn:E.
    + rewrite (Hhere _ E). discriminate.
    + cbn [orb] in H.
      destruct (if String.prefix pre (String c html) then _ else _);
        [discriminate | apply IH, H].
Qed.

(** X6.  [extractToken] finds a value exactly when the page contains
    the key in double quotes, a colon, and a non-empty value without
    double quotes in double quotes; the value it returns is not empty,
    has no double quote, and stands in the page in that form.  (The
    key is taken literally, as for the two keys of the service, which
    have no operator of regular expressions.) *)
Theorem extractToken_finds_quoted_value (key html : string) :
  (forall v,
      extractToken key html = Some v ->
      Js.nonempty v = true /\
      ExportFormats.has_char Js.dquote v = false /\
      Js.includes html (quote ++ key ++ quote ++ ":" ++ quote ++ v ++ quote) = true) /\
  (extractToken key html = None ->
   forall v,
     Js.nonempty v = true -> ExportFormats.has_char Js.dquote v = false ->
     Js.includes html (quote ++ key ++ quote ++ ":" ++ quote ++ v ++ quote) = false).
Proof.
  assert (Ha : forall v,
    (quote ++ key ++ quote ++ ":" ++ quote ++ v ++ quote
     = (quote ++ key ++ quote ++ ":" ++ quote) ++ v ++ quote)%string).
  { intros v. rewrite !append_assoc. reflexivity. }
  unfold extractToken. split.
  - intros v H. rewrite Ha. exact (match_token_sound _ _ _ H).
  - intros H v Hn Hq. rewrite Ha.
    destruct (Js.includes html _) eqn:E; [|reflexivity].
    exfalso. exact (match_token_complete _ v Hn Hq html E H).
Qed.

Variable net : Network.

(** The two ways out of [getTokens] when it does fetch the page. *)
Lemma getTokens_cases (authuser : Z) (s : State) :
  isRefreshingTokens s = false \/ tokens s = None ->
  let r := getTokens net authuser s in
  isRefreshingTokens (snd r) = false /\
  sent (snd r) = (sent s ++ [FetchPage authuser])%list /\
  ((exists t, fst r = Resolved t /\ tokens (snd r) = Some t /\
              Service.authuser t = authuser /\
              Js.nonempty (bl t) = true /\ Js.nonempty (at_ t) = true) \/
   (fst r = Rejected (Error "Please login to NotebookLM first") /\
    tokens (snd r) = tokens s)).
Proof.
  intros Hentry. cbv zeta.
  unfold getTokens, bind, gets, modify, try_finally, try_catch, fetch, throw,
    ret, lift_outcome.
  destruct (isRefreshingTokens s) eqn:Ew, (tokens s) as [t0|] eqn:Et;
    [destruct Hentry; discriminate | | |];
    cbn [fst snd tokens sent isRefreshingTokens];
    (destruct (net (List.length (sent s)) (FetchPage authuser)) as [response|e];
       [|cbn; auto]);
    (destruct (negb (ok response) && negb (opaqueredirect response)); [cbn; auto|]);
    (destruct (body response) as [html|e]; [|cbn; auto]);
    (destruct (extractToken "cfb2h" html) as [b|] eqn:Eb; [|cbn; auto]);
    (destruct (extractToken "SNlM0e" html) as [a|] eqn:Ea; [|cbn; auto]);
    cbn [fst snd tokens sent isRefreshingTokens];
    (split; [reflexivity|]); (split; [reflexivity|]); left;
    exists (mkTokens b a authuser);
    (split; [reflexivity|]); (split; [reflexivity|]); (split; [reflexivity|]);
    (split; [exact (proj1 (match_token_sound _ _ _ Eb))
            | exact (proj1 (match_token_sound _ _ _ Ea))]).
Qed.

(** X7.  [getTokens], entered while no refresh is flagged or no
    tokens are cached, sends exactly one request for the page and
    leaves the refresh flag lowered.  Either it returns tokens, both
    not empty, for the account asked for, and has cached them; or it
    throws [Please login to NotebookLM first], whatever went wrong,
    and the cached tokens are as before. *)
Theorem getTokens_outcomes (authuser : Z) (s : State) :
  isRefreshingTokens s = false \/ tokens s = None ->
  let r := getTokens net authuser s in
  isRefreshingTokens (snd r) = false /\
  sent (snd r) = (sent s ++ [FetchPage authuser])%list /\
  ((exists t, fst r = Resolved t /\ tokens (snd r) = Some t /\
              Service.authuser t = authuser /\
              Js.nonempty (bl t) = true /\ Js.nonempty (at_ t) = true) \/
   (fst r = Rejected (Error "Please login to NotebookLM first") /\
    tokens (snd r) = tokens s)).
Proof. exact (getTokens_cases authuser s). Qed.

(** [rpc] without cached tokens, in terms of [getTokens]. *)
Lemma rpc_uncached (rpcId : string) (params : json) (path : string) (s : State) :
  tokens s = None ->
  rpc net rpcId params path s
  = match getTokens net 0 s with
    | (Resolved _, s1) =>
        (match net (List.length (sent s1)) (FetchRpc rpcId params path) with
         | Resolved response =>
             if negb (ok response)
             then Rejected (Error ("RPC call failed: "
                                   ++ Js.decimal (http_status response)))
             else body response
         | Rejected e => Rejected e
         end,
         mkState (tokens s1) (isRefreshingTokens s1)
                 (sent s1 ++ [FetchRpc rpcId params path]))
    | (Rejected e, s1) => (Rejected e, s1)
    end.
Proof.
  intros Ht. unfold rpc, bind, gets, ret, fetch, throw, lift_outcome. rewrite Ht.
  destruct (getTokens net 0 s) as [[t|e] s1]; [|reflexivity].
  destruct (net _ _) as [response|e]; [|reflexivity].
  destruct (negb (ok response)); reflexivity.
Qed.

(** X8.  [rpc] called while no tokens are cached first asks for the
    page.  When that gives no tokens, it throws
    [Please login to NotebookLM first] and the RPC request itself is
    never sent; otherwise the tokens are cached and the RPC request
    is the one request sent after the page.  In both cases the
    refresh flag is lowered afterwards. *)
Theorem rpc_without_tokens (rpcId : string) (params : json) (path : string)
        (s : State) :
  tokens s = None ->
  let r := rpc net rpcId params path s in
  isRefreshingTokens (snd r) = false /\
  ((fst r = Rejected (Error "Please login to NotebookLM first") /\
    sent (snd r) = (sent s ++ [FetchPage 0])%list /\
    tokens (snd r) = None) \/
   (exists t,
       tokens (snd r) = Some t /\
       sent (snd r) = (sent s ++ [FetchPage 0; FetchRpc rpcId params path])%list)).
Proof.
  intros Ht. cbv zeta.
  destruct (getTokens_cases 0 s (or_intror Ht)) as [Hflag [Hsent Hcases]].
  rewrite (rpc_uncached rpcId params path s Ht).
  destruct (getTokens net 0 s) as [[t|e] s1]; cbn [fst snd] in *.
  - destruct Hcases as [[t' [_ [Htok _]]] | [Hbad _]]; [|discriminate].
    cbn [isRefreshingTokens tokens sent].
    split; [exact Hflag|]. right. exists t'. rewrite Hsent, <- app_assoc.
    split; [exact Htok | reflexivity].
  - destruct Hcases as [[t' [Hbad _]] | [He Htok]]; [discriminate|].
    split; [exact Hflag|]. left. rewrite Htok, Ht.
    assert (E : e = Error "Please login to NotebookLM first") by congruence.
    rewrite E. auto.
Qed.

End TokenFacts.

Lemma extractToken_finds_quoted_value_witness :
  Service.extractToken "SNlM0e" MoreFixtures.token_page = Some "AFsession" /\
  Js.includes MoreFixtures.token_page
    (Service.quote ++ "SNlM0e" ++ Service.quote ++ ":" ++ Service.quote
     ++ "AFsession" ++ Service.quote) = true.
Proof.
  assert (H : Service.extractToken "SNlM0e" MoreFixtures.token_page
              = Some "AFsession") by (vm_compute; reflexivity).
  split; [exact H|].
  exact (proj2 (proj2 (proj1 (extractToken_finds_quoted_value "SNlM0e"
                                MoreFixtures.token_page) "AFsession" H))).
Defined.

Lemma getTokens_outcomes_witness :
  fst (Service.getTokens (Fixtures.net_replying MoreFixtures.token_page) 0
         MoreFixtures.signed_out)
  = Resolved (Service.mkTokens "boq_labs_1" "AFsession" 0) /\
  Service.sent
    (snd (Service.getTokens (Fixtures.net_replying MoreFixtures.token_page) 0
            MoreFixtures.signed_out))
  = [Service.FetchPage 0].
Proof.
  split; [vm_compute; reflexivity|].
  exact (proj1 (proj2 (getTokens_outcomes
                         (Fixtures.net_replying MoreFixtures.token_page) 0
                         MoreFixtures.signed_out (or_introl eq_refl)))).
Defined.

Lemma rpc_without_tokens_witness :
  Service.tokens MoreFixtures.signed_out = None /\
  Service.isRefreshingTokens
    (snd (Service.rpc (Fixtures.net_replying "") "rLM1Ne" (JArr []) "/"
            MoreFixtures.signed_out))
  = false.
Proof.
  split; [reflexivity|].
  exact (proj1 (rpc_without_tokens (Fixtures.net_replying "") "rLM1Ne" (JArr [])
                  "/" MoreFixtures.signed_out eq_refl)).
Defined.

(** ** Properties of the further service operations *)

Section ServiceOpsFacts.

Import NotebookParser Service ServiceOps.
Local Open Scope js_scope.

(** *** Recognisers that consume a fixed number of characters *)

Lemma reads_hex_run (n : nat) : reads n (hex_run n).
Proof.
  induction n as [|n IH]; intros s r H; cbn [hex_run] in H.
  - injection H as <-. exists ""%string. repeat split.
  - destruct s as [|c s]; [discriminate|].
    destruct (is_hex c) eqn:E; [|discriminate].
    destruct (IH s r H) as [h [-> [Hl Hh]]].
    exists (String c h). split; [reflexivity|]. split; [cbn; lia|].
    intros r'. cbn [append hex_run]. rewrite E. apply Hh.
Qed.

Lemma reads_dash : reads 1 dash.
Proof.
  intros s r H. destruct s as [|c s]; [discriminate|]. cbn [dash] in H.
  destruct (Ascii.eqb c "-") eqn:E.
  - apply Ascii.eqb_eq in E. subst c. cbn in H. injection H as <-.
    exists "-"%string. repeat split.
  - exfalso. revert H E. clear.
    destruct c as [[] [] [] [] [] [] [] []]; cbn; congruence.
Qed.

Lemma reads_and_then (n m : nat) (f g : string -> option string) :
  reads n f -> reads m g -> reads (n + m) (fun s => and_then (f s) g).
Proof.
  intros Hf Hg s r H. cbv beta in H.
  destruct (f s) as [r1|] eqn:E1; [|discriminate]. cbn [and_then] in H.
  destruct (Hf s r1 E1) as [h1 [-> [Hl1 Hh1]]].
  destruct (Hg r1 r H) as [h2 [-> [Hl2 Hh2]]].
  exists (h1 ++ h2)%string. split; [symmetry; apply append_assoc|].
  split.
  - rewrite <- Hl1, <- Hl2. clear. induction h1; cbn; [reflexivity | lia].
  - intros r'. cbv beta. rewrite append_assoc, Hh1. cbn [and_then]. apply Hh2.
Qed.

Lemma reads_uuid :
  reads 36 (fun s => and_then (and_then (and_then (and_then (hex_group 8 s)
              (hex_group 4)) (hex_group 4)) (hex_group 4)) (hex_run 12)).
Proof.
  assert (Hg : forall n, reads (n + 1) (hex_group n)).
  { intros n. exact (reads_and_then n 1 _ _ (reads_hex_run n) reads_dash). }
  exact (reads_and_then 24 12 _ _
           (reads_and_then 19 5 _ _
              (reads_and_then 14 5 _ _
                 (reads_and_then 9 5 _ _ (Hg 8%nat) (Hg 4%nat)) (Hg 4%nat))
              (Hg 4%nat))
           (reads_hex_run 12)).
Qed.

Lemma append_empty_r (s : string) : (s ++ "")%string = s.
Proof. induction s as [|c s IH]; cbn; [reflexivity | rewrite IH; reflexivity]. Qed.

Lemma substring_head (h : string) : forall r,
  Js.substring (h ++ r) 0 (Z.of_nat (String.length h)) = h.
Proof.
  intros r. unfold Js.substring, Js.clamp, Js.len.
  assert (Hl : String.length (h ++ r) = (String.length h + String.length r)%nat).
  { clear. induction h; cbn; [reflexivity | lia]. }
  rewrite Hl.
  replace (Z.to_nat (Z.min _ _)) with O by lia.
  replace (Z.to_nat (Z.max _ _ - Z.min _ _)) with (String.length h) by lia.
  clear. induction h as [|c h IH]; cbn; [destruct r; reflexivity|].
  rewrite IH. reflexivity.
Qed.

(** What the pattern matches at the head of a text is a UUID with
    which the text starts. *)
Lemma uuid_at_head_sound (s u : string) :
  uuid_at_head s = Some u -> isUUID u = true /\ String.prefix u s = true.
Proof.
  unfold uuid_at_head, isUUID. intros H.
  destruct (and_then _ _) as [r|] eqn:E; [|discriminate]. injection H as <-.
  destruct (reads_uuid s r E) as [h [-> [Hl Hh]]].
  change 36 with (Z.of_nat 36). rewrite <- Hl, substring_head.
  split; [|apply prefix_self_app].
  specialize (Hh ""%string). rewrite append_empty_r in Hh. cbv beta in Hh.
  rewrite Hh. reflexivity.
Qed.

Lemma find_uuid_sound : forall s u,
  find_uuid s = Some u -> isUUID u = true /\ Js.includes s u = true.
Proof.
  induction s as [|c s IH]; intros u H; cbn [find_uuid] in H.
  - destruct (uuid_at_head "") as [u0|] eqn:E; [|discriminate]. injection H as <-.
    destruct (uuid_at_head_sound _ _ E) as [H1 H2].
    split; [exact H1 | apply includes_prefix, H2].
  - destruct (uuid_at_head (String c s)) as [u0|] eqn:E.
    + injection H as <-. destruct (uuid_at_head_sound _ _ E) as [H1 H2].
      split; [exact H1 | apply includes_prefix, H2].
    + destruct (IH u H) as [H1 H2]. split; [exact H1 | apply includes_tail, H2].
Qed.

Variable net : Network.

(** X9.  When [createNotebook] returns a notebook, its name is the
    name asked for and its id is a UUID that stands in the response of
    the call; when the call succeeds but its response has no UUID in
    it, [createNotebook] throws [Failed to create notebook]. *)
Theorem createNotebook_id_is_uuid (name : string) (s : State) :
  (forall nb,
      fst (createNotebook net name s) = Resolved nb ->
      ServiceOps.name nb = name /\
      isUUID (ServiceOps.id nb) = true /\
      exists response,
        fst (rpc net "CCqFvf" (JArr [JStr name]) "/" s) = Resolved response /\
        Js.includes response (ServiceOps.id nb) = true) /\
  (forall response,
      fst (rpc net "CCqFvf" (JArr [JStr name]) "/" s) = Resolved response ->
      find_uuid response = None ->
      fst (createNotebook net name s)
      = Rejected (Error "Failed to create notebook")).
Proof.
  unfold createNotebook, bind.
  destruct (rpc net "CCqFvf" (JArr [JStr name]) "/" s) as [[response|e] s1];
    cbn [fst].
  - split.
    + intros nb H. destruct (find_uuid response) as [u|] eqn:E; [|discriminate].
      cbn in H. injection H as <-. cbn [ServiceOps.name ServiceOps.id].
      destruct (find_uuid_sound _ _ E) as [H1 H2].
      split; [reflexivity|]. split; [exact H1|].
      exists response. split; [reflexivity | exact H2].
    + intros r Hr Hnone. injection Hr as <-. rewrite Hnone. reflexivity.
  - split; [intros nb H; discriminate | intros r Hr; discriminate].
Qed.

(** *** Requests sent by [rpc] *)

Lemma is_rpc_self (rpcId : string) (params : json) (path : string) :
  is_rpc rpcId (FetchRpc rpcId params path) = true.
Proof. apply String.eqb_refl. Qed.

(** [rpc] only adds to the log of requests, and at most one request
    for its RPC. *)
Lemma rpc_sends (rpcId : string) (params : json) (path : string) (s : State) :
  exists extra,
    sent (snd (rpc net rpcId params path s)) = (sent s ++ extra)%list /\
    (List.length (filter (is_rpc rpcId) extra) <= 1)%nat.
Proof.
  destruct (tokens s) as [t|] eqn:Ht.
  - rewrite (rpc_cached net rpcId params path s t Ht). cbn [snd sent].
    exists [FetchRpc rpcId params path]. split; [reflexivity|].
    cbn [filter]. rewrite is_rpc_self. cbn. lia.
  - rewrite (rpc_uncached net rpcId params path s Ht).
    destruct (getTokens_cases net 0 s (or_intror Ht)) as [_ [Hsent _]].
    destruct (getTokens net 0 s) as [[t|e] s1]; cbn [fst snd sent] in *.
    + exists [FetchPage 0; FetchRpc rpcId params path].
      rewrite Hsent, <- app_assoc. split; [reflexivity|].
      cbn [filter is_rpc]. rewrite String.eqb_refl. cbn. lia.
    + exists [FetchPage 0]. split; [exact Hsent | cbn; lia].
Qed.

(** [getNotebookStatus] never throws. *)
Lemma getNotebookStatus_resolves (nb : string) (s : State) :
  exists b extra,
    fst (getNotebookStatus net nb s) = Resolved b /\
    sent (snd (getNotebookStatus net nb s)) = (sent s ++ extra)%list /\
    (List.length (filter (is_rpc "rLM1Ne") extra) <= 1)%nat.
Proof.
  destruct (rpc_sends "rLM1Ne"
              (JArr [JStr nb; JNull; JArr [int 2]; JNull; int 0])
              (notebook_path nb) s) as [extra [Hs Hc]].
  unfold getNotebookStatus, try_catch, bind.
  destruct (rpc net "rLM1Ne" _ _ s) as [[response|e] s1]; cbn [fst snd] in *;
    eexists; exists extra; (split; [reflexivity|]); split; assumption.
Qed.

Lemma waitLoop_bounded (nb : string) (maxAttempts : Z) :
  forall (fuel : nat) (i : Z) (s : State),
    (Z.to_nat (maxAttempts - i) <= fuel)%nat ->
    exists b extra,
      fst (waitLoop net fuel nb i maxAttempts s) = Resolved (Some b) /\
      sent (snd (waitLoop net fuel nb i maxAttempts s)) = (sent s ++ extra)%list /\
      (List.length (filter (is_rpc "rLM1Ne") extra)
       <= Z.to_nat (maxAttempts - i))%nat /\
      (maxAttempts <= i -> b = false /\ extra = []).
Proof.
  induction fuel as [|fuel IH]; intros i s Hf.
  - cbn [waitLoop]. destruct (i <? maxAttempts) eqn:E;
      [apply Z.ltb_lt in E; lia|].
    exists false, []. cbn. rewrite app_nil_r. repeat split; lia.
  - cbn [waitLoop]. destruct (i <? maxAttempts) eqn:E.
    + apply Z.ltb_lt in E.
      destruct (getNotebookStatus_resolves nb s) as [ready [extra1 [H1 [H2 H3]]]].
      unfold bind, sleep, ret.
      destruct (getNotebookStatus net nb s) as [r1 s1]. cbn [fst snd] in H1, H2.
      subst r1. destruct ready.
      * exists true, extra1. cbn [fst snd].
        split; [reflexivity|]. split; [exact H2|]. split; [lia | lia].
      * destruct (IH (i + 1) s1 ltac:(lia)) as [b [extra2 [H4 [H5 [H6 _]]]]].
        exists b, (extra1 ++ extra2)%list.
        split; [exact H4|]. split; [rewrite H5, H2, app_assoc; reflexivity|].
        split; [rewrite filter_app, length_app; lia | lia].
    + apply Z.ltb_ge in E. exists false, []. cbn. rewrite app_nil_r.
      repeat split; lia.
Qed.

(** X10.  [waitForSources] never throws and always comes to an end:
    it returns a boolean after at most [maxAttempts] status requests,
    and for [maxAttempts <= 0] it returns [false] without sending
    anything. *)
Theorem waitForSources_bounded (nb : string) (maxAttempts : Z) (s : State) :
  exists b extra,
    fst (waitForSources net nb maxAttempts s) = Resolved (Some b) /\
    sent (snd (waitForSources net nb maxAttempts s)) = (sent s ++ extra)%list /\
    (List.length (filter (is_rpc "rLM1Ne") extra) <= Z.to_nat maxAttempts)%nat /\
    (maxAttempts <= 0 -> b = false /\ extra = []).
Proof.
  unfold waitForSources.
  destruct (waitLoop_bounded nb maxAttempts (Z.to_nat maxAttempts) 0 s ltac:(lia))
    as [b [extra [H1 [H2 [H3 H4]]]]].
  exists b, extra. rewrite Z.sub_0_r in H3. auto.
Qed.

(** *** Deleting sources in batches *)

Lemma slice_batch {A} (l : list A) (i : Z) :
  0 <= i ->
  slice l i (i + BATCH_SIZE) = firstn 20 (skipn (Z.to_nat i) l).
Proof.
  intros Hi. unfold slice, BATCH_SIZE.
  replace (Z.to_nat (i + 20 - i)) with 20%nat by lia. reflexivity.
Qed.

Lemma rpc_accepted_by (rpcId : string) (params : json) (path : string) (s : State) :
  accepting net -> tokens s <> None ->
  exists text,
    rpc net rpcId params path s
    = (Resolved text,
       mkState (tokens s) (isRefreshingTokens s)
               (sent s ++ [FetchRpc rpcId params path])).
Proof.
  intros Hnet Hs. destruct (tokens s) as [t|] eqn:Ht; [|contradiction].
  rewrite (rpc_cached net rpcId params path s t Ht).
  destruct (Hnet (List.length (sent s)) (FetchRpc rpcId params path))
    as [response [text [-> [Hok Hbody]]]].
  rewrite Hok, Hbody, Ht. exists text. reflexivity.
Qed.

Lemma batches_count (n : nat) :
  (1 <= n)%nat ->
  Z.succ ((Z.of_nat (n - 20) + 19) / 20) = (Z.of_nat n + 19) / 20.
Proof.
  intros Hn. destruct (Nat.le_gt_cases n 20) as [Hle|Hgt].
  - replace (n - 20)%nat with O by lia.
    change (Z.succ ((Z.of_nat 0 + 19) / 20)) with 1.
    apply (Z.div_unique (Z.of_nat n + 19) 20 1 (Z.of_nat n - 1)); lia.
  - replace (Z.of_nat n + 19) with (Z.of_nat (n - 20) + 19 + 1 * 20) by lia.
    rewrite Z.div_add by lia. lia.
Qed.

Lemma deleteLoop_batches (nb : string) (ids : list string) :
  accepting net ->
  forall (fuel : nat) (i deleted : Z) (s : State),
    0 <= i -> tokens s <> None ->
    (List.length ids - Z.to_nat i <= fuel)%nat ->
    exists batches s',
      deleteLoop net fuel nb ids i deleted s
      = (Resolved (Some (deleted
                         + Z.of_nat (List.length (skipn (Z.to_nat i) ids)))), s') /\
      sent s' = (sent s ++ map (delete_request nb) batches)%list /\
      List.concat batches = skipn (Z.to_nat i) ids /\
      Forall (fun b => (1 <= List.length b <= 20)%nat) batches /\
      Z.of_nat (List.length batches)
      = (Z.of_nat (List.length (skipn (Z.to_nat i) ids)) + 19) / 20.
Proof.
  intros Hnet. induction fuel as [|fuel IH]; intros i deleted s Hi Hs Hf.
  - cbn [deleteLoop]. destruct (i <? Z.of_nat (List.length ids)) eqn:E;
      [apply Z.ltb_lt in E; lia|].
    apply Z.ltb_ge in E. exists [], s. rewrite skipn_all2 by lia.
    cbn. rewrite Z.add_0_r, app_nil_r. repeat split. constructor.
  - cbn [deleteLoop]. destruct (i <? Z.of_nat (List.length ids)) eqn:E.
    + apply Z.ltb_lt in E. cbv zeta. rewrite (slice_batch ids i Hi).
      set (rest := skipn (Z.to_nat i) ids).
      assert (Hrest : List.length rest = (List.length ids - Z.to_nat i)%nat)
        by apply length_skipn.
      unfold bind at 1.
      destruct (rpc_accepted_by "tGMBJ"
                  (JArr [JArr (map (fun i0 => JArr [JStr i0]) (firstn 20 rest))])
                  (notebook_path nb) s Hnet Hs) as [text ->].
      destruct (IH (i + BATCH_SIZE)
                  (deleted + Z.of_nat (List.length (firstn 20 rest)))
                  (mkState (tokens s) (isRefreshingTokens s)
                     (sent s ++ [FetchRpc "tGMBJ"
                        (JArr [JArr (map (fun i0 => JArr [JStr i0]) (firstn 20 rest))])
                        (notebook_path nb)])))
        as [batches [s' [Hrun [Hsent [Hcat [Hall Hnum]]]]]].
      { unfold BATCH_SIZE. lia. }
      { exact Hs. }
      { unfold BATCH_SIZE. lia. }
      assert (Hskip : skipn (Z.to_nat (i + BATCH_SIZE)) ids = skipn 20 rest).
      { unfold rest, BATCH_SIZE. rewrite skipn_skipn. f_equal. lia. }
      rewrite Hskip in *.
      exists (firstn 20 rest :: batches), s'.
      split; [|split; [|split; [|split]]].
      * rewrite Hrun. f_equal. f_equal. f_equal.
        rewrite <- (firstn_skipn 20 rest) at 3. rewrite length_app. lia.
      * rewrite Hsent. cbn [sent map]. rewrite <- app_assoc. reflexivity.
      * cbn [List.concat]. rewrite Hcat. apply firstn_skipn.
      * constructor; [|exact Hall]. rewrite length_firstn. lia.
      * cbn [List.length]. rewrite Nat2Z.inj_succ, Hnum, length_skipn.
        apply batches_count. lia.
    + apply Z.ltb_ge in E. exists [], s. rewrite skipn_all2 by lia.
      cbn. rewrite Z.add_0_r, app_nil_r. repeat split. constructor.
Qed.

(** X11.  On a network that accepts every request, with the tokens
    cached, [deleteSources] reports success and as many deleted
    sources as it was given ids.  It sends one delete request per
    batch; the batches hold 1 to 20 ids each, together they are the
    ids in the order given, each id once, and there are as many
    batches as the number of ids divided by 20, rounded up. *)
Theorem deleteSources_batches (nb : string) (ids : list string) (s : State) :
  accepting net -> tokens s <> None ->
  exists batches,
    fst (deleteSources net nb ids s)
    = Resolved (Some (mkDeleteResult true (Z.of_nat (List.length ids)))) /\
    sent (snd (deleteSources net nb ids s))
    = (sent s ++ map (delete_request nb) batches)%list /\
    List.concat batches = ids /\
    Forall (fun b => (1 <= List.length b <= 20)%nat) batches /\
    Z.of_nat (List.length batches) = (Z.of_nat (List.length ids) + 19) / 20.
Proof.
  intros Hnet Hs.
  destruct (deleteLoop_batches nb ids Hnet (List.length ids) 0 0 s
              ltac:(lia) Hs ltac:(lia))
    as [batches [s' [Hrun [Hsent [Hcat [Hall Hnum]]]]]].
  change (skipn (Z.to_nat 0) ids) with ids in *. rewrite Z.add_0_l in Hrun.
  destruct ids as [|i0 ids'].
  - exists []. cbn. rewrite app_nil_r. repeat split. constructor.
  - exists batches. unfold deleteSources, bind. rewrite Hrun.
    cbn [fst snd ret option_map]. auto.
Qed.

(** X12.  For a single URL, the batch operation [addSources] sends
    the same request and leaves the same state as [addSource] with a
    content of type url.  It fails exactly when the call itself fails,
    with the error of the call, and then [addSource] fails with the
    same error; but where [addSource] throws for a response with an
    unexpected code, [addSources] returns normally: it never looks at
    the response. *)
Theorem addSources_one_url_as_addSource (nb title u : string) (s : State) :
  let content := mkContent url_type title None (Some u) None in
  snd (addSources net nb [u] s) = snd (addSource net nb content s) /\
  (fst (addSource net nb content s) = Resolved tt ->
   fst (addSources net nb [u] s) = Resolved tt) /\
  (forall e, fst (addSources net nb [u] s) = Rejected e ->
             fst (addSource net nb content s) = Rejected e) /\
  (forall response,
      fst (rpc net "izAoDd" (JArr [JArr [url_source u]; JStr nb])
               (notebook_path nb) s) = Resolved response ->
      fst (addSources net nb [u] s) = Resolved tt) /\
  (forall e,
      fst (rpc net "izAoDd" (JArr [JArr [url_source u]; JStr nb])
               (notebook_path nb) s) = Rejected e ->
      fst (addSources net nb [u] s) = Rejected e /\
      fst (addSource net nb content s) = Rejected e) /\
  (forall e,
      fst (addSources net nb [u] s) = Rejected e ->
      fst (rpc net "izAoDd" (JArr [JArr [url_source u]; JStr nb])
               (notebook_path nb) s) = Rejected e).
Proof.
  cbv zeta. unfold addSources, addSource.
  cbn [content_type content_url is_youtube opt_string map].
  assert (Hp : (if Js.includes u "youtube.com" || Js.includes u "youtu.be"
                then JArr [JArr (nulls 7 ++ [JArr [JStr u]])]
                else JArr [JArr [JNull; JNull; JArr [JStr u]]])
               = JArr [url_source u]).
  { unfold url_source.
    destruct (Js.includes u "youtube.com" || Js.includes u "youtu.be"); reflexivity. }
  rewrite Hp. unfold bind.
  destruct (rpc net "izAoDd" (JArr [JArr [url_source u]; JStr nb])
                (notebook_path nb) s) as [[response|e] s1]; cbn [fst snd].
  - assert (Hc : snd (check_addSource_response response s1) = s1).
    { unfold check_addSource_response.
      destruct (Js.includes response error_marker); [|reflexivity].
      destruct (errorMatch response) as [code|]; [|reflexivity].
      destruct (negb (includes_code normalErrorCodes code)); reflexivity. }
    rewrite Hc. repeat split; intros; discriminate.
  - repeat split; intros; congruence.
Qed.

(** *** Text blocks *)

Lemma extractAllText_from_nonempty :
  forall (depth : nat) (data : list json),
    Forall (fun t => Js.nonempty t = true) (extractAllText_from depth data).
Proof.
  induction depth as [|depth IH]; intros data; cbn [extractAllText_from];
    [constructor|].
  induction data as [|item rest IHd]; cbn [flat_map]; [constructor|].
  apply Forall_app. split; [|exact IHd].
  destruct item; cbn [text_of_item]; try constructor.
  - destruct (Js.nonempty s) eqn:E; repeat constructor. exact E.
  - apply IH.
Qed.

Lemma nesting_items (data : list json) (depth : nat) :
  (nesting (JArr data) <= S depth)%nat ->
  Forall (fun x => (nesting x <= depth)%nat) data.
Proof.
  cbn [nesting]. intros H. apply le_S_n in H.
  induction data as [|x rest IH]; constructor.
  - lia.
  - apply IH. lia.
Qed.

Lemma strings_of_array (item : json) (rest : list json) :
  strings_of (JArr (item :: rest))
  = (strings_of item ++ strings_of (JArr rest))%list.
Proof. reflexivity. Qed.

Lemma extractAllText_from_all :
  forall (depth : nat) (data : list json),
    (nesting (JArr data) <= depth)%nat ->
    extractAllText_from depth data = strings_of (JArr data).
Proof.
  induction depth as [|depth IH]; intros data Hd; [cbn in Hd; lia|].
  apply nesting_items in Hd. cbn [extractAllText_from].
  induction Hd as [|item rest Hitem _ IHd]; [reflexivity|].
  cbn [flat_map]. rewrite IHd, strings_of_array. f_equal.
  destruct item; try reflexivity.
  cbn [text_of_item]. apply IH. exact Hitem.
Qed.

(** X13.  [extractAllText] returns only strings that are not empty.
    With a depth bound that is at least the nesting of the data it
    returns every non-empty string of the data, in document order;
    with a bound of 0 or less it returns nothing. *)
Theorem extractAllText_collects_strings (data : list json) (maxDepth : Z) :
  Forall (fun t => Js.nonempty t = true) (extractAllText data maxDepth) /\
  (Z.of_nat (nesting (JArr data)) <= maxDepth ->
   extractAllText data maxDepth = strings_of (JArr data)) /\
  (maxDepth <= 0 -> extractAllText data maxDepth = []).
Proof.
  unfold extractAllText. split; [apply extractAllText_from_nonempty|]. split.
  - intros H. apply extractAllText_from_all. lia.
  - intros H. replace (Z.to_nat maxDepth) with O by lia. reflexivity.
Qed.

End ServiceOpsFacts.

Lemma createNotebook_id_is_uuid_witness :
  exists nb,
    fst (ServiceOps.createNotebook
           (Fixtures.net_replying MoreFixtures.created_response)
           "Reading list" Fixtures.logged_in) = Resolved nb /\
    ServiceOps.id nb = "1b9d6bcd-BBFD-4b2d-9b5d-ab8dfbbd4bed" /\
    NotebookParser.isUUID (ServiceOps.id nb) = true.
Proof.
  eexists. split; [vm_compute; reflexivity|]. split; [reflexivity|].
  exact (proj1 (proj2 (proj1 (createNotebook_id_is_uuid
                                (Fixtures.net_replying MoreFixtures.created_response)
                                "Reading list" Fixtures.logged_in)
                             _ ltac:(vm_compute; reflexivity)))).
Defined.

Lemma accepting_net_replying (body : string) :
  ServiceOps.accepting (Fixtures.net_replying body).
Proof. intros n c. eexists. eexists. repeat split. Qed.

Lemma deleteSources_batches_witness :
  exists batches,
    fst (ServiceOps.deleteSources (Fixtures.net_replying "") "nb-1"
           MoreFixtures.source_ids Fixtures.logged_in)
    = Resolved (Some (ServiceOps.mkDeleteResult true 45)) /\
    List.concat batches = MoreFixtures.source_ids /\
    Z.of_nat (List.length batches) = 3.
Proof.
  destruct (deleteSources_batches (Fixtures.net_replying "") "nb-1"
              MoreFixtures.source_ids Fixtures.logged_in
              (accepting_net_replying "") ltac:(discriminate))
    as [batches [Hres [_ [Hall [_ Hcount]]]]].
  exists batches. split; [exact Hres|]. split; [exact Hall | exact Hcount].
Defined.

Lemma extractAllText_collects_strings_witness :
  ServiceOps.extractAllText
    [JStr "Intro"; JArr [JNull; JStr ""; JArr [JStr "Body"]]; int 3; JStr "End"] 100
  = ["Intro"; "Body"; "End"].
Proof.
  exact (proj1 (proj2 (extractAllText_collects_strings
                         [JStr "Intro"; JArr [JNull; JStr ""; JArr [JStr "Body"]];
                          int 3; JStr "End"] 100))
               ltac:(vm_compute; discriminate)).
Defined.

(** ** Properties of the file processor *)

Section FileFacts.

Import UploadQueue FileProcessor.

Variable io : Readers.

(** X14.  The ways [processFile] fails.  For a file whose extension
    is none of txt, md, markdown, pdf, docx it throws
    [Unsupported file type: ] followed by the lower-cased extension,
    without reading the file.  For a supported file it fails only
    when the reader fails: with the reader's own error for text and
    docx files, and with [Failed to extract text from PDF: ] followed
    by the message of the error for a PDF. *)
Theorem processFile_failures (f : File) (n : nat) :
  (~ In (FileProcessor.extension f) supported ->
   processFile io f n
   = Rejected (Error ("Unsupported file type: " ++ FileProcessor.extension f))) /\
  (forall e,
      In (FileProcessor.extension f) supported ->
      processFile io f n = Rejected e ->
      (In (FileProcessor.extension f) ["txt"; "md"; "markdown"]%string /\
       readAsText io f n = Rejected e) \/
      (FileProcessor.extension f = "pdf"%string /\
       exists cause,
         pdf_pages io f n = Rejected cause /\
         e = Error ("Failed to extract text from PDF: " ++ message_of cause)) \/
      (FileProcessor.extension f = "docx"%string /\
       readAsDataURL io f n = Rejected e)).
Proof.
  unfold processFile, supported. cbv zeta.
  set (ext := FileProcessor.extension f).
  destruct (String.eqb_spec ext "txt") as [E1|E1];
    [|destruct (String.eqb_spec ext "md") as [E2|E2];
      [|destruct (String.eqb_spec ext "markdown") as [E3|E3];
        [|destruct (String.eqb_spec ext "pdf") as [E4|E4];
          [|destruct (String.eqb_spec ext "docx") as [E5|E5]]]]];
    cbn [orb].
  - split; [intros H; exfalso; apply H; left; auto|].
    intros e _ H. left. split; [left; auto|].
    destruct (readAsText io f n); [discriminate | congruence].
  - split; [intros H; exfalso; apply H; right; left; auto|].
    intros e _ H. left. split; [right; left; auto|].
    destruct (readAsText io f n); [discriminate | congruence].
  - split; [intros H; exfalso; apply H; right; right; left; auto|].
    intros e _ H. left. split; [right; right; left; auto|].
    destruct (readAsText io f n); [discriminate | congruence].
  - split; [intros H; exfalso; apply H; right; right; right; left; auto|].
    intros e _ H. right. left. split; [exact E4|].
    destruct (pdf_pages io f n) as [pages|cause]; [discriminate|].
    exists cause. split; [reflexivity | congruence].
  - split; [intros H; exfalso; apply H; do 4 right; left; auto|].
    intros e _ H. right. right. split; [exact E5|].
    destruct (readAsDataURL io f n); [discriminate | congruence].
  - split; [reflexivity|].
    intros e [H|[H|[H|[H|[H|[]]]]]]; congruence.
Qed.

(** X15.  What [processFile] returns for a text file that it could
    read: the content is the text; chunking is asked for exactly when
    the text is longer than [CHUNK_SIZE]; without chunking there are
    no chunks; with chunking the chunks are those of the splitter for
    the text, in order, each with its position as index. *)
Theorem processFile_text (f : File) (n : nat) (text : string) :
  In (FileProcessor.extension f) ["txt"; "md"; "markdown"]%string ->
  readAsText io f n = Resolved text ->
  exists r,
    processFile io f n = Resolved r /\
    content r = Some text /\
    (FileProcessor.needsChunking r = true <-> CHUNK_SIZE < Js.len text) /\
    (FileProcessor.needsChunking r = false -> chunks r = None) /\
    (FileProcessor.needsChunking r = true ->
     exists cs,
       chunks r = Some cs /\
       map fst cs = chunk_texts text /\
       forall i c, nth_error cs i = Some c -> snd c = Z.of_nat i).
Proof.
  intros Hext Hread. exists (text_result text). split.
  - unfold processFile. cbv zeta.
    assert (E : String.eqb (FileProcessor.extension f) "txt"
                || String.eqb (FileProcessor.extension f) "md"
                || String.eqb (FileProcessor.extension f) "markdown" = true).
    { destruct Hext as [<-|[<-|[<-|[]]]]; reflexivity. }
    rewrite E, Hread. reflexivity.
  - unfold text_result. destruct (CHUNK_SIZE <? Js.len text) eqn:E.
    + apply Z.ltb_lt in E. cbn [content FileProcessor.needsChunking chunks].
      split; [reflexivity|]. split; [tauto|]. split; [discriminate|].
      intros _. eexists. split; [reflexivity|]. split.
      * rewrite map_map. reflexivity.
      * intros i c Hi. rewrite nth_error_map in Hi.
        destruct (nth_error _ i) as [chunk|] eqn:Ec; [|discriminate].
        cbn in Hi. injection Hi as <-. cbn [snd].
        exact (splitText_indices text _ _ i chunk Ec).
    + apply Z.ltb_ge in E. cbn [content FileProcessor.needsChunking chunks].
      split; [reflexivity|]. split; [split; [discriminate | lia]|].
      split; [reflexivity | discriminate].
Qed.

End FileFacts.

Lemma processFile_failures_witness :
  FileProcessor.processFile (MoreFixtures.text_readers "Agenda")
    MoreFixtures.archive_file 0
  = Rejected (Error "Unsupported file type: zip").
Proof.
  apply (proj1 (processFile_failures (MoreFixtures.text_readers "Agenda")
                  MoreFixtures.archive_file 0)).
  vm_compute. intuition discriminate.
Defined.

Lemma processFile_text_witness :
  FileProcessor.extension MoreFixtures.notes_file = "txt" /\
  exists r,
    FileProcessor.processFile (MoreFixtures.text_readers "Agenda") 
      MoreFixtures.notes_file 0 = Resolved r /\
    FileProcessor.content r = Some "Agenda".
Proof.
  split; [reflexivity|].
  destruct (processFile_text (MoreFixtures.text_readers "Agenda")
              MoreFixtures.notes_file 0 "Agenda"
              (or_introl eq_refl) eq_refl) as [r [Hr [Hc _]]].
  exists r. split; assumption.
Defined.

(** ** Further properties of the upload queue and of the store *)

Section QueueMore.

Import NotebookParser Service UploadQueue Store.
Local Open Scope js_scope.

Variable env : Env.

(** X16.  Without a notebook (none on the item, none selected)
    [processItem] throws [No notebook selected] and changes nothing;
    the loop of the queue then marks the item with status error and
    that message, and no request at all is sent. *)
Theorem processItem_without_notebook (item : UploadItem) (w : World) :
  target_notebook item (selectedNotebookId w) = None ->
  processItem env item w = (Rejected (Error "No notebook selected"), w) /\
  processGuarded env item w
  = (Resolved tt,
     mkWorld (updateQueue (uploadQueue w) (id item)
                (mkUpdates (Some error) None (Some "No notebook selected")
                           None None))
             (selectedNotebookId w) (isProcessing w) (service w)).
Proof.
  intros H.
  assert (Hp : processItem env item w
               = (Rejected (Error "No notebook selected"), w)).
  { unfold processItem, bind, gets. rewrite H. reflexivity. }
  split; [exact Hp|].
  unfold processGuarded, try_catch, bind. rewrite Hp. reflexivity.
Qed.

(** [checkDuplicate] with the result of its look-up. *)
Lemma checkDuplicate_run (nb : string) (item : UploadItem) (w : World) :
  checkDuplicate env nb item w
  = (match fst (getNotebook (net env) (platform env) nb (service w)) with
     | Resolved notebook => Resolved (isDuplicateIn env notebook item)
     | Rejected _ => Resolved false
     end,
     mkWorld (uploadQueue w) (selectedNotebookId w) (isProcessing w)
             (snd (getNotebook (net env) (platform env) nb (service w)))).
Proof.
  unfold checkDuplicate, try_catch, bind, call, ret.
  destruct (getNotebook (net env) (platform env) nb (service w)) as [[n|e] s1];
    reflexivity.
Qed.

(** X17.  [checkDuplicate] never throws, leaves the queue as it is
    and sends no add-source request; when the notebook cannot be
    fetched it answers [false], so the upload goes ahead. *)
Theorem checkDuplicate_never_throws (nb : string) (item : UploadItem) (w : World) :
  (exists b, fst (checkDuplicate env nb item w) = Resolved b) /\
  uploadQueue (snd (checkDuplicate env nb item w)) = uploadQueue w /\
  add_source_requests (snd (checkDuplicate env nb item w)) = add_source_requests w /\
  (forall e,
      fst (getNotebook (net env) (platform env) nb (service w)) = Rejected e ->
      fst (checkDuplicate env nb item w) = Resolved false).
Proof.
  rewrite checkDuplicate_run. cbn [fst snd uploadQueue].
  split; [|split; [reflexivity|split]].
  - destruct (fst (getNotebook _ _ nb (service w))); eexists; reflexivity.
  - unfold add_source_requests. cbn [service].
    apply (adds_nothing_getNotebook (net env) (platform env) nb (service w)).
  - intros e ->. reflexivity.
Qed.

(** X18.  A page or YouTube item with a URL, for a notebook whose
    listing has a source with a URL that normalises to the same URL,
    is a duplicate: [processItem] returns normally, the entries of
    the item get status error, progress 0 and the message
    [Source already exists in notebook], and no add-source request is
    sent. *)
Theorem duplicate_url_is_rejected
        (item : UploadItem) (w : World) (nb u : string)
        (notebook : NotebookDetails) (s' : State) :
  type item = Page \/ type item = Youtube ->
  truthy_string (url item) = Some u ->
  target_notebook item (selectedNotebookId w) = Some nb ->
  getNotebook (net env) (platform env) nb (service w) = (Resolved notebook, s') ->
  (exists source sourceUrl,
      In source (sources notebook) /\
      truthy_string (NotebookParser.url source) = Some sourceUrl /\
      normalizeUrl env sourceUrl = normalizeUrl env u) ->
  processItem env item w
  = (Resolved tt,
     mkWorld (updateQueue (uploadQueue w) (id item)
                (mkUpdates (Some error) (Some (inject_Z 0)) (Some already_exists)
                           None None))
             (selectedNotebookId w) (isProcessing w) s') /\
  add_source_requests (snd (processItem env item w)) = add_source_requests w.
Proof.
  intros Htype Hurl Hnb Hget [source [su [Hin [Hsu Heq]]]].
  assert (Hdup : isDuplicateIn env notebook item = true).
  { unfold isDuplicateIn. cbv zeta.
    destruct (titleMatch notebook (title item)); [reflexivity|].
    assert (Hsome : some (fun source0 =>
                match truthy_string (NotebookParser.url source0) with
                | None => false
                | Some sourceUrl =>
                    String.eqb (normalizeUrl env sourceUrl) (normalizeUrl env u)
                end) (sources notebook) = true).
    { apply existsb_exists. exists source. split; [exact Hin|].
      rewrite Hsu. apply String.eqb_eq, Heq. }
    destruct Htype as [-> | ->]; rewrite Hurl; exact Hsome. }
  assert (Hrun : processItem env item w
    = (Resolved tt,
       mkWorld (updateQueue (uploadQueue w) (id item)
                  (mkUpdates (Some error) (Some (inject_Z 0)) (Some already_exists)
                             None None))
               (selectedNotebookId w) (isProcessing w) s')).
  { unfold processItem, bind at 1, gets. rewrite Hnb. unfold bind at 1.
    rewrite checkDuplicate_run, Hget. cbn [fst snd]. rewrite Hdup. reflexivity. }
  split; [exact Hrun|]. rewrite Hrun. unfold add_source_requests. cbn [snd service].
  pose proof (adds_nothing_getNotebook (net env) (platform env) nb (service w)) as H.
  rewrite Hget in H. exact H.
Qed.

(** X19.  A run of the queue that is not already in progress returns
    normally with the busy flag lowered.  It keeps the selected
    notebook, the number of entries, their ids and their order; it
    leaves every entry of a pending item in a terminal status; and
    it does not change the entries whose id is not the id of a
    pending item.  While a run is in progress, [processQueue] returns
    at once and changes nothing. *)
Theorem processQueue_effect (w : World) :
  (isProcessing w = true -> processQueue env w = (Resolved tt, w)) /\
  (isProcessing w = false ->
   let w' := snd (processQueue env w) in
   fst (processQueue env w) = Resolved tt /\
   isProcessing w' = false /\
   selectedNotebookId w' = selectedNotebookId w /\
   map id (uploadQueue w') = map id (uploadQueue w) /\
   (forall x, In x (uploadQueue w) -> status x = pending -> settled (id x) w') /\
   (forall i,
       ~ In i (map id (filter is_pending (uploadQueue w))) ->
       Forall2 (fun x x' => id x = i -> x' = x) (uploadQueue w) (uploadQueue w'))).
Proof.
  split.
  - intros H. unfold processQueue, bind, gets. rewrite H. reflexivity.
  - intros H. cbv zeta. rewrite (processQueue_idle env w H).
    set (pendingItems := filter is_pending (uploadQueue w)).
    set (w0 := snd (set_processing true w)).
    unfold set_processing at 1 2 3 4 5 6, modify.
    cbn [fst snd isProcessing selectedNotebookId uploadQueue].
    split; [reflexivity|]. split; [reflexivity|].
    destruct (forEach_ids env pendingItems w0) as [Hids _].
    split; [|split; [exact Hids|split]].
    + assert (Hsel : forall items w1,
                selectedNotebookId (snd (forEach env items w1))
                = selectedNotebookId w1).
      { induction items as [|item rest IH]; intros w1; [reflexivity|].
        rewrite forEach_cons, IH.
        destruct (frames_processGuarded env item w1) as [_ [Hs _]]. exact Hs. }
      rewrite Hsel. reflexivity.
    + intros x Hin Hp.
      change (settled (id x) (snd (forEach env pendingItems w0))).
      apply forEach_settles. unfold pendingItems. apply filter_In.
      split; [exact Hin|]. unfold is_pending. rewrite Hp. reflexivity.
    + intros i Hi.
      destruct (forEach_frames env pendingItems i Hi w0) as [Hq _].
      change (uploadQueue w0) with (uploadQueue w) in Hq.
      eapply Forall2_impl; [|exact Hq]. cbn. intros a b [_ Hab]. exact Hab.
Qed.

(** X20.  When the file processor rejects a file that is not an
    image, with an error that is not taken for a normal code, the
    item is not uploaded: after its turn in the queue no add-source
    request has been sent for it and its entries have status error.
    Their message is [Source already exists in notebook] when the
    duplicate check found the item in the notebook; otherwise it is
    the message of the error of the file processor, or [Unknown error]
    when what was thrown is not an [Error]. *)
Theorem rejected_file_is_not_uploaded
        (item : UploadItem) (f : File) (e : exn) (w : World) (nb : string) :
  type item = FileItem -> file item = Some f ->
  includes_code binaryExtensions (UploadQueue.extension f) = false ->
  (forall n, processFile env f n = Rejected e) ->
  is_normal_rpc_error e = false ->
  target_notebook item (selectedNotebookId w) = Some nb ->
  let w' := snd (processGuarded env item w) in
  add_source_requests w' = add_source_requests w /\
  (exists duplicate, fst (checkDuplicate env nb item w) = Resolved duplicate) /\
  Forall (fun x => id x = id item ->
                   status x = error /\
                   (fst (checkDuplicate env nb item w) = Resolved true ->
                    error_message x = Some "Source already exists in notebook") /\
                   (fst (checkDuplicate env nb item w) = Resolved false ->
                    error_message x = Some (match e with
                                            | Error message => message
                                            | NonError _ => "Unknown error"
                                            end)))
         (uploadQueue w').
Proof.
  intros Htype Hfile Hbin Hproc Hnorm Hnb. cbv zeta.
  pose proof (checkDuplicate_run nb item w) as Hcd.
  pose proof (adds_nothing_getNotebook (net env) (platform env) nb (service w)) as Hlog.
  set (s1 := snd (getNotebook (net env) (platform env) nb (service w))) in *.
  set (w1 := mkWorld (uploadQueue w) (selectedNotebookId w) (isProcessing w) s1) in *.
  assert (Hitem : processItem env item w
    = if match fst (getNotebook (net env) (platform env) nb (service w)) with
         | Resolved notebook => isDuplicateIn env notebook item
         | Rejected _ => false
         end
      then (Resolved tt,
            mkWorld (updateQueue (uploadQueue w) (id item)
                       (mkUpdates (Some error) (Some (inject_Z 0))
                                  (Some already_exists) None None))
                    (selectedNotebookId w) (isProcessing w) s1)
      else (Rejected e,
            mkWorld (updateQueue (uploadQueue w) (id item)
                       (mkUpdates (Some processing) (Some (inject_Z 0))
                                  None None None))
                    (selectedNotebookId w) (isProcessing w) s1)).
  { unfold processItem, bind at 1, gets. rewrite Hnb. unfold bind at 1.
    rewrite Hcd.
    destruct (fst (getNotebook (net env) (platform env) nb (service w)))
      as [notebook|e0].
    - destruct (isDuplicateIn env notebook item); [reflexivity|].
      unfold bind at 1, updateQueueItem, modify. cbn [uploadQueue selectedNotebookId
        isProcessing service w1].
      unfold try_catch, bind at 1, processByType. rewrite Htype, Hfile, Hbin.
      unfold bind at 1. cbn [service sent]. rewrite Hproc, Hnorm. reflexivity.
    - unfold bind at 1, updateQueueItem, modify. cbn [uploadQueue selectedNotebookId
        isProcessing service w1].
      unfold try_catch, bind at 1, processByType. rewrite Htype, Hfile, Hbin.
      unfold bind at 1. cbn [service sent]. rewrite Hproc, Hnorm. reflexivity. }
  unfold processGuarded, try_catch, bind, sleep, ret. rewrite Hitem, Hcd.
  cbn [fst].
  assert (Hdup : exists duplicate,
             match fst (getNotebook (net env) (platform env) nb (service w)) with
             | Resolved notebook => Resolved (isDuplicateIn env notebook item)
             | Rejected _ => Resolved false
             end = Resolved duplicate).
  { destruct (fst (getNotebook (net env) (platform env) nb (service w)));
      eexists; reflexivity. }
  destruct (fst (getNotebook (net env) (platform env) nb (service w)))
    as [notebook|e0].
  - destruct (isDuplicateIn env notebook item); cbn [fst snd];
      unfold updateQueueItem, modify;
      cbn [snd uploadQueue service add_source_requests]; unfold add_source_requests;
      cbn [service]; (split; [exact Hlog|]); (split; [exact Hdup|]).
    + eapply Forall_impl;
        [|apply (updateQueue_marks _ (id item)
                   (mkUpdates (Some error) (Some (inject_Z 0)) (Some already_exists)
                              None None) error eq_refl)].
      cbn [set_error override]. intros x Hx E. destruct (Hx E) as [H1 H2].
      split; [exact H1|]. split; [intros _; exact H2 | discriminate].
    + eapply Forall_impl;
        [|apply (updateQueue_marks _ (id item)
                   (mkUpdates (Some error) None (Some (message_of e)) None None)
                   error eq_refl)].
      cbn [set_error override]. intros x Hx E. destruct (Hx E) as [H1 H2].
      split; [exact H1|]. split; [discriminate | intros _; exact H2].
  - cbn [fst snd]; unfold updateQueueItem, modify;
      cbn [snd uploadQueue service add_source_requests]; unfold add_source_requests;
      cbn [service]; (split; [exact Hlog|]); (split; [exact Hdup|]).
    eapply Forall_impl;
      [|apply (updateQueue_marks _ (id item)
                 (mkUpdates (Some error) None (Some (message_of e)) None None)
                 error eq_refl)].
    cbn [set_error override]. intros x Hx E. destruct (Hx E) as [H1 H2].
    split; [exact H1|]. split; [discriminate | intros _; exact H2].
Qed.

(** X21.  [updateQueueItem] never changes the number of entries,
    their ids or their order, and never changes an entry with another
    id; when no entry has the id, the queue stays as it is. *)
Theorem updateQueueItem_only_its_entries (queue : list UploadItem) (i : string)
        (u : Updates) :
  map id (updateQueue queue i u) = map id queue /\
  Forall2 (fun x x' => id x <> i -> x' = x) queue (updateQueue queue i u) /\
  (~ In i (map id queue) -> updateQueue queue i u = queue).
Proof.
  pose proof (updateQueue_touches queue i u) as H. split; [|split].
  - induction H as [|x x' q q' [Hid _] _ IH]; [reflexivity|].
    cbn [map]. rewrite Hid, IH. reflexivity.
  - eapply Forall2_impl; [|exact H]. cbn. intros a b [_ Hab]. exact Hab.
  - intros Hni. induction H as [|x x' q q' [_ Hx] _ IH]; [reflexivity|].
    cbn [map In] in Hni. rewrite Hx by tauto. rewrite IH by tauto. reflexivity.
Qed.

(** X22.  [addAndProcess] while a run is in progress only appends
    the item: nothing is sent and no entry is changed.  On an idle
    queue the run that it starts leaves the entries of every pending
    item, among them the new item when it is pending, in a terminal
    status, and ends with the busy flag lowered. *)
Theorem addAndProcess_effect (item : UploadItem) (w : World) :
  (isProcessing w = true ->
   addAndProcess env item w
   = (Resolved tt, set_queue w (uploadQueue w ++ [item]))) /\
  (isProcessing w = false ->
   let w' := snd (addAndProcess env item w) in
   fst (addAndProcess env item w) = Resolved tt /\
   isProcessing w' = false /\
   map id (uploadQueue w') = (map id (uploadQueue w) ++ [id item])%list /\
   (forall x, In x (uploadQueue w ++ [item]) -> status x = pending ->
              settled (id x) w')).
Proof.
  unfold addAndProcess, addToQueue, bind, modify, gets.
  cbn [set_queue isProcessing]. split.
  - intros H. rewrite H. reflexivity.
  - intros H. cbv zeta. rewrite H.
    set (w1 := set_queue w (uploadQueue w ++ [item])).
    rewrite (processQueue_idle env w1 H).
    set (pendingItems := filter is_pending (uploadQueue w1)).
    set (w0 := snd (set_processing true w1)).
    unfold set_processing at 1 2 3 4, modify.
    cbn [fst snd isProcessing uploadQueue].
    split; [reflexivity|]. split; [reflexivity|]. split.
    + destruct (forEach_ids env pendingItems w0) as [-> _].
      change (uploadQueue w0) with (uploadQueue w ++ [item])%list.
      rewrite map_app. reflexivity.
    + intros x Hin Hp.
      change (settled (id x) (snd (forEach env pendingItems w0))).
      apply forEach_settles. unfold pendingItems. apply filter_In.
      split; [exact Hin|]. unfold is_pending. rewrite Hp. reflexivity.
Qed.

End QueueMore.

Lemma processItem_without_notebook_witness :
  UploadQueue.target_notebook Fixtures.blank_page
    (UploadQueue.selectedNotebookId MoreFixtures.no_notebook_world) = None /\
  UploadQueue.processItem Fixtures.quiet_env Fixtures.blank_page
    MoreFixtures.no_notebook_world
  = (Rejected (Error "No notebook selected"), MoreFixtures.no_notebook_world).
Proof.
  split; [reflexivity|].
  exact (proj1 (processItem_without_notebook Fixtures.quiet_env Fixtures.blank_page
                  MoreFixtures.no_notebook_world eq_refl)).
Defined.

Lemma duplicate_url_is_rejected_witness :
  map UploadQueue.status
      (UploadQueue.uploadQueue
         (snd (UploadQueue.processItem
                 (MoreFixtures.url_listing_env "https://example.com/post")
                 (MoreFixtures.article "https://example.com/post")
                 (Fixtures.queue_world
                    [MoreFixtures.article "https://example.com/post"] "nb-1"))))
  = [UploadQueue.error] /\
  UploadQueue.add_source_requests
    (snd (UploadQueue.processItem
            (MoreFixtures.url_listing_env "https://example.com/post")
            (MoreFixtures.article "https://example.com/post")
            (Fixtures.queue_world
               [MoreFixtures.article "https://example.com/post"] "nb-1")))
  = [].
Proof.
  assert (Hget :
    Service.getNotebook
      (UploadQueue.net (MoreFixtures.url_listing_env "https://example.com/post"))
      (UploadQueue.platform (MoreFixtures.url_listing_env "https://example.com/post"))
      "nb-1"
      (UploadQueue.service
         (Fixtures.queue_world
            [MoreFixtures.article "https://example.com/post"] "nb-1"))
    = (Resolved
         (NotebookParser.mkDetails (JStr "nb-1") (JStr "Notebook")
            [NotebookParser.mkSource "source-1" "Article" "url" 5
               (Some "https://example.com/post") (Int 2)]),
       Service.mkState (Service.tokens Fixtures.logged_in) false
         [Service.notebook_request "nb-1"])).
  { vm_compute. reflexivity. }
  destruct (duplicate_url_is_rejected
              (MoreFixtures.url_listing_env "https://example.com/post")
              (MoreFixtures.article "https://example.com/post")
              (Fixtures.queue_world
                 [MoreFixtures.article "https://example.com/post"] "nb-1")
              "nb-1" "https://example.com/post" _ _
              (or_introl eq_refl) eq_refl eq_refl Hget) as [Hrun Hsent].
  { eexists. eexists. split; [left; reflexivity|]. split; reflexivity. }
  split.
  - rewrite Hrun. reflexivity.
  - rewrite Hsent. reflexivity.
Defined.

Lemma processQueue_effect_witness :
  UploadQueue.isProcessing
    (snd (UploadQueue.processQueue Fixtures.quiet_env Fixtures.page_then_note))
  = false /\
  map UploadQueue.id
    (UploadQueue.uploadQueue
       (snd (UploadQueue.processQueue Fixtures.quiet_env Fixtures.page_then_note)))
  = ["item-1"; "item-2"].
Proof.
  pose proof (proj2 (processQueue_effect Fixtures.quiet_env Fixtures.page_then_note)
                eq_refl) as H.
  cbv zeta in H. destruct H as [_ [Hidle [_ [Hids _]]]].
  split; [exact Hidle | exact Hids].
Defined.

Lemma rejected_file_is_not_uploaded_witness :
  UploadQueue.is_normal_rpc_error (Error "Unsupported file") = false /\
  fst (UploadQueue.checkDuplicate Fixtures.quiet_env "nb-1" MoreFixtures.archive_item
         (Fixtures.queue_world [MoreFixtures.archive_item] "nb-1"))
  = Resolved false /\
  UploadQueue.add_source_requests
    (snd (UploadQueue.processGuarded Fixtures.quiet_env MoreFixtures.archive_item
            (Fixtures.queue_world [MoreFixtures.archive_item] "nb-1")))
  = [] /\
  Forall (fun x => UploadQueue.status x = UploadQueue.error /\
                   UploadQueue.error_message x = Some "Unsupported file")
    (UploadQueue.uploadQueue
       (snd (UploadQueue.processGuarded Fixtures.quiet_env MoreFixtures.archive_item
               (Fixtures.queue_world [MoreFixtures.archive_item] "nb-1")))).
Proof.
  assert (Hcd : fst (UploadQueue.checkDuplicate Fixtures.quiet_env "nb-1"
                       MoreFixtures.archive_item
                       (Fixtures.queue_world [MoreFixtures.archive_item] "nb-1"))
                = Resolved false) by (vm_compute; reflexivity).
  pose proof (rejected_file_is_not_uploaded Fixtures.quiet_env
                MoreFixtures.archive_item MoreFixtures.archive_file
                (Error "Unsupported file")
                (Fixtures.queue_world [MoreFixtures.archive_item] "nb-1") "nb-1"
                eq_refl eq_refl eq_refl (fun _ => eq_refl) eq_refl eq_refl) as H.
  cbv zeta in H. destruct H as [Hsent [_ Hall]].
  split; [reflexivity|]. split; [exact Hcd|]. split; [exact Hsent|].
  assert (Hids : Forall (fun x => UploadQueue.id x
                                  = UploadQueue.id MoreFixtures.archive_item)
                   (UploadQueue.uploadQueue
                      (snd (UploadQueue.processGuarded Fixtures.quiet_env
                              MoreFixtures.archive_item
                              (Fixtures.queue_world [MoreFixtures.archive_item]
                                 "nb-1")))))
    by (vm_compute; repeat constructor).
  revert Hall Hids.
  generalize (UploadQueue.uploadQueue
                (snd (UploadQueue.processGuarded Fixtures.quiet_env
                        MoreFixtures.archive_item
                        (Fixtures.queue_world [MoreFixtures.archive_item] "nb-1")))).
  intros q Hall. induction Hall as [|x q Hx _ IH]; intros Hids; [constructor|].
  inversion Hids as [|? ? Hid Hrest]; subst.
  constructor; [|exact (IH Hrest)].
  destruct (Hx Hid) as [Hs [_ Hm]]. split; [exact Hs | exact (Hm Hcd)].
Defined.

(** ** Properties of file names and of the CSV and Anki generators *)

Section FileNameFacts.

Import Download.

Lemma startsWith_char (x c : ascii) (s : string) :
  Js.startsWith (String c s) (String x EmptyString) = Ascii.eqb c x.
Proof.
  unfold Js.startsWith. cbn [String.prefix].
  destruct (ascii_dec x c) as [->|H].
  - rewrite Ascii.eqb_refl. destruct s; reflexivity.
  - symmetry. apply Ascii.eqb_neq. congruence.
Qed.























End FileNameFacts.


Section CsvFacts.

Import Csv.

Lemma includes_char (c : ascii) : forall s,
  Js.includes s (String c EmptyString) = ExportFormats.has_char c s.
Proof.
  induction s as [|x s IH]; [reflexivity|].
  cbn [Js.includes ExportFormats.has_char String.prefix]. rewrite IH.
  destruct (ascii_dec c x) as [->|Hne].
  - rewrite Ascii.eqb_refl. destruct s; reflexivity.
  - destruct (Ascii.eqb_spec x c) as [->|]; [contradiction | reflexivity].
Qed.

Lemma ends_field_cases (r : string) :
  ends_field r ->
  r = EmptyString \/
  exists c r', r = String c r' /\
               (Ascii.eqb c "," || Ascii.eqb c Js.newline = true) /\
               Ascii.eqb c Js.dquote = false.
Proof.
  intros [->|[H|H]]; [left; reflexivity| |]; right;
    destruct r as [|c r']; try discriminate;
    unfold comma, newline_string in H; rewrite startsWith_char in H;
    apply Ascii.eqb_eq in H; subst c; eexists; eexists; repeat split.
Qed.

Lemma read_plain_back : forall v r,
  ExportFormats.has_char "," v = false ->
  ExportFormats.has_char Js.newline v = false ->
  ends_field r ->
  read_plain (v ++ r) = (v, r).
Proof.
  induction v as [|c v IH]; intros r Hc Hn Hr.
  - cbn [append]. destruct (ends_field_cases r Hr) as [->|[c [r' [-> [Hd _]]]]];
      [reflexivity|]. cbn [read_plain]. rewrite Hd. reflexivity.
  - cbn [ExportFormats.has_char] in Hc, Hn.
    apply orb_false_iff in Hc. apply orb_false_iff in Hn.
    destruct Hc as [Hc1 Hc2], Hn as [Hn1 Hn2].
    cbn [append read_plain]. rewrite Hc1, Hn1. cbn [orb].
    rewrite (IH r Hc2 Hn2 Hr). reflexivity.
Qed.

Lemma read_quoted_back : forall v r,
  ends_field r ->
  read_quoted (double_quotes v ++ Service.quote ++ r) = (v, r).
Proof.
  induction v as [|c v IH]; intros r Hr.
  - cbn [double_quotes append Service.quote read_quoted].
    rewrite Ascii.eqb_refl.
    destruct (ends_field_cases r Hr) as [->|[c [r' [-> [_ Hq]]]]];
      [reflexivity|]. rewrite Hq. reflexivity.
  - cbn [double_quotes]. destruct (Ascii.eqb c Js.dquote) eqn:E.
    + apply Ascii.eqb_eq in E. subst c.
      cbn [append read_quoted]. rewrite Ascii.eqb_refl.
      rewrite (IH r Hr). reflexivity.
    + cbn [append read_quoted]. rewrite E, (IH r Hr). reflexivity.
Qed.

Lemma quoted_back (v r : string) :
  ends_field r ->
  read_field ((Service.quote ++ double_quotes v ++ Service.quote) ++ r) = (v, r).
Proof.
  intros Hr. rewrite !append_assoc.
  change (Service.quote ++ (double_quotes v ++ Service.quote ++ r))%string
    with (String Js.dquote (double_quotes v ++ Service.quote ++ r)).
  cbn [read_field]. rewrite Ascii.eqb_refl. apply (read_quoted_back v r Hr).
Qed.

(** A field written by [escapeCSV] is read back as it was. *)
Lemma escapeCSV_back (v r : string) :
  ends_field r -> read_field (escapeCSV v ++ r) = (v, r).
Proof.
  intros Hr. unfold escapeCSV.
  destruct (Js.includes v comma || Js.includes v Service.quote
            || Js.includes v newline_string) eqn:E;
    [apply quoted_back, Hr|].
  unfold comma, newline_string, Service.quote in E. rewrite !includes_char in E.
  apply orb_false_iff in E. destruct E as [E En].
  apply orb_false_iff in E. destruct E as [Ec Eq].
  destruct v as [|c v].
  - cbn [append]. destruct (ends_field_cases r Hr) as [->|[c [r' [-> [Hd Hq]]]]];
      [reflexivity|]. cbn [read_field read_plain]. rewrite Hq, Hd. reflexivity.
  - cbn [ExportFormats.has_char] in Eq. apply orb_false_iff in Eq.
    cbn [append read_field]. rewrite (proj1 Eq).
    exact (read_plain_back (String c v) r Ec En Hr).
Qed.

(** X24.  A value written by [escapeCSV] is read back unchanged by a
    reader of CSV fields, whatever it contains (commas, double quotes,
    line feeds), when it is followed by nothing, by a comma or by a
    line feed.  So the first field of a line written for a row is its
    first cell, and what is left is the comma and the line of the
    other cells; and a table starts, after the mark, with its first
    header. *)
Theorem escapeCSV_round_trip (BOM : string) :
  (forall v r, ends_field r -> read_field (escapeCSV v ++ r) = (v, r)) /\
  (forall cell rest r,
      ends_field r ->
      read_field (csv_line (cell :: rest) ++ r)
      = (cell, match rest with
               | [] => r
               | _ => (comma ++ csv_line rest ++ r)%string
               end)) /\
  (forall header headers rows,
      exists after,
        tablesToCSV BOM (header :: headers) rows = (BOM ++ after)%string /\
        fst (read_field after) = header).
Proof.
  assert (Hline : forall cell rest r,
    ends_field r ->
    read_field (csv_line (cell :: rest) ++ r)
    = (cell, match rest with
             | [] => r
             | _ => (comma ++ csv_line rest ++ r)%string
             end)).
  { intros cell rest r Hr. unfold csv_line. cbn [map Js.join].
    destruct rest as [|c2 rest]; [apply escapeCSV_back, Hr|].
    cbn [map]. rewrite !append_assoc. apply escapeCSV_back.
    right. left. unfold comma. cbn [append]. apply startsWith_char. }
  split; [exact escapeCSV_back|]. split; [exact Hline|].
  intros header headers rows. unfold tablesToCSV. eexists. split; [reflexivity|].
  cbn [Js.join]. destruct (map csv_line rows) as [|l ls].
  - rewrite <- (append_empty_r (csv_line (header :: headers))).
    rewrite Hline by (left; reflexivity). reflexivity.
  - rewrite Hline
      by (right; right; unfold newline_string; cbn [append];
          apply startsWith_char).
    reflexivity.
Qed.

Import ExportFormats.

(** X25.  For flashcards without line feeds in front, back and tags
    and without tabs in the tags, the Anki export of a non-empty list
    has exactly one line per card, each line is the row of its card
    and has exactly two tab characters, and no tab of a front or back
    is left in it. *)
Theorem flashcardsToAnki_one_line_per_clean_card (cards : list Flashcard) :
  cards <> [] -> Forall clean cards ->
  lines (flashcardsToAnki cards) = map ankiRow cards /\
  List.length (lines (flashcardsToAnki cards)) = List.length cards /\
  Forall (fun line => count_char Js.tab line = 2%nat)
         (lines (flashcardsToAnki cards)) /\
  Forall (fun fc =>
            has_char Js.tab (Js.replace_char Js.tab Js.space (front fc)) = false /\
            has_char Js.tab (Js.replace_char Js.tab Js.space (back fc)) = false)
         cards.
Proof.
  intros Hne Hall.
  destruct (flashcardsToAnki_clean cards Hne Hall) as [Hl Ht].
  split; [exact Hl|]. split; [rewrite Hl; apply length_map|].
  split; [exact Ht|].
  apply Forall_forall. intros fc _. split; apply has_char_replace_same; discriminate.
Qed.

End CsvFacts.

Lemma escapeCSV_round_trip_witness :
  Csv.escapeCSV ("say " ++ Service.quote ++ "hi" ++ Service.quote ++ ", then go")
  = (Service.quote ++ "say " ++ Service.quote ++ Service.quote ++ "hi"
     ++ Service.quote ++ Service.quote ++ ", then go" ++ Service.quote)%string /\
  Csv.read_field
    (Csv.escapeCSV ("say " ++ Service.quote ++ "hi" ++ Service.quote ++ ", then go")
     ++ ",next")
  = (("say " ++ Service.quote ++ "hi" ++ Service.quote ++ ", then go")%string,
     ",next").
Proof.
  split; [reflexivity|].
  apply (proj1 (escapeCSV_round_trip "")).
  right. left. reflexivity.
Defined.

Lemma plain_card_is_clean : ExportFormats.clean MoreFixtures.plain_card.
Proof.
  split; [reflexivity|]. split; [reflexivity|].
  repeat constructor.
Qed.

Lemma flashcardsToAnki_one_line_per_clean_card_witness :
  Forall ExportFormats.clean [MoreFixtures.plain_card; MoreFixtures.plain_card] /\
  List.length
    (ExportFormats.lines
       (ExportFormats.flashcardsToAnki
          [MoreFixtures.plain_card; MoreFixtures.plain_card]))
  = 2%nat.
Proof.
  assert (H : Forall ExportFormats.clean
                [MoreFixtures.plain_card; MoreFixtures.plain_card])
    by (repeat constructor; apply plain_card_is_clean).
  split; [exact H|].
  exact (proj1 (proj2 (flashcardsToAnki_one_line_per_clean_card
                         [MoreFixtures.plain_card; MoreFixtures.plain_card]
                         ltac:(discriminate) H))).
Defined.

(** ** Token refresh: invariants *)

Section RefreshFacts.

Import Refresh RefreshInvariants.

Lemma set_nth_in (c x : Caller) : forall l i,
  In x (set_nth l i c) -> x = c \/ In x l.
Proof.
  induction l as [|a l IH]; intros [|i] H; cbn in *; try tauto.
  - destruct H as [H|H]; [left; congruence | right; right; exact H].
  - destruct H as [H|H]; [tauto|]. destruct (IH i H); tauto.
Qed.

Lemma set_nth_has (c : Caller) : forall l i a,
  nth_error l i = Some a -> In c (set_nth l i c).
Proof.
  induction l as [|x l IH]; intros [|i] a H; cbn in *; try discriminate.
  - left. reflexivity.
  - right. apply (IH i a H).
Qed.

Lemma set_nth_keeps (c d : Caller) : forall l i a,
  nth_error l i = Some a -> In c l -> c <> a -> In c (set_nth l i d).
Proof.
  induction l as [|x l IH]; intros [|i] a H Hin Hne; cbn in *; try discriminate.
  - destruct Hin as [->|Hin]; [congruence | right; exact Hin].
  - destruct Hin as [Hin|Hin]; [left; exact Hin | right; apply (IH i a H Hin Hne)].
Qed.

Lemma set_nth_other (c : Caller) : forall l j i a b,
  nth_error l j = Some a -> nth_error l i = Some b -> a <> b ->
  nth_error (set_nth l j c) i = Some b.
Proof.
  induction l as [|x l IH]; intros [|j] [|i] a b Hj Hi Hne; cbn in *;
    try discriminate; try assumption.
  - congruence.
  - apply (IH j i a b Hj Hi Hne).
Qed.

Lemma nth_error_snoc (l : list Caller) (x b : Caller) (i : nat) :
  nth_error l i = Some b -> nth_error (l ++ [x]) i = Some b.
Proof.
  intros H. rewrite nth_error_app1; [exact H|].
  apply nth_error_Some. congruence.
Qed.

Lemma step_invariant (s s' : Sys) (e : Event) :
  step s e = Some s' -> token_invariant s -> token_invariant s'.
Proof.
  intros Hstep [Hret Hflag]. destruct e as [|i|i ok|i has]; cbn in Hstep.
  - injection Hstep as <-. unfold enter.
    destruct (isRefreshingTokens s) eqn:Ef; split; cbn.
    + intros H. apply in_app_or in H. destruct H as [H|[H|[]]];
        [exact (Hret H) | discriminate].
    + intros _. destruct (Hflag eq_refl) as [c [Hc Hr]].
      exists c. split; [apply in_or_app; left; exact Hc | exact Hr].
    + intros H. apply in_app_or in H. destruct H as [H|[H|[]]];
        [exact (Hret H) | discriminate].
    + intros _. exists Fetching. split; [|reflexivity].
      apply in_or_app. right. left. reflexivity.
  - destruct (nth_error (callers s) i) as [[| | | |]|] eqn:En; try discriminate.
    destruct (tokens s) eqn:Et; injection Hstep as <-; split; cbn.
    + intros _. reflexivity.
    + intros Hf. destruct (Hflag Hf) as [c [Hc Hr]]. exists c. split; [|exact Hr].
      apply (set_nth_keeps c Returned _ i Sleeping En Hc).
      intros ->. discriminate.
    + intros H. apply set_nth_in in H. destruct H as [H|H];
        [discriminate | exact (Hret H)].
    + intros _. exists Fetching. split; [|reflexivity].
      apply (set_nth_has Fetching _ i _ En).
  - destruct (nth_error (callers s) i) as [[| | | |]|] eqn:En; try discriminate.
    destruct ok; injection Hstep as <-; split; cbn.
    + intros H. apply set_nth_in in H. destruct H as [H|H];
        [discriminate | exact (Hret H)].
    + intros _. exists ReadingBody. split; [|reflexivity].
      apply (set_nth_has ReadingBody _ i _ En).
    + intros H. apply set_nth_in in H. destruct H as [H|H];
        [discriminate | exact (Hret H)].
    + discriminate.
  - destruct (nth_error (callers s) i) as [[| | | |]|] eqn:En; try discriminate.
    destruct has; injection Hstep as <-; split; cbn.
    + reflexivity.
    + discriminate.
    + intros H. apply set_nth_in in H. destruct H as [H|H];
        [discriminate | exact (Hret H)].
    + discriminate.
Qed.

Lemma run_invariant : forall events s s',
  run s events = Some s' -> token_invariant s -> token_invariant s'.
Proof.
  induction events as [|e rest IH]; intros s s' Hrun Hinv; cbn in Hrun.
  - injection Hrun as <-. exact Hinv.
  - destruct (step s e) as [s1|] eqn:Es; [|discriminate].
    apply (IH s1 s' Hrun). apply (step_invariant s s1 e Es Hinv).
Qed.

Lemma step_keeps (s s' : Sys) (e : Event) :
  step s e = Some s' ->
  (tokens s = true -> tokens s' = true) /\
  (forall i, nth_error (callers s) i = Some Returned ->
             nth_error (callers s') i = Some Returned).
Proof.
  intros Hstep. destruct e as [|j|j ok|j has]; cbn in Hstep.
  - injection Hstep as <-. unfold enter.
    destruct (isRefreshingTokens s); cbn; split; try tauto;
      intros i Hi; apply nth_error_snoc; exact Hi.
  - destruct (nth_error (callers s) j) as [[| | | |]|] eqn:En; try discriminate.
    destruct (tokens s) eqn:Et; injection Hstep as <-; cbn; split;
      try tauto; try congruence;
      intros i Hi; apply (set_nth_other _ _ j i Sleeping Returned En Hi);
      discriminate.
  - destruct (nth_error (callers s) j) as [[| | | |]|] eqn:En; try discriminate.
    destruct ok; injection Hstep as <-; cbn; split; try tauto;
      intros i Hi; apply (set_nth_other _ _ j i Fetching Returned En Hi);
      discriminate.
  - destruct (nth_error (callers s) j) as [[| | | |]|] eqn:En; try discriminate.
    destruct has; injection Hstep as <-; cbn; split; try tauto;
      intros i Hi; apply (set_nth_other _ _ j i ReadingBody Returned En Hi);
      discriminate.
Qed.

Lemma run_keeps : forall events s s',
  run s events = Some s' ->
  (tokens s = true -> tokens s' = true) /\
  (forall i, nth_error (callers s) i = Some Returned ->
             nth_error (callers s') i = Some Returned).
Proof.
  induction events as [|e rest IH]; intros s s' Hrun; cbn in Hrun.
  - injection Hrun as <-. tauto.
  - destruct (step s e) as [s1|] eqn:Es; [|discriminate].
    destruct (step_keeps s s1 e Es) as [Ht Hr].
    destruct (IH s1 s' Hrun) as [Ht' Hr']. split; auto.
Qed.

(** X26.  In every state that calls of [getTokens] and the events
    they wait for can lead to: a caller has returned only when the
    tokens are cached; the refresh flag is raised only while some
    caller has a fetch in flight or is reading its body; and from then
    on, whatever happens, cached tokens stay cached and a caller that
    has returned stays so. *)
Theorem getTokens_refresh_invariants (events : list Event) (s : Sys) :
  run init events = Some s ->
  (In Returned (callers s) -> tokens s = true) /\
  (isRefreshingTokens s = true ->
   exists c, In c (callers s) /\ is_refreshing c = true) /\
  (forall more s',
      run s more = Some s' ->
      (tokens s = true -> tokens s' = true) /\
      (forall i, nth_error (callers s) i = Some Returned ->
                 nth_error (callers s') i = Some Returned)).
Proof.
  intros Hrun.
  assert (Hinit : token_invariant init).
  { split; cbn; [tauto | discriminate]. }
  destruct (run_invariant events init s Hrun Hinit) as [H1 H2].
  split; [exact H1|]. split; [exact H2|].
  intros more s' Hmore. apply (run_keeps more s s' Hmore).
Qed.

End RefreshFacts.

Lemma getTokens_refresh_invariants_witness :
  Refresh.run Refresh.init [Refresh.Call; Refresh.Call]
  = Some (Refresh.mkSys false true [Refresh.Fetching; Refresh.Sleeping]) /\
  exists c, In c [Refresh.Fetching; Refresh.Sleeping] /\
            RefreshInvariants.is_refreshing c = true.
Proof.
  split; [reflexivity|].
  exact (proj1 (proj2 (getTokens_refresh_invariants
                         [Refresh.Call; Refresh.Call]
                         (Refresh.mkSys false true
                            [Refresh.Fetching; Refresh.Sleeping]) eq_refl))
               eq_refl).
Defined.

(** ** DOM extractor: the choice of the tab *)

Section TabFacts.

Import DOMExtractor.
Local Open Scope js_scope.

Variable browser : Browser.

(** The first element that passes a test, with the ones before it. *)
Lemma find_first {A} (f : A -> bool) : forall l x,
  find f l = Some x ->
  exists before after,
    l = (before ++ x :: after)%list /\ f x = true /\
    Forall (fun y => f y = false) before.
Proof.
  induction l as [|a l IH]; intros x H; cbn in H; [discriminate|].
  destruct (f a) eqn:Ea.
  - injection H as <-. exists [], l. repeat split; [exact Ea | constructor].
  - destruct (IH x H) as [before [after [-> [Hx Hb]]]].
    exists (a :: before), after. repeat split; [exact Hx|].
    constructor; assumption.
Qed.

Lemma find_nothing {A} (f : A -> bool) : forall l,
  find f l = None -> Forall (fun y => f y = false) l.
Proof.
  induction l as [|a l IH]; intros H; cbn in H; [constructor|].
  destruct (f a) eqn:Ea; [discriminate|]. constructor; [exact Ea | exact (IH H)].
Qed.

(** X27.  When the query for the tabs of NotebookLM succeeds,
    [findNotebookLMTab] makes this one call and returns a tab of the
    answer, or nothing exactly when the answer is empty.  With a
    notebook id set it returns the first tab whose URL includes
    [/notebook/] and the id, and the first tab of the answer when no
    URL does; without a notebook id it returns the first tab. *)
Theorem findNotebookLMTab_choice (s : State) (tabs : list Tab) :
  tabs_query browser (api_calls s) = Resolved tabs ->
  exists r,
    findNotebookLMTab browser s = (Resolved r, tick s) /\
    (r = None <-> tabs = []) /\
    (forall t, r = Some t -> In t tabs) /\
    (forall i,
        _notebookId s = Some i -> Js.nonempty i = true ->
        (exists before t after,
            tabs = (before ++ t :: after)%list /\ r = Some t /\
            url_includes t ("/notebook/" ++ i) = true /\
            Forall (fun y => url_includes y ("/notebook/" ++ i) = false) before) \/
        (Forall (fun y => url_includes y ("/notebook/" ++ i) = false) tabs /\
         r = hd_error tabs)) /\
    (_notebookId s = None \/ _notebookId s = Some "" -> r = hd_error tabs).
Proof.
  intros Hq. unfold findNotebookLMTab, bind, query, gets, ret. rewrite Hq.
  destruct tabs as [|first rest].
  - exists None. split; [reflexivity|]. split; [tauto|].
    split; [discriminate|]. split; [|reflexivity].
    intros i _ _. right. split; [constructor | reflexivity].
  - cbn [fst snd _notebookId tick].
    destruct (_notebookId s) as [i|] eqn:Ei.
    + destruct (Js.nonempty i) eqn:En.
      * destruct (find (fun t => url_includes t ("/notebook/" ++ i)) (first :: rest))
          as [m|] eqn:Ef.
        -- exists (Some m). split; [reflexivity|].
           destruct (find_first _ _ _ Ef) as [before [after [Hl [Hm Hb]]]].
           split; [split; discriminate|].
           split; [intros t Ht; injection Ht as <-; rewrite Hl;
                   apply in_or_app; right; left; reflexivity|].
           split.
           ++ intros j Hj _. injection Hj as <-. left.
              exists before, m, after. repeat split; assumption.
           ++ intros [H|H]; [discriminate|]. injection H as ->. discriminate.
        -- exists (Some first). split; [reflexivity|].
           split; [split; discriminate|].
           split; [intros t Ht; injection Ht as <-; left; reflexivity|].
           split; [|reflexivity].
           intros j Hj _. injection Hj as <-. right.
           split; [exact (find_nothing _ _ Ef) | reflexivity].
      * exists (Some first). split; [reflexivity|].
        split; [split; discriminate|].
        split; [intros t Ht; injection Ht as <-; left; reflexivity|].
        split; [|reflexivity].
        intros j Hj Hn. injection Hj as <-. congruence.
    + exists (Some first). split; [reflexivity|].
      split; [split; discriminate|].
      split; [intros t Ht; injection Ht as <-; left; reflexivity|].
      split; [|reflexivity]. intros j Hj. discriminate.
Qed.

End TabFacts.

Lemma findNotebookLMTab_choice_witness :
  exists before after,
    [MoreFixtures.home_tab; MoreFixtures.notebook_tab; MoreFixtures.other_tab]
    = (before ++ MoreFixtures.notebook_tab :: after)%list /\
    fst (DOMExtractor.findNotebookLMTab
           (MoreFixtures.browser_with_tabs
              [MoreFixtures.home_tab; MoreFixtures.notebook_tab;
               MoreFixtures.other_tab])
           MoreFixtures.extractor_for_nb1)
    = Resolved (Some MoreFixtures.notebook_tab).
Proof.
  destruct (findNotebookLMTab_choice
              (MoreFixtures.browser_with_tabs
                 [MoreFixtures.home_tab; MoreFixtures.notebook_tab;
                  MoreFixtures.other_tab])
              MoreFixtures.extractor_for_nb1
              [MoreFixtures.home_tab; MoreFixtures.notebook_tab;
               MoreFixtures.other_tab] eq_refl)
    as [r [Hrun _]].
  exists [MoreFixtures.home_tab], [MoreFixtures.other_tab].
  split; [reflexivity|]. rewrite Hrun. vm_compute in Hrun.
  injection Hrun as <-. reflexivity.
Defined.

